(** * Vectorized PromQL execution core

    A shallow embedding of the pull-based operators of the engine
    (vector-vector binary operator, vector-scalar binary operator,
    duplicate-label check, [scalar], [absent], the instant functions
    that call no library, and the operator telemetry) together with the
    properties their specification states and further properties that
    the code shows.

    Conventions of the embedding:
    - [uint64] and [int64] values are integers in [Z]; arithmetic on
      [uint64] is reduced modulo [2^64] where the source computes it;
    - [float64] values are IEEE 754 binary64 numbers, given by
      [spec_float] with precision 53 and maximal exponent 1024;
    - a Go slice is a list; for the batches returned by [Next], where
      the source tests [in == nil], a batch is an [option]: [None] is
      the nil slice;
    - a function returning [(value, error)] returns a [result]; an
      index out of range or an explicit [panic] is the outcome [Panic];
    - vector pools only recycle memory, they carry no value: a step
      vector taken from a pool is the empty step vector of its
      timestamp, and returning vectors to a pool is not represented;
    - the operators do not carry their telemetry (timings, series
      counts); package [telemetry] is embedded by itself, in module
      [Telemetry]. *)

From Stdlib Require Import ZArith List Bool Lia.
From Stdlib Require Import Floats.SpecFloat.
From stdpp Require Import gmap strings list fin_maps sorting.

Local Open Scope Z_scope.

(** ** Machine numbers *)

Abbreviation uint64 := Z.
Abbreviation int64 := Z.

Definition wrap64 (z : Z) : uint64 := z mod 2 ^ 64.

Definition prec : Z := 53.
Definition emax : Z := 1024.

Abbreviation float64 := spec_float.

Definition f64_valid (x : float64) : bool := valid_binary prec emax x.
Definition f64_add : float64 -> float64 -> float64 := SFadd prec emax.
Definition f64_sub : float64 -> float64 -> float64 := SFsub prec emax.
Definition f64_mul : float64 -> float64 -> float64 := SFmul prec emax.
Definition f64_div : float64 -> float64 -> float64 := SFdiv prec emax.
Definition f64_eqb : float64 -> float64 -> bool := SFeqb.
Definition f64_ltb : float64 -> float64 -> bool := SFltb.
Definition f64_leb : float64 -> float64 -> bool := SFleb.

Definition NaN : float64 := S754_nan.
Definition f64_zero : float64 := S754_zero false.
Definition f64_one : float64 := S754_finite false 4503599627370496 (-52).
Definition f64_half : float64 := S754_finite false 4503599627370496 (-53).

(** Bit-for-bit equality of two floats ([math.Float64bits(a) == math.Float64bits(b)]). *)
Definition f64_same_bits (a b : float64) : bool :=
  match a, b with
  | S754_zero s1, S754_zero s2 => Bool.eqb s1 s2
  | S754_infinity s1, S754_infinity s2 => Bool.eqb s1 s2
  | S754_nan, S754_nan => true
  | S754_finite s1 m1 e1, S754_finite s2 m2 e2 =>
      Bool.eqb s1 s2 && Pos.eqb m1 m2 && Z.eqb e1 e2
  | _, _ => false
  end.

(** ** Label sets, histograms, step vectors *)

(** A label set maps label names to label values. *)
Abbreviation Labels := (gmap string string).

Definition MetricName : string := "__name__".
Definition EmptyLabels : Labels := ∅.

(** [histogram.Span] and [histogram.FloatHistogram] of the Prometheus
    library, as data.  The operations on them belong to that library and
    are taken as parameters ([HistogramLib] below). *)
Record Span := { Offset : Z; Length : Z }.

Record FloatHistogram := {
  Schema : Z;
  ZeroThreshold : float64;
  ZeroCount : float64;
  Count : float64;
  Sum : float64;
  PositiveSpans : list Span;
  NegativeSpans : list Span;
  PositiveBuckets : list float64;
  NegativeBuckets : list float64
}.

(** Modelled from the spec: [model.StepVector] and its [AppendSample],
    [AppendHistogram] and the pool's [GetStepVector] are declared in the
    engine's [model] package; the data model gives a step vector as a
    timestamp with two pairs of parallel arrays. *)
Record StepVector := {
  T : int64;
  SampleIDs : list uint64;
  Samples : list float64;
  HistogramIDs : list uint64;
  Histograms : list (option FloatHistogram)
}.

Definition GetStepVector (ts : int64) : StepVector :=
  {| T := ts; SampleIDs := []; Samples := []; HistogramIDs := []; Histograms := [] |}.

Definition AppendSample (sv : StepVector) (id : uint64) (val : float64) : StepVector :=
  {| T := T sv;
     SampleIDs := SampleIDs sv ++ [id];
     Samples := Samples sv ++ [val];
     HistogramIDs := HistogramIDs sv;
     Histograms := Histograms sv |}.

Definition AppendHistogram (sv : StepVector) (id : uint64) (h : option FloatHistogram) : StepVector :=
  {| T := T sv;
     SampleIDs := SampleIDs sv;
     Samples := Samples sv;
     HistogramIDs := HistogramIDs sv ++ [id];
     Histograms := Histograms sv ++ [h] |}.

(** A batch returned by [Next]: [None] is the nil slice. *)
Definition batch := option (list StepVector).

Definition steps (b : batch) : list StepVector := default [] b.

(** ** Errors, contexts, results *)

Inductive BinOpSide := lhBinOpSide | rhBinOpSide.

Inductive VectorMatchCardinality :=
  CardOneToOne | CardManyToOne | CardOneToMany | CardManyToMany.

Record VectorMatching := {
  Card : VectorMatchCardinality;
  MatchingLabels : list string;
  On : bool;
  Include : list string
}.

(** The errors and annotations of the engine.  [ManyToManyMatchError] is
    modelled from the spec, which lists it as
    ManyToManyMatch(lhs|rhs, dupLabels, origLabels, matching). *)
Inductive error :=
  | Canceled
  | DeadlineExceeded
  | ErrDuplicateLabelSet
  | ManyToManyMatchError (matching : VectorMatching) (dup orig : Labels) (side : BinOpSide)
  | ImplicitManyToOneError
  | UnexpectedCardinalityError (card : VectorMatchCardinality)
  | IncompatibleTypesInBinOpInfo (left op right : string)
  | HistogramError (msg : string)
  | OtherError (msg : string).

(** [context.Context] as far as the operators look at it: [ctxErr] is
    what [ctx.Err()] returns, and [ctx.Done()] is closed exactly when it
    is not nil. *)
Record Context := { ctxErr : option error }.

Inductive result (A : Type) :=
  | Ok (a : A)
  | Error (e : error)
  | Panic.
Arguments Ok {A} a.
Arguments Error {A} e.
Arguments Panic {A}.

(** Slice indexing [l[i]]: [None] stands for the run-time panic of an
    index out of range. *)
Definition index {A : Type} (l : list A) (i : Z) : option A :=
  if i <? 0 then None else l !! Z.to_nat i.

(** Slice assignment [l[i] = x]. *)
Definition assign {A : Type} (l : list A) (i : Z) (x : A) : option (list A) :=
  match index l i with
  | Some _ => Some (<[Z.to_nat i := x]> l)
  | None => None
  end.

(** ** Library functions taken as parameters *)

(** Hashing and canonical bytes of label sets ([labels.Labels.Hash],
    [BytesWithLabels], [BytesWithoutLabels]) and [xxhash.Sum64]. *)
Class LabelsLib := {
  Hash : Labels -> uint64;
  BytesWithLabels : Labels -> list string -> list Byte.byte;
  BytesWithoutLabels : Labels -> list string -> list Byte.byte;
  Sum64 : list Byte.byte -> uint64;
  sortStrings : list string -> list string
}.

(** The methods of [histogram.FloatHistogram].  [Add] and [Sub] return a
    histogram or an error. *)
Class HistogramLib := {
  Copy : FloatHistogram -> FloatHistogram;
  Mul : FloatHistogram -> float64 -> FloatHistogram;
  Div : FloatHistogram -> float64 -> FloatHistogram;
  Add : FloatHistogram -> FloatHistogram -> FloatHistogram + error;
  Sub : FloatHistogram -> FloatHistogram -> FloatHistogram + error;
  Compact : FloatHistogram -> Z -> FloatHistogram;
  Equals : FloatHistogram -> FloatHistogram -> bool
}.

(** The functions of Go's [math] package that the operators call. *)
Class MathLib := {
  Pow : float64 -> float64 -> float64;
  Mod : float64 -> float64 -> float64;
  Atan2 : float64 -> float64 -> float64;
  Floor : float64 -> float64
}.

(** [labels.Builder] of the Prometheus library, represented by the label
    set it denotes: [Set] with an empty value deletes the label, [Del]
    and [Keep] take several names.  [Labels_Get] is [Labels.Get], which
    gives the empty string for an absent label. *)
Definition Builder_Del (b : Labels) (names : list string) : Labels :=
  foldr (fun name acc => delete name acc) b names.
Definition Builder_Keep (b : Labels) (names : list string) : Labels :=
  filter (fun kv => kv.1 ∈ names) b.
Definition Builder_Set (b : Labels) (name v : string) : Labels :=
  if decide (v = "") then delete name b else <[name := v]> b.
Definition Labels_Get (l : Labels) (name : string) : string := default "" (l !! name).

(** ** The operator protocol *)

(** [model.VectorOperator]: an operator is a state of some type [S]
    with the two pulling methods; each call returns its result and the
    state the operator is left in. *)
Class VectorOperator (S : Type) := {
  Series : Context -> S -> result (list Labels) * S;
  Next : Context -> S -> result batch * S
}.

(** ** Package [function]: the scalar and absent operators *)

Module Function.

Record scalarOperator (S : Type) := { scalar_next : S }.
Arguments scalar_next {S} _.

Section ScalarOperator.
Context {S : Type} `{VectorOperator S}.

Definition scalarOperator_Series (ctx : Context) (o : scalarOperator S)
  : result (list Labels) * scalarOperator S :=
  (Ok [], o).

(** The body of the loop over the input batch. *)
Definition scalarOperator_step (vector : StepVector) : StepVector :=
  let sv := GetStepVector (T vector) in
  match Samples vector with
  | [s] => AppendSample sv 0 s
  | _ => AppendSample sv 0 NaN
  end.

Definition scalarOperator_Next (ctx : Context) (o : scalarOperator S)
  : result batch * scalarOperator S :=
  match ctxErr ctx with
  | Some e => (Error e, o)
  | None =>
      let '(r, n) := Next ctx (scalar_next o) in
      let o' := {| scalar_next := n |} in
      match r with
      | Error e => (Error e, o')
      | Panic => (Panic, o')
      | Ok inb =>
          if Nat.eqb (length (steps inb)) 0 then (Ok None, o')
          else (Ok (Some (map scalarOperator_step (steps inb))), o')
      end
  end.

#[global] Instance scalarOperator_VectorOperator : VectorOperator (scalarOperator S) :=
  {| Series := scalarOperator_Series; Next := scalarOperator_Next |}.
End ScalarOperator.

(** The part of the logical plan that [absent] inspects. *)
Inductive MatchType := MatchEqual | MatchNotEqual | MatchRegexp | MatchNotRegexp.

Record Matcher := { mType : MatchType; mName : string; mValue : string }.

Record VectorSelector := { LabelMatchers : list Matcher; Filters : list Matcher }.

Inductive Node :=
  | NodeVectorSelector (n : VectorSelector)
  | NodeMatrixSelector (v : VectorSelector)
  | NodeOther.

Record FunctionCall := { Args : list Node }.

Record absentOperator (S : Type) := {
  absent_once : bool;
  absent_funcExpr : FunctionCall;
  absent_series : list Labels;
  absent_next : S
}.
Arguments absent_once {S} _.
Arguments absent_funcExpr {S} _.
Arguments absent_series {S} _.
Arguments absent_next {S} _.

Definition newAbsentOperator {S : Type} (funcExpr : FunctionCall) (next : S) : absentOperator S :=
  {| absent_once := false; absent_funcExpr := funcExpr; absent_series := []; absent_next := next |}.

(** The loop of [loadSeries] over the matchers. *)
Fixpoint absent_matchers (lm : list Matcher) (has : gset string) (b : Labels) : Labels :=
  match lm with
  | [] => b
  | l :: rest =>
      if decide (mName l = MetricName) then absent_matchers rest has b
      else
        match mType l with
        | MatchEqual =>
            if decide (mName l ∈ has)
            then absent_matchers rest has (Builder_Del b [mName l])
            else absent_matchers rest ({[mName l]} ∪ has) (Builder_Set b (mName l) (mValue l))
        | _ => absent_matchers rest has (Builder_Del b [mName l])
        end
  end.

Section AbsentOperator.
Context {S : Type} `{VectorOperator S}.

(** [loadSeries]: [None] is the panic of [Args[0]] on a call without
    arguments. *)
Definition absentOperator_loadSeries (o : absentOperator S) : option (absentOperator S) :=
  if absent_once o then Some o
  else
    match index (Args (absent_funcExpr o)) 0 with
    | None => None
    | Some arg =>
        let series :=
          match arg with
          | NodeVectorSelector n =>
              [absent_matchers (LabelMatchers n ++ Filters n) ∅ EmptyLabels]
          | NodeMatrixSelector v =>
              [absent_matchers (LabelMatchers v ++ Filters v) ∅ EmptyLabels]
          | NodeOther => [EmptyLabels]
          end in
        Some {| absent_once := true; absent_funcExpr := absent_funcExpr o;
                absent_series := series; absent_next := absent_next o |}
    end.

Definition absentOperator_Series (ctx : Context) (o : absentOperator S)
  : result (list Labels) * absentOperator S :=
  match absentOperator_loadSeries o with
  | None => (Panic, o)
  | Some o1 => (Ok (absent_series o1), o1)
  end.

(** The body of the loop over the input batch. *)
Definition absentOperator_step (vector : StepVector) : StepVector :=
  let sv := GetStepVector (T vector) in
  if Nat.eqb (length (Samples vector)) 0 && Nat.eqb (length (Histograms vector)) 0
  then AppendSample sv 0 f64_one
  else sv.

Definition absentOperator_Next (ctx : Context) (o : absentOperator S)
  : result batch * absentOperator S :=
  match ctxErr ctx with
  | Some e => (Error e, o)
  | None =>
      match absentOperator_loadSeries o with
      | None => (Panic, o)
      | Some o1 =>
          let '(r, n) := Next ctx (absent_next o1) in
          let o2 := {| absent_once := absent_once o1; absent_funcExpr := absent_funcExpr o1;
                       absent_series := absent_series o1; absent_next := n |} in
          match r with
          | Error e => (Error e, o2)
          | Panic => (Panic, o2)
          | Ok vectors =>
              if Nat.eqb (length (steps vectors)) 0 then (Ok None, o2)
              else (Ok (Some (map absentOperator_step (steps vectors))), o2)
          end
      end
  end.

#[global] Instance absentOperator_VectorOperator : VectorOperator (absentOperator S) :=
  {| Series := absentOperator_Series; Next := absentOperator_Next |}.
End AbsentOperator.

End Function.

(** ** Package [exchange]: the duplicate-label check *)

Module Exchange.

Record pair := { a : Z; b : Z }.

Record duplicateLabelCheckOperator (S : Type) := {
  once : bool;
  next : S;
  p : list pair;
  c : list uint64
}.
Arguments once {S} _.
Arguments next {S} _.
Arguments p {S} _.
Arguments c {S} _.

Definition NewDuplicateLabelCheck {S : Type} (next : S) : duplicateLabelCheckOperator S :=
  {| once := false; next := next; p := []; c := [] |}.

Section DuplicateLabelCheck.
Context {S : Type} `{VectorOperator S} `{LabelsLib}.

(** The loop of [init] over the child's series: [i] is the index of
    the head of [series], [m] maps a hash to the first index that has
    it, [p] collects the later indices paired with that first one. *)
Fixpoint init_loop (series : list Labels) (i : Z) (m : gmap Z Z) (p : list pair) : list pair :=
  match series with
  | [] => p
  | l :: rest =>
      let h := Hash l in
      match m !! h with
      | Some j => init_loop rest (i + 1) m (p ++ [{| a := i; b := j |}])
      | None => init_loop rest (i + 1) (<[h := i]> m) p
      end
  end.

(** [init]: the one-shot initializer.  [sync.Once] counts the call as
    done also when the child's [Series] fails. *)
Definition init (ctx : Context) (d : duplicateLabelCheckOperator S)
  : result unit * duplicateLabelCheckOperator S :=
  if once d then (Ok tt, d)
  else
    let '(r, n) := Series ctx (next d) in
    match r with
    | Error e => (Error e, {| once := true; next := n; p := p d; c := c d |})
    | Panic => (Panic, {| once := true; next := n; p := p d; c := c d |})
    | Ok series =>
        (Ok tt, {| once := true; next := n;
                   p := init_loop series 0 ∅ [];
                   c := replicate (length series) 0 |})
    end.

(** First loop of [Next]: clear the masks of the paired series. *)
Fixpoint clear_masks (ps : list pair) (c : list uint64) : option (list uint64) :=
  match ps with
  | [] => Some c
  | pr :: rest =>
      match assign c (a pr) 0 with
      | None => None
      | Some c1 =>
          match assign c1 (b pr) 0 with
          | None => None
          | Some c2 => clear_masks rest c2
          end
      end
  end.

(** Inner loop: [d.c[sid] |= 2 << i] for the sample IDs of one step. *)
Fixpoint mark_step (i : Z) (sids : list uint64) (c : list uint64) : option (list uint64) :=
  match sids with
  | [] => Some c
  | sid :: rest =>
      match index c sid with
      | None => None
      | Some w =>
          match assign c sid (Z.lor w (wrap64 (Z.shiftl 2 i))) with
          | None => None
          | Some c1 => mark_step i rest c1
          end
      end
  end.

(** Second loop: over the steps of the batch, [i] the batch position. *)
Fixpoint mark_batch (i : Z) (inb : list StepVector) (c : list uint64) : option (list uint64) :=
  match inb with
  | [] => Some c
  | sv :: rest =>
      match mark_step i (SampleIDs sv) c with
      | None => None
      | Some c1 => mark_batch (i + 1) rest c1
      end
  end.

(** Third loop: [Some true] when a pair has a common bit. *)
Fixpoint check_pairs (ps : list pair) (c : list uint64) : option bool :=
  match ps with
  | [] => Some false
  | pr :: rest =>
      match index c (a pr), index c (b pr) with
      | Some ca, Some cb =>
          if Z.land ca cb >? 0 then Some true else check_pairs rest c
      | _, _ => None
      end
  end.

Definition duplicateLabelCheckOperator_Next (ctx : Context) (d : duplicateLabelCheckOperator S)
  : result batch * duplicateLabelCheckOperator S :=
  match ctxErr ctx with
  | Some e => (Error e, d)
  | None =>
      match init ctx d with
      | (Error e, d1) => (Error e, d1)
      | (Panic, d1) => (Panic, d1)
      | (Ok _, d1) =>
          let '(r, n) := Next ctx (next d1) in
          let d2 := {| once := once d1; next := n; p := p d1; c := c d1 |} in
          match r with
          | Error e => (Error e, d2)
          | Panic => (Panic, d2)
          | Ok None => (Ok None, d2)
          | Ok (Some inb) =>
              if (0 <? length (p d2))%nat then
                match clear_masks (p d2) (c d2) with
                | None => (Panic, d2)
                | Some c1 =>
                    match mark_batch 0 inb c1 with
                    | None => (Panic, d2)
                    | Some c2 =>
                        let d3 := {| once := once d2; next := n; p := p d2; c := c2 |} in
                        match check_pairs (p d3) (c d3) with
                        | None => (Panic, d3)
                        | Some true => (Error ErrDuplicateLabelSet, d3)
                        | Some false => (Ok (Some inb), d3)
                        end
                    end
                end
              else (Ok (Some inb), d2)
          end
      end
  end.

Definition duplicateLabelCheckOperator_Series (ctx : Context) (d : duplicateLabelCheckOperator S)
  : result (list Labels) * duplicateLabelCheckOperator S :=
  match init ctx d with
  | (Error e, d1) => (Error e, d1)
  | (Panic, d1) => (Panic, d1)
  | (Ok _, d1) =>
      let '(r, n) := Series ctx (next d1) in
      (r, {| once := once d1; next := n; p := p d1; c := c d1 |})
  end.

#[global] Instance duplicateLabelCheckOperator_VectorOperator
  : VectorOperator (duplicateLabelCheckOperator S) :=
  {| Series := duplicateLabelCheckOperator_Series; Next := duplicateLabelCheckOperator_Next |}.
End DuplicateLabelCheck.

End Exchange.

(** ** Package [binary]: the vector-vector and vector-scalar operators *)

Module Binary.

(** [parser.ItemType]: the operators the binary operators look at; any
    other item of the lexer is [ITEM]. *)
Inductive ItemType :=
  | ADD | SUB | MUL | DIV | POW | MOD
  | EQLC | NEQ | GTR | LSS | GTE | LTE
  | ATAN2
  | LAND | LOR | LUNLESS
  | ITEM (code : Z).

Definition ItemTypeStr (op : ItemType) : string :=
  match op with
  | ADD => "+" | SUB => "-" | MUL => "*" | DIV => "/" | POW => "^" | MOD => "%"
  | EQLC => "==" | NEQ => "!=" | GTR => ">" | LSS => "<" | GTE => ">=" | LTE => "<="
  | ATAN2 => "atan2"
  | LAND => "and" | LOR => "or" | LUNLESS => "unless"
  | ITEM _ => ""
  end.

(** Modelled from the spec: [shouldDropMetricName] is defined elsewhere
    in the package; the spec gives it as true for every operator, false
    only for the six comparisons when [returnBool] is false. *)
Definition shouldDropMetricName (op : ItemType) (returnBool : bool) : bool :=
  match op with
  | EQLC | NEQ | GTR | LSS | GTE | LTE => returnBool
  | _ => true
  end.

Record joinBucket := {
  ats : int64;
  bts : int64;
  sid : uint64;
  hid : uint64;
  val : float64;
  hval : option FloatHistogram
}.

(** [joinBucket{ats: -1, bts: -1}] *)
Definition newJoinBucket : joinBucket :=
  {| ats := -1; bts := -1; sid := 0; hid := 0; val := f64_zero; hval := None |}.

Definition cantorPairing (hc lc : uint64) : uint64 :=
  wrap64 (wrap64 (wrap64 (hc + lc) * wrap64 (hc + lc + 1)) / 2 + lc).

(** *** [vectorElemBinop] *)

(** The four values returned by [vectorElemBinop]. *)
Definition binopResult : Type := float64 * option FloatHistogram * bool * option error.

Section ElemBinop.
Context `{HistogramLib} `{MathLib}.

(** [None] is the final [panic] of the function. *)
Definition vectorElemBinop (op : ItemType) (lhs rhs : float64)
    (hlhs hrhs : option FloatHistogram) : option binopResult :=
  let opName := ItemTypeStr op in
  match hlhs, hrhs with
  | None, None =>
      match op with
      | ADD => Some (f64_add lhs rhs, None, true, None)
      | SUB => Some (f64_sub lhs rhs, None, true, None)
      | MUL => Some (f64_mul lhs rhs, None, true, None)
      | DIV => Some (f64_div lhs rhs, None, true, None)
      | POW => Some (Pow lhs rhs, None, true, None)
      | MOD => Some (Mod lhs rhs, None, true, None)
      | EQLC => Some (lhs, None, f64_eqb lhs rhs, None)
      | NEQ => Some (lhs, None, negb (f64_eqb lhs rhs), None)
      | GTR => Some (lhs, None, f64_ltb rhs lhs, None)
      | LSS => Some (lhs, None, f64_ltb lhs rhs, None)
      | GTE => Some (lhs, None, f64_leb rhs lhs, None)
      | LTE => Some (lhs, None, f64_leb lhs rhs, None)
      | ATAN2 => Some (Atan2 lhs rhs, None, true, None)
      | _ => None
      end
  | None, Some hr =>
      match op with
      | MUL => Some (f64_zero, Some (Compact (Mul (Copy hr) lhs) 0), true, None)
      | ADD | SUB | DIV | POW | MOD | EQLC | NEQ | GTR | LSS | GTE | LTE | ATAN2 =>
          Some (f64_zero, None, false,
                Some (IncompatibleTypesInBinOpInfo "float" opName "histogram"))
      | _ => None
      end
  | Some hl, None =>
      match op with
      | MUL => Some (f64_zero, Some (Compact (Mul (Copy hl) rhs) 0), true, None)
      | DIV => Some (f64_zero, Some (Compact (Div (Copy hl) rhs) 0), true, None)
      | ADD | SUB | POW | MOD | EQLC | NEQ | GTR | LSS | GTE | LTE | ATAN2 =>
          Some (f64_zero, None, false,
                Some (IncompatibleTypesInBinOpInfo "histogram" opName "float"))
      | _ => None
      end
  | Some hl, Some hr =>
      match op with
      | ADD =>
          match Add (Copy hl) hr with
          | inr err => Some (f64_zero, None, false, Some err)
          | inl res => Some (f64_zero, Some (Compact res 0), true, None)
          end
      | SUB =>
          match Sub (Copy hl) hr with
          | inr err => Some (f64_zero, None, false, Some err)
          | inl res => Some (f64_zero, Some (Compact res 0), true, None)
          end
      | EQLC => Some (f64_zero, Some hl, Equals hl hr, None)
      | NEQ => Some (f64_zero, Some hl, negb (Equals hl hr), None)
      | MUL | DIV | POW | MOD | GTR | LSS | GTE | LTE | ATAN2 =>
          Some (f64_zero, None, false,
                Some (IncompatibleTypesInBinOpInfo "histogram" opName "histogram"))
      | _ => None
      end
  end.
End ElemBinop.

(** *** A state and error monad for the methods of an operator *)

Definition M (St A : Type) : Type := St -> result A * St.

Definition ret {St A : Type} (x : A) : M St A := fun s => (Ok x, s).

Definition bind {St A B : Type} (m : M St A) (k : A -> M St B) : M St B :=
  fun s =>
    match m s with
    | (Ok x, s1) => k x s1
    | (Error e, s1) => (Error e, s1)
    | (Panic, s1) => (Panic, s1)
    end.

Definition fail {St A : Type} (e : error) : M St A := fun s => (Error e, s).
Definition panic {St A : Type} : M St A := fun s => (Panic, s).
Definition get {St : Type} : M St St := fun s => (Ok s, s).
Definition modify {St : Type} (f : St -> St) : M St unit := fun s => (Ok tt, f s).

(** A value that exists unless the source would panic. *)
Definition orPanic {St A : Type} (x : option A) : M St A :=
  match x with
  | Some v => ret v
  | None => panic
  end.

Notation "'run' x <- m ; k" := (bind m (fun x => k))
  (at level 10, x pattern, m at level 100, k at level 200).

(** [for i, x := range l { acc = body i x acc }], starting at index [i]. *)
Fixpoint forRange {St A B : Type} (body : Z -> A -> B -> M St B)
    (i : Z) (l : list A) (acc : B) : M St B :=
  match l with
  | [] => ret acc
  | x :: rest => run acc1 <- body i x acc; forRange body (i + 1) rest acc1
  end.

(** The same loop for code without effects. *)
Fixpoint foldRange {A B : Type} (body : Z -> A -> B -> B) (i : Z) (l : list A) (acc : B) : B :=
  match l with
  | [] => acc
  | x :: rest => foldRange body (i + 1) rest (body i x acc)
  end.

(** *** The vector-vector operator *)

Record joinHelper := {
  seen : gmap Z Z;
  ls : list Labels;
  n : Z
}.

(** The operator.  The join buckets live in [buckets]; [lcJoinBuckets]
    and [hcJoinBuckets] hold pointers into it, so that two series of one
    signature share one bucket.  [warnings] is the sink that
    [warnings.AddToContext] appends to. *)
Record vectorOperator (L R : Type) := {
  once : bool;
  lhs : L;
  rhs : R;
  lhsSampleIDs : list Labels;
  rhsSampleIDs : list Labels;
  series : list Labels;
  buckets : list joinBucket;
  lcJoinBuckets : list nat;
  hcJoinBuckets : list nat;
  outputMap : gmap Z Z;
  matching : VectorMatching;
  opType : ItemType;
  returnBool : bool;
  warnings : list error
}.
Arguments once {L R} _.
Arguments lhs {L R} _.
Arguments rhs {L R} _.
Arguments lhsSampleIDs {L R} _.
Arguments rhsSampleIDs {L R} _.
Arguments series {L R} _.
Arguments buckets {L R} _.
Arguments lcJoinBuckets {L R} _.
Arguments hcJoinBuckets {L R} _.
Arguments outputMap {L R} _.
Arguments matching {L R} _.
Arguments opType {L R} _.
Arguments returnBool {L R} _.
Arguments warnings {L R} _.

Definition NewVectorOperator {L R : Type} (lhs : L) (rhs : R)
    (matching : VectorMatching) (opType : ItemType) (returnBool : bool) : vectorOperator L R :=
  {| once := false; lhs := lhs; rhs := rhs;
     lhsSampleIDs := []; rhsSampleIDs := []; series := [];
     buckets := []; lcJoinBuckets := []; hcJoinBuckets := [];
     outputMap := ∅;
     matching := matching; opType := opType; returnBool := returnBool;
     warnings := [] |}.

(** Field updates. *)
Definition setBuckets {L R : Type} (bs : list joinBucket) (o : vectorOperator L R) : vectorOperator L R :=
  {| once := once o; lhs := lhs o; rhs := rhs o;
     lhsSampleIDs := lhsSampleIDs o; rhsSampleIDs := rhsSampleIDs o; series := series o;
     buckets := bs; lcJoinBuckets := lcJoinBuckets o; hcJoinBuckets := hcJoinBuckets o;
     outputMap := outputMap o;
     matching := matching o; opType := opType o; returnBool := returnBool o;
     warnings := warnings o |}.

Definition setWarnings {L R : Type} (ws : list error) (o : vectorOperator L R) : vectorOperator L R :=
  {| once := once o; lhs := lhs o; rhs := rhs o;
     lhsSampleIDs := lhsSampleIDs o; rhsSampleIDs := rhsSampleIDs o; series := series o;
     buckets := buckets o; lcJoinBuckets := lcJoinBuckets o; hcJoinBuckets := hcJoinBuckets o;
     outputMap := outputMap o;
     matching := matching o; opType := opType o; returnBool := returnBool o;
     warnings := ws |}.

Definition setChildren {L R : Type} (l : L) (r : R) (o : vectorOperator L R) : vectorOperator L R :=
  {| once := once o; lhs := l; rhs := r;
     lhsSampleIDs := lhsSampleIDs o; rhsSampleIDs := rhsSampleIDs o; series := series o;
     buckets := buckets o; lcJoinBuckets := lcJoinBuckets o; hcJoinBuckets := hcJoinBuckets o;
     outputMap := outputMap o;
     matching := matching o; opType := opType o; returnBool := returnBool o;
     warnings := warnings o |}.

Definition setOnce {L R : Type} (o : vectorOperator L R) : vectorOperator L R :=
  {| once := true; lhs := lhs o; rhs := rhs o;
     lhsSampleIDs := lhsSampleIDs o; rhsSampleIDs := rhsSampleIDs o; series := series o;
     buckets := buckets o; lcJoinBuckets := lcJoinBuckets o; hcJoinBuckets := hcJoinBuckets o;
     outputMap := outputMap o;
     matching := matching o; opType := opType o; returnBool := returnBool o;
     warnings := warnings o |}.

(** Bucket updates [jp.f = v]. *)
Definition setAts (v : int64) (jp : joinBucket) : joinBucket :=
  {| ats := v; bts := bts jp; sid := sid jp; hid := hid jp; val := val jp; hval := hval jp |}.
Definition setBts (v : int64) (jp : joinBucket) : joinBucket :=
  {| ats := ats jp; bts := v; sid := sid jp; hid := hid jp; val := val jp; hval := hval jp |}.
Definition setSid (v : uint64) (jp : joinBucket) : joinBucket :=
  {| ats := ats jp; bts := bts jp; sid := v; hid := hid jp; val := val jp; hval := hval jp |}.
Definition setHid (v : uint64) (jp : joinBucket) : joinBucket :=
  {| ats := ats jp; bts := bts jp; sid := sid jp; hid := v; val := val jp; hval := hval jp |}.
Definition setVal (v : float64) (jp : joinBucket) : joinBucket :=
  {| ats := ats jp; bts := bts jp; sid := sid jp; hid := hid jp; val := v; hval := hval jp |}.
Definition setHval (v : option FloatHistogram) (jp : joinBucket) : joinBucket :=
  {| ats := ats jp; bts := bts jp; sid := sid jp; hid := hid jp; val := val jp; hval := v |}.

Section SignatureFunc.
Context `{LabelsLib}.

Definition signatureFunc (on : bool) (names : list string) : Labels -> uint64 :=
  if on then
    let names := sortStrings names in
    fun lset => Sum64 (BytesWithLabels lset names)
  else
    let names := sortStrings (MetricName :: names) in
    fun lset => Sum64 (BytesWithoutLabels lset names).

Definition joinHelper_append (h : joinHelper) (l : Labels) : Z * joinHelper :=
  let hash := Hash l in
  match seen h !! hash with
  | Some k => (k, h)
  | None => (n h, {| seen := <[hash := n h]> (seen h); ls := ls h ++ [l]; n := n h + 1 |})
  end.
End SignatureFunc.

(** The tables that the first two loops of [initJoinTables] build. *)
Record joinTables := {
  joinBucketsByHash : gmap Z nat;
  heap : list joinBucket;
  sideJoinBuckets : list nat;
  hashToSeriesIDs : gmap Z (list uint64);
  sampleIdToSignature : gmap Z Z
}.

Section InitJoinTables.
Context `{LabelsLib}.

(** Body of the first two loops of [initJoinTables]: series [i] of one
    side gets its signature, is filed under it, and gets the bucket of
    that signature, allocated when the signature is new. *)
Definition initSide_body (sigFunc : Labels -> uint64) (i : Z) (l : Labels) (t : joinTables)
  : joinTables :=
  let sig := sigFunc l in
  let sigs := <[i := sig]> (sampleIdToSignature t) in
  let ids := <[sig := default [] (hashToSeriesIDs t !! sig) ++ [wrap64 i]]> (hashToSeriesIDs t) in
  match joinBucketsByHash t !! sig with
  | Some jb =>
      {| joinBucketsByHash := joinBucketsByHash t; heap := heap t;
         sideJoinBuckets := sideJoinBuckets t ++ [jb];
         hashToSeriesIDs := ids; sampleIdToSignature := sigs |}
  | None =>
      let jb := length (heap t) in
      {| joinBucketsByHash := <[sig := jb]> (joinBucketsByHash t);
         heap := heap t ++ [newJoinBucket];
         sideJoinBuckets := sideJoinBuckets t ++ [jb];
         hashToSeriesIDs := ids; sampleIdToSignature := sigs |}
  end.

Definition initSide (sigFunc : Labels -> uint64) (side : list Labels)
    (byHash : gmap Z nat) (hp : list joinBucket) : joinTables :=
  foldRange (initSide_body sigFunc) 0 side
    {| joinBucketsByHash := byHash; heap := hp; sideJoinBuckets := [];
       hashToSeriesIDs := ∅; sampleIdToSignature := ∅ |}.

(** [resultMetric] *)
Definition resultMetric (m : VectorMatching) (op : ItemType) (returnBool : bool)
    (highCard lowCard : Labels) : Labels :=
  let b := highCard in
  let b := if shouldDropMetricName op returnBool then Builder_Del b [MetricName] else b in
  let b :=
    match Card m with
    | CardOneToOne =>
        if On m then Builder_Keep b (MatchingLabels m) else Builder_Del b (MatchingLabels m)
    | _ => b
    end in
  let b :=
    fold_left
      (fun b ln =>
         let v := Labels_Get lowCard ln in
         if decide (v = "") then Builder_Del b [ln] else Builder_Set b ln v)
      (Include m) b in
  if returnBool then Builder_Del b [MetricName] else b.

(** The output series and the output map under construction. *)
Definition outputs : Type := joinHelper * gmap Z Z.

(** [outputMap.Store(cantorPairing(hc, lc), uint64(h.append(ls)))] *)
Definition storeOutput (hc lc : uint64) (l : Labels) (out : outputs) : outputs :=
  let '(k, h) := joinHelper_append (fst out) l in
  (h, <[cantorPairing hc lc := wrap64 k]> (snd out)).

(** The [switch o.opType] of [initJoinTables]; [None] is an index out
    of range. *)
Definition initSeries (m : VectorMatching) (op : ItemType) (returnBool : bool)
    (highCardSide lowCardSide : list Labels) (hct lct : joinTables) : option outputs :=
  let start : outputs := ({| seen := ∅; ls := []; n := 0 |}, ∅) in
  match op with
  | LAND =>
      Some (foldRange
        (fun i hcl out =>
           let sig := default 0 (sampleIdToSignature hct !! i) in
           match hashToSeriesIDs lct !! sig with
           | None => out
           | Some lcs =>
               fold_left
                 (fun out lc => storeOutput (wrap64 (i + 1)) (wrap64 (lc + 1)) hcl out)
                 lcs out
           end)
        0 highCardSide start)
  | LOR =>
      let out :=
        foldRange (fun i hcl out => storeOutput (wrap64 (i + 1)) 0 hcl out)
          0 highCardSide start in
      Some (foldRange (fun i lcl out => storeOutput 0 (wrap64 (i + 1)) lcl out)
              0 lowCardSide out)
  | LUNLESS =>
      Some (foldRange (fun i hcl out => storeOutput (wrap64 (i + 1)) 0 hcl out)
              0 highCardSide start)
  | _ =>
      foldRange
        (fun i hcl out =>
           let sig := default 0 (sampleIdToSignature hct !! i) in
           match hashToSeriesIDs lct !! sig with
           | None => out
           | Some lcs =>
               fold_left
                 (fun out lc =>
                    match out, index lowCardSide lc with
                    | Some out, Some lcl =>
                        Some (storeOutput (wrap64 (i + 1)) (wrap64 (lc + 1))
                                (resultMetric m op returnBool hcl lcl) out)
                    | _, _ => None
                    end)
                 lcs out
           end)
        0 highCardSide (Some start)
  end.
End InitJoinTables.

Section VectorOperator.
Context {L R : Type} `{VectorOperator L} `{VectorOperator R}.
Context `{LabelsLib} `{HistogramLib} `{MathLib}.

Abbreviation Op := (vectorOperator L R).

Definition sigFunc (o : Op) : Labels -> uint64 :=
  signatureFunc (On (matching o)) (MatchingLabels (matching o)).

Definition initJoinTables (highCardSide lowCardSide : list Labels) (o : Op) : option Op :=
  let lct := initSide (sigFunc o) lowCardSide ∅ [] in
  let hct := initSide (sigFunc o) highCardSide (joinBucketsByHash lct) (heap lct) in
  match initSeries (matching o) (opType o) (returnBool o) highCardSide lowCardSide hct lct with
  | None => None
  | Some (h, outputMap) =>
      Some {| once := once o; lhs := lhs o; rhs := rhs o;
              lhsSampleIDs := lhsSampleIDs o; rhsSampleIDs := rhsSampleIDs o;
              series := ls h;
              buckets := heap hct;
              lcJoinBuckets := sideJoinBuckets lct;
              hcJoinBuckets := sideJoinBuckets hct;
              outputMap := outputMap;
              matching := matching o; opType := opType o; returnBool := returnBool o;
              warnings := warnings o |}
  end.

(** [init]: both children's [Series] are called; the error of the
    right child is looked at first. *)
Definition init (ctx : Context) : M Op unit := fun o =>
  let '(rl, l1) := Series ctx (lhs o) in
  let '(rr, r1) := Series ctx (rhs o) in
  let o1 := setChildren l1 r1 o in
  match rr, rl with
  | Panic, _ | _, Panic => (Panic, o1)
  | Error e, _ => (Error e, o1)
  | _, Error e => (Error e, o1)
  | Ok lowCardSide, Ok highCardSide =>
      let o2 :=
        {| once := once o1; lhs := lhs o1; rhs := rhs o1;
           lhsSampleIDs := highCardSide; rhsSampleIDs := lowCardSide;
           series := series o1;
           buckets := buckets o1; lcJoinBuckets := lcJoinBuckets o1;
           hcJoinBuckets := hcJoinBuckets o1; outputMap := outputMap o1;
           matching := matching o1; opType := opType o1; returnBool := returnBool o1;
           warnings := warnings o1 |} in
      let '(highCardSide, lowCardSide) :=
        match Card (matching o) with
        | CardOneToMany => (lowCardSide, highCardSide)
        | _ => (highCardSide, lowCardSide)
        end in
      match initJoinTables highCardSide lowCardSide o2 with
      | None => (Panic, o2)
      | Some o3 => (Ok tt, o3)
      end
  end.

(** [initOnce]: [sync.Once] runs [init] on the first call only, also
    when that call fails. *)
Definition initOnce (ctx : Context) : M Op unit := fun o =>
  if once o then (Ok tt, o) else init ctx (setOnce o).

Definition outputSeriesID (o : Op) (hc lc : uint64) : uint64 :=
  default 0 (outputMap o !! cantorPairing hc lc).

(** [jp := o.lcJoinBuckets[sampleID]]: the pointer and the bucket it
    points to. *)
Definition lcJoinBucket (sampleID : uint64) : M Op (nat * joinBucket) := fun o =>
  match index (lcJoinBuckets o) sampleID with
  | None => (Panic, o)
  | Some ptr =>
      match buckets o !! ptr with
      | None => (Panic, o)
      | Some jp => (Ok (ptr, jp), o)
      end
  end.

Definition hcJoinBucket (sampleID : uint64) : M Op (nat * joinBucket) := fun o =>
  match index (hcJoinBuckets o) sampleID with
  | None => (Panic, o)
  | Some ptr =>
      match buckets o !! ptr with
      | None => (Panic, o)
      | Some jp => (Ok (ptr, jp), o)
      end
  end.

(** Writing a bucket back through its pointer. *)
Definition storeBucket (ptr : nat) (jp : joinBucket) : M Op unit :=
  modify (fun o => setBuckets (<[ptr := jp]> (buckets o)) o).

(** [warnings.AddToContext(err, ctx)] *)
Definition addToContext (err : option error) : M Op unit :=
  match err with
  | None => ret tt
  | Some e => modify (fun o => setWarnings (warnings o ++ [e]) o)
  end.
End VectorOperator.

Section VectorOperatorExec.
Context {L R : Type} `{VectorOperator L} `{VectorOperator R}.
Context `{LabelsLib} `{HistogramLib} `{MathLib}.

Abbreviation Op := (vectorOperator L R).

Definition execBinaryAnd (lhs rhs : StepVector) : M Op StepVector :=
  let ts := T lhs in
  let step := GetStepVector ts in
  run _ <- forRange
    (fun _ sampleID (_ : unit) =>
       run (ptr, jp) <- lcJoinBucket sampleID;
       storeBucket ptr (setAts ts (setSid sampleID jp)))
    0 (SampleIDs rhs) tt;
  forRange
    (fun i sampleID step =>
       run (_, jp) <- hcJoinBucket sampleID;
       if ats jp =? ts then
         run o <- get;
         run s <- orPanic (index (Samples lhs) i);
         ret (AppendSample step
                (outputSeriesID o (wrap64 (sampleID + 1)) (wrap64 (sid jp + 1))) s)
       else ret step)
    0 (SampleIDs lhs) step.

Definition execBinaryOr (lhs rhs : StepVector) : M Op StepVector :=
  let ts := T lhs in
  let step := GetStepVector ts in
  run step <- forRange
    (fun i sampleID step =>
       run (ptr, jp) <- hcJoinBucket sampleID;
       run _ <- storeBucket ptr (setAts ts jp);
       run o <- get;
       run s <- orPanic (index (Samples lhs) i);
       ret (AppendSample step (outputSeriesID o (wrap64 (sampleID + 1)) 0) s))
    0 (SampleIDs lhs) step;
  forRange
    (fun i sampleID step =>
       run (_, jp) <- lcJoinBucket sampleID;
       if negb (ats jp =? ts) then
         run o <- get;
         run s <- orPanic (index (Samples rhs) i);
         ret (AppendSample step (outputSeriesID o 0 (wrap64 (sampleID + 1))) s)
       else ret step)
    0 (SampleIDs rhs) step.

Definition execBinaryUnless (lhs rhs : StepVector) : M Op StepVector :=
  let ts := T lhs in
  let step := GetStepVector ts in
  run _ <- forRange
    (fun _ sampleID (_ : unit) =>
       run (ptr, jp) <- lcJoinBucket sampleID;
       storeBucket ptr (setAts ts jp))
    0 (SampleIDs rhs) tt;
  forRange
    (fun i sampleID step =>
       run (_, jp) <- hcJoinBucket sampleID;
       if negb (ats jp =? ts) then
         run o <- get;
         run s <- orPanic (index (Samples lhs) i);
         ret (AppendSample step (outputSeriesID o (wrap64 (sampleID + 1)) 0) s)
       else ret step)
    0 (SampleIDs lhs) step.

(** [computeBinaryPairing]: the operands are swapped back for
    one-to-many matching.  [None] is the panic of [vectorElemBinop]. *)
Definition computeBinaryPairing (o : Op) (lhs rhs : float64)
    (hlhs hrhs : option FloatHistogram) : option binopResult :=
  match Card (matching o) with
  | CardOneToMany => vectorElemBinop (opType o) rhs lhs hrhs hlhs
  | _ => vectorElemBinop (opType o) lhs rhs hlhs hrhs
  end.

Definition newManyToManyMatchErrorOnLowCardSide (originalSampleId duplicateSampleId : uint64)
  : M Op error :=
  run o <- get;
  let '(side, labels) :=
    match Card (matching o) with
    | CardOneToMany => (lhBinOpSide, lhsSampleIDs o)
    | _ => (rhBinOpSide, rhsSampleIDs o)
    end in
  run dup <- orPanic (index labels duplicateSampleId);
  run orig <- orPanic (index labels originalSampleId);
  ret (ManyToManyMatchError (matching o) dup orig side).

Definition newImplicitManyToOneError : error := ImplicitManyToOneError.

Definition isCardOneToOne (c : VectorMatchCardinality) : bool :=
  match c with CardOneToOne => true | _ => false end.

(** The four loops of [execBinaryArithmetic], in the order of the
    source. *)
Definition populateSamples (ts : int64) (lcs : StepVector) : M Op unit :=
  forRange
    (fun i sampleID (_ : unit) =>
       run (ptr, jp) <- lcJoinBucket sampleID;
       if ats jp =? ts then
         run e <- newManyToManyMatchErrorOnLowCardSide (sid jp) sampleID;
         fail e
       else
         run s <- orPanic (index (Samples lcs) i);
         storeBucket ptr (setAts ts (setVal s (setSid sampleID jp))))
    0 (SampleIDs lcs) tt.

Definition populateHistograms (ts : int64) (lcs : StepVector) : M Op unit :=
  forRange
    (fun i hID (_ : unit) =>
       run (ptr, jp) <- lcJoinBucket hID;
       if ats jp =? ts then
         run e <- newManyToManyMatchErrorOnLowCardSide (sid jp) hID;
         fail e
       else
         run h <- orPanic (index (Histograms lcs) i);
         storeBucket ptr (setAts ts (setHval h (setHid hID jp))))
    0 (HistogramIDs lcs) tt.

Definition joinSamples (ts : int64) (hcs : StepVector) (step : StepVector) : M Op StepVector :=
  forRange
    (fun i sampleID step =>
       run (ptr, jp) <- hcJoinBucket sampleID;
       if negb (ats jp =? ts) then ret step
       else
         run o <- get;
         if (bts jp =? ts) && isCardOneToOne (Card (matching o)) then
           fail newImplicitManyToOneError
         else
           run _ <- storeBucket ptr (setBts ts jp);
           run s <- orPanic (index (Samples hcs) i);
           run res <- orPanic (computeBinaryPairing o s (val jp) None None);
           let '(f, _, keep, err) := res in
           run _ <- addToContext err;
           if returnBool o then
             let f := if keep then f64_one else f64_zero in
             ret (AppendSample step
                    (outputSeriesID o (wrap64 (sampleID + 1)) (wrap64 (sid jp + 1))) f)
           else if negb keep then ret step
           else
             ret (AppendSample step
                    (outputSeriesID o (wrap64 (sampleID + 1)) (wrap64 (sid jp + 1))) f))
    0 (SampleIDs hcs) step.

Definition joinHistograms (ts : int64) (hcs : StepVector) (step : StepVector)
  : M Op StepVector :=
  forRange
    (fun i hID step =>
       run (ptr, jp) <- hcJoinBucket hID;
       if negb (ats jp =? ts) then ret step
       else
         run o <- get;
         if (bts jp =? ts) && isCardOneToOne (Card (matching o)) then
           fail newImplicitManyToOneError
         else
           run _ <- storeBucket ptr (setBts ts jp);
           run hh <- orPanic (index (Histograms hcs) i);
           run res <- orPanic (computeBinaryPairing o f64_zero f64_zero hh (hval jp));
           let '(_, h, _, err) := res in
           run _ <- addToContext err;
           ret (AppendHistogram step
                  (outputSeriesID o (wrap64 (hID + 1)) (wrap64 (sid jp + 1))) h))
    0 (HistogramIDs hcs) step.

Definition execBinaryArithmetic (ctx : Context) (lhs rhs : StepVector) : M Op StepVector :=
  let ts := T lhs in
  let step := GetStepVector ts in
  run o <- get;
  match
    match Card (matching o) with
    | CardManyToOne | CardOneToOne => Some (lhs, rhs)
    | CardOneToMany => Some (rhs, lhs)
    | CardManyToMany => None
    end
  with
  | None => fail (UnexpectedCardinalityError (Card (matching o)))
  | Some (hcs, lcs) =>
      if Nat.eqb (length (Samples hcs)) 0 then ret step
      else
        run _ <- populateSamples ts lcs;
        run _ <- populateHistograms ts lcs;
        run step <- joinSamples ts hcs step;
        joinHistograms ts hcs step
  end.

Definition execBinaryOperation (ctx : Context) (lhs rhs : StepVector) : M Op StepVector :=
  run o <- get;
  match opType o with
  | LAND => execBinaryAnd lhs rhs
  | LOR => execBinaryOr lhs rhs
  | LUNLESS => execBinaryUnless lhs rhs
  | _ => execBinaryArithmetic ctx lhs rhs
  end.

Definition vectorOperator_Series (ctx : Context) : M Op (list Labels) :=
  run _ <- initOnce ctx;
  run o <- get;
  ret (series o).

(** The loop of [Next] over the left batch: step [i] (the loop's
    [vector], which is [lhs[i]]) is paired with step [i] of the right
    batch as long as there is one. *)
Definition nextLoop (ctx : Context) (lhsB rhsB : list StepVector) : M Op (list StepVector) :=
  forRange
    (fun i vector batch =>
       if (i <? Z.of_nat (length rhsB)) then
         run r <- orPanic (index rhsB i);
         run step <- execBinaryOperation ctx vector r;
         ret (batch ++ [step])
       else ret batch)
    0 lhsB [].

(** [Next]: both children are pulled; the error of the right child is
    looked at first. *)
Definition vectorOperator_Next (ctx : Context) : M Op batch :=
  match ctxErr ctx with
  | Some e => fail e
  | None =>
      run _ <- initOnce ctx;
      run pulled <-
        (fun o =>
           let '(rl, l1) := Next ctx (lhs o) in
           let '(rr, r1) := Next ctx (rhs o) in
           let o1 := setChildren l1 r1 o in
           match rr, rl with
           | Panic, _ | _, Panic => (Panic, o1)
           | Error e, _ => (Error e, o1)
           | _, Error e => (Error e, o1)
           | Ok rhsB, Ok lhsB => (Ok (lhsB, rhsB), o1)
           end);
      let '(lhsB, rhsB) := pulled in
      if Nat.eqb (length (steps lhsB)) 0 || Nat.eqb (length (steps rhsB)) 0 then ret None
      else
        run batch <- nextLoop ctx (steps lhsB) (steps rhsB);
        ret (Some batch)
  end.

#[global] Instance vectorOperator_VectorOperator : VectorOperator Op :=
  {| Series := vectorOperator_Series; Next := vectorOperator_Next |}.
End VectorOperatorExec.

(** *** The vector-scalar operator *)

(** The operator of package [binary] that is also called
    [scalarOperator].  [floatOp], [histOp] and [getOperands] are the
    function values that the constructor stores in the operator. *)
Record scalarOperator (S1 S2 : Type) := {
  seriesOnce : bool;
  sseries : list Labels;
  scalar : S1;
  snext : S2;
  sopType : ItemType;
  getOperands : StepVector -> Z -> float64 -> option (float64 * float64);
  operandValIdx : Z;
  floatOp : float64 * float64 -> Z -> float64 * bool;
  histOp : option FloatHistogram -> float64 -> option FloatHistogram;
  sreturnBool : bool;
  bothScalars : bool
}.
Arguments seriesOnce {S1 S2} _.
Arguments sseries {S1 S2} _.
Arguments scalar {S1 S2} _.
Arguments snext {S1 S2} _.
Arguments sopType {S1 S2} _.
Arguments getOperands {S1 S2} _.
Arguments operandValIdx {S1 S2} _.
Arguments floatOp {S1 S2} _.
Arguments histOp {S1 S2} _.
Arguments sreturnBool {S1 S2} _.
Arguments bothScalars {S1 S2} _.

Definition getOperandsScalarLeft (v : StepVector) (i : Z) (scalar : float64)
  : option (float64 * float64) :=
  match index (Samples v) i with
  | Some x => Some (scalar, x)
  | None => None
  end.

Definition getOperandsScalarRight (v : StepVector) (i : Z) (scalar : float64)
  : option (float64 * float64) :=
  match index (Samples v) i with
  | Some x => Some (x, scalar)
  | None => None
  end.

Section ScalarOperator.
Context {S1 S2 : Type} `{VectorOperator S1} `{VectorOperator S2}.

Abbreviation SOp := (scalarOperator S1 S2).

Definition setScalarState (once : bool) (series : list Labels) (sc : S1) (nx : S2) (o : SOp)
  : SOp :=
  {| seriesOnce := once; sseries := series; scalar := sc; snext := nx;
     sopType := sopType o; getOperands := getOperands o;
     operandValIdx := operandValIdx o; floatOp := floatOp o; histOp := histOp o;
     sreturnBool := sreturnBool o; bothScalars := bothScalars o |}.

(** [extlabels.DropMetricName] *)
Definition DropMetricName (l : Labels) : Labels := delete MetricName l.

Definition loadSeries (ctx : Context) : M SOp unit := fun o =>
  let '(r, nx) := Series ctx (snext o) in
  let o1 := setScalarState (seriesOnce o) (sseries o) (scalar o) nx o in
  match r with
  | Panic => (Panic, o1)
  | Error e => (Error e, o1)
  | Ok vectorSeries =>
      let series :=
        map (fun l =>
               if negb (bool_decide (l = EmptyLabels)) then
                 if shouldDropMetricName (sopType o) (sreturnBool o)
                 then DropMetricName l else l
               else l)
            vectorSeries in
      (Ok tt, setScalarState (seriesOnce o1) series (scalar o1) (snext o1) o1)
  end.

(** [o.seriesOnce.Do(func() { err = o.loadSeries(ctx) })] *)
Definition loadSeriesOnce (ctx : Context) : M SOp unit := fun o =>
  if seriesOnce o then (Ok tt, o)
  else loadSeries ctx (setScalarState true (sseries o) (scalar o) (snext o) o).

Definition scalarOperator_Series (ctx : Context) : M SOp (list Labels) :=
  run _ <- loadSeriesOnce ctx;
  run o <- get;
  ret (sseries o).

(** The two inner loops of [Next] for one step of the batch. *)
Definition scalarOperator_step (o : SOp) (vector : StepVector) (scalarVal : float64)
  : M SOp StepVector :=
  let step := GetStepVector (T vector) in
  run step <- forRange
    (fun i (_ : float64) step =>
       run operands <- orPanic (getOperands o vector i scalarVal);
       let '(val, keep) := floatOp o operands (operandValIdx o) in
       if sreturnBool o then
         let val :=
           if negb (bothScalars o) then (if keep then f64_one else f64_zero) else val in
         run id <- orPanic (index (SampleIDs vector) i);
         ret (AppendSample step id val)
       else if negb keep then ret step
       else
         run id <- orPanic (index (SampleIDs vector) i);
         ret (AppendSample step id val))
    0 (Samples vector) step;
  forRange
    (fun i (_ : uint64) step =>
       run h <- orPanic (index (Histograms vector) i);
       match histOp o h scalarVal with
       | Some val =>
           run id <- orPanic (index (HistogramIDs vector) i);
           ret (AppendHistogram step id (Some val))
       | None => ret step
       end)
    0 (HistogramIDs vector) step.

Definition scalarOperator_Next (ctx : Context) : M SOp batch :=
  match ctxErr ctx with
  | Some e => fail e
  | None =>
      run inb <-
        (fun o =>
           let '(r, nx) := Next ctx (snext o) in
           (r, setScalarState (seriesOnce o) (sseries o) (scalar o) nx o));
      match inb with
      | None => ret None
      | Some inb =>
          run _ <- loadSeriesOnce ctx;
          run scalarIn <-
            (fun o =>
               let '(r, sc) := Next ctx (scalar o) in
               (r, setScalarState (seriesOnce o) (sseries o) sc (snext o) o));
          run o <- get;
          run out <- forRange
            (fun v vector out =>
               let scalarVal :=
                 match index (steps scalarIn) v with
                 | Some sv =>
                     match Samples sv with
                     | s :: _ => s
                     | [] => NaN
                     end
                 | None => NaN
                 end in
               run step <- scalarOperator_step o vector scalarVal;
               ret (out ++ [step]))
            0 inb [];
          ret (Some out)
      end
  end.

#[global] Instance scalarOperator_VectorOperator : VectorOperator SOp :=
  {| Series := scalarOperator_Series; Next := scalarOperator_Next |}.
End ScalarOperator.

End Binary.

(** ** Package [function]: the instant function [round] *)

Module InstantFunctions.

Section Round.
Context `{MathLib}.

(** [instantVectorFuncs["round"]] *)
Definition round (f : float64) (h : option FloatHistogram) (vargs : list float64)
  : float64 * bool :=
  match h with
  | Some _ => (f64_zero, false)
  | None =>
      if (1 <? length vargs)%nat then (f64_zero, false)
      else
        let toNearest :=
          match vargs with
          | v :: _ => v
          | [] => f64_one
          end in
        let toNearestInverse := f64_div f64_one toNearest in
        (f64_div (Floor (f64_add (f64_mul f toNearestInverse) f64_half)) toNearestInverse, true)
  end.
End Round.

End InstantFunctions.


(** ** Package [function]: the instant functions without library calls *)

Module InstantVectorFuncs.

(** [functionCall] *)
Definition functionCall : Type :=
  float64 -> option FloatHistogram -> list float64 -> float64 * bool.

(** [simpleFunc] *)
Definition simpleFunc (f : float64 -> float64) : functionCall :=
  fun v h vargs =>
    match h with
    | Some _ => (f64_zero, false)
    | None => (f v, true)
    end.

Definition f64_neg_one : float64 := S754_finite true 4503599627370496 (-52).

(** [math.IsNaN], which is [f != f]. *)
Definition IsNaN (f : float64) : bool := negb (f64_eqb f f).

(** The function under [simpleFunc] in [instantVectorFuncs["sgn"]]. *)
Definition sgn_of (v : float64) : float64 :=
  let sign := f64_zero in
  let sign :=
    if f64_ltb f64_zero v then f64_one
    else if f64_ltb v f64_zero then f64_neg_one
    else sign in
  if IsNaN v then NaN else sign.

Definition sgn : functionCall := simpleFunc sgn_of.

(** [instantVectorFuncs["vector"]] *)
Definition vector : functionCall := fun f h vargs => (f, true).

(** [instantVectorFuncs["sort"]] and its three variants. *)
Definition sort : functionCall := simpleFunc (fun v => v).

(** [instantVectorFuncs["histogram_sum"]], ["histogram_count"] and
    ["histogram_avg"]. *)
Definition histogram_sum : functionCall :=
  fun f h vargs =>
    match h with
    | None => (f64_zero, false)
    | Some h => (Sum h, true)
    end.

Definition histogram_count : functionCall :=
  fun f h vargs =>
    match h with
    | None => (f64_zero, false)
    | Some h => (Count h, true)
    end.

Definition histogram_avg : functionCall :=
  fun f h vargs =>
    match h with
    | None => (f64_zero, false)
    | Some h => (f64_div (Sum h) (Count h), true)
    end.

End InstantVectorFuncs.

(** ** Package [telemetry] *)

Module Telemetry.

(** Addition on [int64], which wraps around ([time.Duration] is an
    [int64] of nanoseconds). *)
Definition wrapInt64 (z : Z) : int64 := (z + 2 ^ 63) mod 2 ^ 64 - 2 ^ 63.

(** [stats.QuerySamples] of the Prometheus library: a type [Q] with the
    four methods that the telemetry calls. *)
Class StatsLib (Q : Type) := {
  NewQuerySamples : bool -> Q;
  InitStepTracking : Q -> int64 -> int64 -> int64 -> Q;
  QuerySamples_IncrementSamplesAtTimestamp : Q -> int64 -> int64 -> Q;
  UpdatePeak : Q -> Z -> Q
}.

(** The nodes of the logical plan that the constructors attach. *)
Inductive PlanNode := Subquery | StepInvariantExpr.

(** [query.Options], as far as the telemetry reads it; [Start] and
    [End] are given by their [UnixMilli()], [Step] in nanoseconds. *)
Record Options := {
  EnableAnalysis : bool;
  EnablePerStepStats : bool;
  Start : int64;
  End : int64;
  Step : int64
}.

Record TrackedTelemetry (Q : Type) := {
  Series : int64;
  ExecutionTime : int64;
  SeriesTime : int64;
  NextTime : int64;
  LoadedSamples : Q;
  logicalNode : option PlanNode
}.
Arguments Series {Q} _.
Arguments ExecutionTime {Q} _.
Arguments SeriesTime {Q} _.
Arguments NextTime {Q} _.
Arguments LoadedSamples {Q} _.
Arguments logicalNode {Q} _.

(** [StepTrackingInterval]; the division of Go truncates. *)
Definition StepTrackingInterval (step : int64) : int64 :=
  if step =? 0 then 1 else Z.quot step (Z.quot 1000000 1).

Section Tracked.
Context {Q : Type} `{StatsLib Q}.

Definition NewTrackedTelemetry (opts : Options) (logicalPlanNode : option PlanNode)
  : TrackedTelemetry Q :=
  let ss := NewQuerySamples (EnablePerStepStats opts) in
  let ss := InitStepTracking ss (Start opts) (End opts) (StepTrackingInterval (Step opts)) in
  {| Series := 0; ExecutionTime := 0; SeriesTime := 0; NextTime := 0;
     LoadedSamples := ss; logicalNode := logicalPlanNode |}.

Definition Tracked_AddExecutionTimeTaken (ti : TrackedTelemetry Q) (t : int64)
  : TrackedTelemetry Q :=
  {| Series := Series ti; ExecutionTime := wrapInt64 (ExecutionTime ti + t);
     SeriesTime := SeriesTime ti; NextTime := NextTime ti;
     LoadedSamples := LoadedSamples ti; logicalNode := logicalNode ti |}.

Definition Tracked_AddSeriesExecutionTime (ti : TrackedTelemetry Q) (t : int64)
  : TrackedTelemetry Q :=
  {| Series := Series ti; ExecutionTime := wrapInt64 (ExecutionTime ti + t);
     SeriesTime := wrapInt64 (SeriesTime ti + t); NextTime := NextTime ti;
     LoadedSamples := LoadedSamples ti; logicalNode := logicalNode ti |}.

Definition Tracked_AddNextExecutionTime (ti : TrackedTelemetry Q) (t : int64)
  : TrackedTelemetry Q :=
  {| Series := Series ti; ExecutionTime := wrapInt64 (ExecutionTime ti + t);
     SeriesTime := SeriesTime ti; NextTime := wrapInt64 (NextTime ti + t);
     LoadedSamples := LoadedSamples ti; logicalNode := logicalNode ti |}.

Definition Tracked_updatePeak (ti : TrackedTelemetry Q) (samples : Z) : TrackedTelemetry Q :=
  {| Series := Series ti; ExecutionTime := ExecutionTime ti;
     SeriesTime := SeriesTime ti; NextTime := NextTime ti;
     LoadedSamples := UpdatePeak (LoadedSamples ti) samples; logicalNode := logicalNode ti |}.

Definition Tracked_IncrementSamplesAtTimestamp (ti : TrackedTelemetry Q) (samples : Z) (t : int64)
  : TrackedTelemetry Q :=
  let ti := Tracked_updatePeak ti samples in
  {| Series := Series ti; ExecutionTime := ExecutionTime ti;
     SeriesTime := SeriesTime ti; NextTime := NextTime ti;
     LoadedSamples := QuerySamples_IncrementSamplesAtTimestamp (LoadedSamples ti) t samples;
     logicalNode := logicalNode ti |}.

Definition Tracked_SetMaxSeriesCount (ti : TrackedTelemetry Q) (count : int64)
  : TrackedTelemetry Q :=
  {| Series := count; ExecutionTime := ExecutionTime ti;
     SeriesTime := SeriesTime ti; NextTime := NextTime ti;
     LoadedSamples := LoadedSamples ti; logicalNode := logicalNode ti |}.

(** The two implementations of the interface [OperatorTelemetry]. *)
Inductive OperatorTelemetry :=
  | NoopTelemetry
  | Tracked (ti : TrackedTelemetry Q).

Definition NewTelemetry (opts : Options) : OperatorTelemetry :=
  if EnableAnalysis opts then Tracked (NewTrackedTelemetry opts None) else NoopTelemetry.

Definition NewSubqueryTelemetry (opts : Options) : OperatorTelemetry :=
  if EnableAnalysis opts then Tracked (NewTrackedTelemetry opts (Some Subquery))
  else NoopTelemetry.

Definition NewStepInvariantTelemetry (opts : Options) : OperatorTelemetry :=
  if EnableAnalysis opts then Tracked (NewTrackedTelemetry opts (Some StepInvariantExpr))
  else NoopTelemetry.

(** The methods of the interface that change the telemetry. *)
Definition AddExecutionTimeTaken (tm : OperatorTelemetry) (t : int64) : OperatorTelemetry :=
  match tm with
  | NoopTelemetry => NoopTelemetry
  | Tracked ti => Tracked (Tracked_AddExecutionTimeTaken ti t)
  end.

Definition AddSeriesExecutionTime (tm : OperatorTelemetry) (t : int64) : OperatorTelemetry :=
  match tm with
  | NoopTelemetry => NoopTelemetry
  | Tracked ti => Tracked (Tracked_AddSeriesExecutionTime ti t)
  end.

Definition AddNextExecutionTime (tm : OperatorTelemetry) (t : int64) : OperatorTelemetry :=
  match tm with
  | NoopTelemetry => NoopTelemetry
  | Tracked ti => Tracked (Tracked_AddNextExecutionTime ti t)
  end.

Definition IncrementSamplesAtTimestamp (tm : OperatorTelemetry) (samples : Z) (t : int64)
  : OperatorTelemetry :=
  match tm with
  | NoopTelemetry => NoopTelemetry
  | Tracked ti => Tracked (Tracked_IncrementSamplesAtTimestamp ti samples t)
  end.

Definition SetMaxSeriesCount (tm : OperatorTelemetry) (count : int64) : OperatorTelemetry :=
  match tm with
  | NoopTelemetry => NoopTelemetry
  | Tracked ti => Tracked (Tracked_SetMaxSeriesCount ti count)
  end.

(** The methods that read it. *)
Definition ExecutionTimeTaken (tm : OperatorTelemetry) : int64 :=
  match tm with
  | NoopTelemetry => 0
  | Tracked ti => ExecutionTime ti
  end.

Definition SeriesExecutionTime (tm : OperatorTelemetry) : int64 :=
  match tm with
  | NoopTelemetry => 0
  | Tracked ti => SeriesTime ti
  end.

Definition NextExecutionTime (tm : OperatorTelemetry) : int64 :=
  match tm with
  | NoopTelemetry => 0
  | Tracked ti => NextTime ti
  end.

Definition MaxSeriesCount (tm : OperatorTelemetry) : int64 :=
  match tm with
  | NoopTelemetry => 0
  | Tracked ti => Series ti
  end.

Definition Samples (tm : OperatorTelemetry) : option Q :=
  match tm with
  | NoopTelemetry => None
  | Tracked ti => Some (LoadedSamples ti)
  end.

Definition LogicalNode (tm : OperatorTelemetry) : option PlanNode :=
  match tm with
  | NoopTelemetry => None
  | Tracked ti => logicalNode ti
  end.
End Tracked.
Arguments OperatorTelemetry Q : clear implicits.

End Telemetry.
(** ** Vocabulary of the properties *)

Module ExchangeSpec.
Import Exchange.

Definition in_range (c : list uint64) (k : Z) : Prop := 0 <= k < Z.of_nat (length c).

Section Vocabulary.
Context `{LabelsLib}.

(** A recorded pair relates a series to an earlier series of the same
    label-set hash. *)
Definition collide (series : list Labels) (pr : pair) : Prop :=
  0 <= b pr < a pr /\
  exists la lb, index series (a pr) = Some la /\ index series (b pr) = Some lb /\
                Hash la = Hash lb.

(** Both series of a pair have a sample in the step at position [j]. *)
Definition both_alive_at (pr : pair) (inb : list StepVector) (j : nat) : Prop :=
  exists sv, inb !! j = Some sv /\ a pr ∈ SampleIDs sv /\ b pr ∈ SampleIDs sv.

(** The state that [init] leaves for the series table [series]. *)
Definition initialised {S : Type} (series : list Labels) (d : duplicateLabelCheckOperator S)
  : Prop :=
  p d = init_loop series 0 ∅ [] /\ length (c d) = length series.
End Vocabulary.

End ExchangeSpec.

Module BinarySpec.
Import Binary.

Definition isLogical (op : ItemType) : bool :=
  match op with
  | LAND | LOR | LUNLESS => true
  | _ => false
  end.

Definition isArithmeticOrComparison (op : ItemType) : bool :=
  match op with
  | ADD | SUB | MUL | DIV | POW | MOD | EQLC | NEQ | GTR | LSS | GTE | LTE | ATAN2 => true
  | _ => false
  end.

(** A step vector without its histograms. *)
Definition dropHistograms (sv : StepVector) : StepVector :=
  {| T := T sv; SampleIDs := SampleIDs sv; Samples := Samples sv;
     HistogramIDs := []; Histograms := [] |}.

(** The two parallel arrays of a step vector have equal lengths. *)
Definition parallel (sv : StepVector) : Prop :=
  length (Samples sv) = length (SampleIDs sv) /\
  length (Histograms sv) = length (HistogramIDs sv).

Section Vocabulary.
Context {L R : Type}.

(** The series of the low- and of the high-cardinality side, and the
    side of the expression that is the low-cardinality one. *)
Definition lowCardSide (o : vectorOperator L R) : list Labels :=
  match Card (matching o) with
  | CardOneToMany => lhsSampleIDs o
  | _ => rhsSampleIDs o
  end.

Definition highCardSide (o : vectorOperator L R) : list Labels :=
  match Card (matching o) with
  | CardOneToMany => rhsSampleIDs o
  | _ => lhsSampleIDs o
  end.

Definition lowSide (o : vectorOperator L R) : BinOpSide :=
  match Card (matching o) with
  | CardOneToMany => lhBinOpSide
  | _ => rhBinOpSide
  end.

(** Every pointer of the two tables points into [buckets]. *)
Definition pointersValid (o : vectorOperator L R) : Prop :=
  Forall (fun ptr => (ptr < length (buckets o))%nat) (lcJoinBuckets o) /\
  Forall (fun ptr => (ptr < length (buckets o))%nat) (hcJoinBuckets o).

(** The IDs of a step are indices of a table of [n] entries. *)
Definition idsBelow (ids : list uint64) (n : nat) : Prop :=
  Forall (fun id => 0 <= id < Z.of_nat n) ids.
End Vocabulary.

Section InitSide.
Context `{LabelsLib}.

(** What the loop of [initSide] keeps, [pre] being the series done. *)
Definition sideInv (sigF : Labels -> uint64) (byHash0 : gmap Z nat) (pre : list Labels)
    (t : joinTables) : Prop :=
  (forall s1 s2 ptr, joinBucketsByHash t !! s1 = Some ptr ->
                     joinBucketsByHash t !! s2 = Some ptr -> s1 = s2) /\
  (forall sg ptr, joinBucketsByHash t !! sg = Some ptr -> (ptr < length (heap t))%nat) /\
  (forall sg ptr, byHash0 !! sg = Some ptr -> joinBucketsByHash t !! sg = Some ptr) /\
  Forall2 (fun l ptr => joinBucketsByHash t !! sigF l = Some ptr) pre (sideJoinBuckets t) /\
  Forall (fun jp => jp = newJoinBucket) (heap t).

End InitSide.

Section Frame.
Context {L R : Type}.

(** What no step changes: everything but the contents of the buckets
    and the warnings. *)
Definition sameTables (o s : vectorOperator L R) : Prop :=
  lcJoinBuckets s = lcJoinBuckets o /\ hcJoinBuckets s = hcJoinBuckets o /\
  outputMap s = outputMap o /\ matching s = matching o /\ opType s = opType o /\
  returnBool s = returnBool o /\ lhsSampleIDs s = lhsSampleIDs o /\
  rhsSampleIDs s = rhsSampleIDs o /\ length (buckets s) = length (buckets o).

Definition noHistograms (sv : StepVector) : Prop :=
  HistogramIDs sv = [] /\ Histograms sv = [].

(** A round of a loop that leaves a step without histograms so. *)
Definition keeps (m : StepVector -> M (vectorOperator L R) StepVector) : Prop :=
  forall step s step' s',
    noHistograms step -> m step s = (Ok step', s') -> noHistograms step'.
End Frame.

Section Pairs.
Context {L R : Type} `{VectorOperator L} `{VectorOperator R}.
Context `{LabelsLib} `{HistogramLib} `{MathLib}.

(** The two loops of [execBinaryArithmetic] over the low-cardinality
    side are one loop, up to the fields that a round writes: [upd i id jp]
    is the bucket after the round at index [i] for the entry [id], or
    [None] where the round panics. *)
Definition populate (ts : int64) (upd : Z -> uint64 -> joinBucket -> option joinBucket)
    (i0 : Z) (ids : list uint64) : M (vectorOperator L R) unit :=
  forRange
    (fun i id (_ : unit) =>
       run (ptr, jp) <- lcJoinBucket id;
       if ats jp =? ts then
         run e <- newManyToManyMatchErrorOnLowCardSide (sid jp) id;
         fail e
       else
         run jp1 <- orPanic (upd i id jp);
         storeBucket ptr jp1)
    i0 ids tt.

Definition updSample (ts : int64) (lcs : StepVector) (i : Z) (id : uint64) (jp : joinBucket)
  : option joinBucket :=
  match index (Samples lcs) i with
  | Some s => Some (setAts ts (setVal s (setSid id jp)))
  | None => None
  end.

Definition updHistogram (ts : int64) (lcs : StepVector) (i : Z) (id : uint64) (jp : joinBucket)
  : option joinBucket :=
  match index (Histograms lcs) i with
  | Some h => Some (setAts ts (setHval h (setHid id jp)))
  | None => None
  end.

(** The bucket of a pointer carries the timestamp [ts] in [ats]. *)
Definition hot (ts : int64) (s : vectorOperator L R) (ptr : nat) : Prop :=
  exists jp, buckets s !! ptr = Some jp /\ ats jp = ts.

(** No bucket carries the timestamp [ts] yet. *)
Definition fresh (ts : int64) (s : vectorOperator L R) : Prop :=
  forall ptr jp, buckets s !! ptr = Some jp -> ats jp <> ts /\ bts jp <> ts.

(** The [sid] of every bucket is an index of the low-cardinality series. *)
Definition sidsBelow (s : vectorOperator L R) (n : nat) : Prop :=
  forall ptr jp, buckets s !! ptr = Some jp -> 0 <= sid jp < Z.of_nat n.

(** Two states whose buckets differ in [bts] at most. *)
Definition sameButBts (s s' : vectorOperator L R) : Prop :=
  sameTables s s' /\
  forall ptr,
    match buckets s !! ptr, buckets s' !! ptr with
    | Some jp, Some jp' =>
        ats jp' = ats jp /\ sid jp' = sid jp /\ hid jp' = hid jp /\
        val jp' = val jp /\ hval jp' = hval jp
    | None, None => True
    | _, _ => False
    end.

(** What the last loop of [execBinaryArithmetic] emits for the
    high-cardinality histogram [hh] of series [hID], read off the
    buckets of state [s]: nothing when its bucket does not carry [ts]. *)
Definition joinedHistogram (o s : vectorOperator L R) (ts : int64)
    (e : uint64 * option FloatHistogram) : option (uint64 * option FloatHistogram) :=
  match index (hcJoinBuckets o) e.1 with
  | None => None
  | Some ptr =>
      match buckets s !! ptr with
      | None => None
      | Some jp =>
          if ats jp =? ts then
            match computeBinaryPairing o f64_zero f64_zero e.2 (hval jp) with
            | Some (_, h, _, _) =>
                Some (outputSeriesID o (wrap64 (e.1 + 1)) (wrap64 (sid jp + 1)), h)
            | None => None
            end
          else None
      end
  end.

(** The tables of [o] are the ones of a join: the series of both sides
    point to the bucket of their signature, one bucket per signature. *)
Definition joined (o : vectorOperator L R) : Prop :=
  exists byHash : gmap Z nat,
    (forall s1 s2 ptr, byHash !! s1 = Some ptr -> byHash !! s2 = Some ptr -> s1 = s2) /\
    (forall sg ptr, byHash !! sg = Some ptr -> (ptr < length (buckets o))%nat) /\
    Forall2 (fun l ptr => byHash !! sigFunc o l = Some ptr) (lowCardSide o) (lcJoinBuckets o) /\
    Forall2 (fun l ptr => byHash !! sigFunc o l = Some ptr) (highCardSide o) (hcJoinBuckets o).

(** Evaluating a list of paired steps in order: the steps produced, or
    the first failure. *)
Fixpoint execPairs (ctx : Context) (prs : list (StepVector * StepVector))
  : M (vectorOperator L R) (list StepVector) :=
  match prs with
  | [] => ret []
  | (l, r) :: rest =>
      run step <- execBinaryOperation ctx l r;
      run more <- execPairs ctx rest;
      ret (step :: more)
  end.
End Pairs.

End BinarySpec.


(** ** Vocabulary of the further properties *)

Module JoinSpec.
Import Binary.

Section Vocabulary.
Context `{LabelsLib}.

(** What [joinHelper.append] keeps: [n] counts the label sets, [seen]
    maps the hash of each of them to its index, and no two of them have
    the same hash. *)
Definition helperInv (h : joinHelper) : Prop :=
  n h = Z.of_nat (length (ls h)) /\
  (forall hash k, seen h !! hash = Some k ->
     exists l, index (ls h) k = Some l /\ Hash l = hash) /\
  (forall l, l ∈ ls h -> is_Some (seen h !! Hash l)) /\
  NoDup (map Hash (ls h)).

(** The output series under construction and the IDs stored for them:
    every stored ID is the index of an output series. *)
Definition outputsInv (out : outputs) : Prop :=
  helperInv (fst out) /\
  forall key id, snd out !! key = Some id -> 0 <= id < n (fst out).

(** The same for the loop that can run out of the low-cardinality
    series. *)
Definition someInv (b : option outputs) : Prop :=
  match b with
  | Some out => outputsInv out
  | None => True
  end.
End Vocabulary.

End JoinSpec.

Module TelemetrySpec.
Import Telemetry.

(** The calls that change a telemetry. *)
Inductive call :=
  | CallAddExecutionTimeTaken (t : int64)
  | CallAddSeriesExecutionTime (t : int64)
  | CallAddNextExecutionTime (t : int64)
  | CallIncrementSamplesAtTimestamp (samples : Z) (t : int64)
  | CallSetMaxSeriesCount (count : int64).

Section Calls.
Context {Q : Type} `{StatsLib Q}.

Definition apply_call (tm : OperatorTelemetry Q) (c : call) : OperatorTelemetry Q :=
  match c with
  | CallAddExecutionTimeTaken t => AddExecutionTimeTaken tm t
  | CallAddSeriesExecutionTime t => AddSeriesExecutionTime tm t
  | CallAddNextExecutionTime t => AddNextExecutionTime tm t
  | CallIncrementSamplesAtTimestamp samples t => IncrementSamplesAtTimestamp tm samples t
  | CallSetMaxSeriesCount count => SetMaxSeriesCount tm count
  end.

Definition apply_calls (tm : OperatorTelemetry Q) (cs : list call) : OperatorTelemetry Q :=
  fold_left apply_call cs tm.
End Calls.

(** The time that a list of calls reports for the series, for the
    batches, and for neither. *)
Definition seriesTimeOf (c : call) : Z :=
  match c with CallAddSeriesExecutionTime t => t | _ => 0 end.
Definition nextTimeOf (c : call) : Z :=
  match c with CallAddNextExecutionTime t => t | _ => 0 end.
Definition otherTimeOf (c : call) : Z :=
  match c with CallAddExecutionTimeTaken t => t | _ => 0 end.

Definition sumOf (f : call -> Z) (cs : list call) : Z :=
  fold_right (fun c acc => f c + acc) 0 cs.

End TelemetrySpec.

Module StepSpec.
Import Binary BinarySpec.

Section Vocabulary.
Context {L R : Type}.

(** What a step leaves of the operator [o]: everything but the contents
    of the buckets, and the warnings it had, to which it may add. *)
Definition framed (o s : vectorOperator L R) : Prop :=
  sameTables o s /\ lhs s = lhs o /\ rhs s = rhs o /\ series s = series o /\
  once s = once o /\ prefix (warnings o) (warnings s).

(** A computation that ends, however it ends, in a state of [F] when it
    starts in one. *)
Definition frames {A : Type} (F : vectorOperator L R -> Prop)
    (m : M (vectorOperator L R) A) : Prop :=
  forall s r s', F s -> m s = (r, s') -> F s'.

(** [step'] is [step] with at most one entry appended. *)
Definition grows (step step' : StepVector) : Prop :=
  step' = step \/
  (exists id v, step' = AppendSample step id v) \/
  (exists id h, step' = AppendHistogram step id h).

(** A round of a loop that appends at most one entry to the step under
    construction. *)
Definition appends (m : StepVector -> M (vectorOperator L R) StepVector) : Prop :=
  forall step s step' s', m step s = (Ok step', s') -> grows step step'.

(** The number of entries of a step. *)
Definition entries (sv : StepVector) : nat :=
  (length (SampleIDs sv) + length (HistogramIDs sv))%nat.
End Vocabulary.

(** The values of [vals] at the positions that [keep] marks. *)
Fixpoint select {A : Type} (keep : list bool) (vals : list A) : list A :=
  match keep, vals with
  | b :: ks, v :: vs => if b then v :: select ks vs else select ks vs
  | _, _ => []
  end.

(** Series [id] of one side is matched at [ts]: its bucket (found in the
    pointer table [own] of its side) is the bucket of one of the series
    [otherIds] of the other side (pointer table [other]), or carries the
    timestamp [ts] already. *)
Definition matched (own other : list nat) (bs : list joinBucket) (ts : int64)
    (otherIds : list uint64) (id : uint64) : bool :=
  match index own id with
  | None => false
  | Some ptr =>
      match bs !! ptr with
      | None => false
      | Some jp => bool_decide (ptr ∈ omap (index other) otherIds) || (ats jp =? ts)
      end
  end.

End StepSpec.

Module ScalarSpec.

(** What a step [w] of the vector-scalar operator is to the step [v] of
    its vector operand: the same timestamp, a selection of its float
    samples and of its histograms in their order, one value per ID and
    no nil histogram; with [returnBool] every float sample is kept, and
    unless both sides are scalars its value is 1 or 0. *)
Definition filtered (returnBool bothScalars : bool) (v w : StepVector) : Prop :=
  T w = T v /\
  sublist (SampleIDs w) (SampleIDs v) /\
  sublist (HistogramIDs w) (HistogramIDs v) /\
  length (Samples w) = length (SampleIDs w) /\
  length (Histograms w) = length (HistogramIDs w) /\
  Forall (fun h => h <> None) (Histograms w) /\
  (returnBool = true ->
   SampleIDs w = take (length (Samples v)) (SampleIDs v) /\
   (bothScalars = false -> Forall (fun x => x = f64_one \/ x = f64_zero) (Samples w))).

End ScalarSpec.
(** ** Concrete collaborators, for running the model *)

Module Examples.

(** A leaf operator that replays a fixed series table and a fixed list
    of batches, one batch per call of [Next]; like every operator it
    gives up when its context is cancelled. *)
Record source := { src_series : list Labels; src_batches : list batch }.

Definition source_Series (ctx : Context) (s : source) : result (list Labels) * source :=
  match ctxErr ctx with
  | Some e => (Error e, s)
  | None => (Ok (src_series s), s)
  end.

Definition source_Next (ctx : Context) (s : source) : result batch * source :=
  match ctxErr ctx with
  | Some e => (Error e, s)
  | None =>
      match src_batches s with
      | [] => (Ok None, s)
      | b :: rest => (Ok b, {| src_series := src_series s; src_batches := rest |})
      end
  end.

#[global] Instance source_VectorOperator : VectorOperator source :=
  {| Series := source_Series; Next := source_Next |}.

Definition background : Context := {| ctxErr := None |}.
Definition cancelled : Context := {| ctxErr := Some Canceled |}.

Definition f64_two : float64 := S754_finite false 4503599627370496 (-51).
Definition f64_three : float64 := S754_finite false 6755399441055744 (-51).

(** A step with the float samples [ids]/[vals] and no histogram. *)
Definition floatStep (ts : int64) (ids : list uint64) (vals : list float64) : StepVector :=
  {| T := ts; SampleIDs := ids; Samples := vals; HistogramIDs := []; Histograms := [] |}.

(** [scalar(...)] over a child that delivers one batch of three steps:
    one sample, no sample, two samples and a histogram. *)
Definition emptyHistogram : FloatHistogram :=
  {| Schema := 0; ZeroThreshold := f64_zero; ZeroCount := f64_zero;
     Count := f64_zero; Sum := f64_zero;
     PositiveSpans := []; NegativeSpans := [];
     PositiveBuckets := []; NegativeBuckets := [] |}.

Definition threeSteps : list StepVector :=
  [ floatStep 0 [4] [f64_two];
    floatStep 1000 [] [];
    {| T := 2000; SampleIDs := [1; 2]; Samples := [f64_two; f64_three];
       HistogramIDs := [3]; Histograms := [Some emptyHistogram] |} ].

Definition threeStepSource : source :=
  {| src_series := replicate 5 EmptyLabels; src_batches := [Some threeSteps] |}.

Definition ex_scalar : Function.scalarOperator source :=
  {| Function.scalar_next := threeStepSource |}.

(** [absent(nonexistent{job="x"})] over the same child. *)
Definition ex_absent : Function.absentOperator source :=
  Function.newAbsentOperator
    {| Function.Args :=
         [Function.NodeVectorSelector
            {| Function.LabelMatchers :=
                 [ {| Function.mType := Function.MatchEqual;
                      Function.mName := MetricName; Function.mValue := "nonexistent" |};
                   {| Function.mType := Function.MatchEqual;
                      Function.mName := "job"; Function.mValue := "x" |} ];
               Function.Filters := [] |}] |}
    threeStepSource.

(** A small instance of the label library: the canonical bytes of a label
    set are its name/value pairs, each terminated by a 255 byte, and the
    hash is FNV-1a on 64 bits. *)
Definition labelBytes (name v : string) : list Byte.byte :=
  String.list_byte_of_string name ++ [Byte.xff] ++ String.list_byte_of_string v ++ [Byte.xff].

Definition fnv1a (bs : list Byte.byte) : uint64 :=
  fold_left (fun h b => wrap64 (Z.lxor h (Z.of_N (Byte.to_N b)) * 1099511628211))
            bs 14695981039346656037.

Definition bytesWithLabels (l : Labels) (names : list string) : list Byte.byte :=
  concat (map (fun kv => if bool_decide (kv.1 ∈ names) then labelBytes kv.1 kv.2 else [])
              (map_to_list l)).

Definition bytesWithoutLabels (l : Labels) (names : list string) : list Byte.byte :=
  concat (map (fun kv => if bool_decide (kv.1 ∈ names) then [] else labelBytes kv.1 kv.2)
              (map_to_list l)).

Definition string_le (x y : string) : Prop := String.leb x y = true.

#[global] Instance string_le_dec (x y : string) : Decision (string_le x y).
Proof. unfold string_le. apply _. Defined.

#[global] Instance exampleLabelsLib : LabelsLib :=
  {| Hash := fun l => fnv1a (bytesWithoutLabels l []);
     BytesWithLabels := bytesWithLabels;
     BytesWithoutLabels := bytesWithoutLabels;
     Sum64 := fnv1a;
     sortStrings := merge_sort string_le |}.

(** Three series of which the first and the last have the same label
    set. *)
Definition dupSeries : list Labels :=
  [ {[ "a" := "1" ]}; {[ "a" := "2" ]}; {[ "a" := "1" ]} ].

(** Series 0 and 2 alternate. *)
Definition alternating : list StepVector :=
  [ floatStep 0 [0; 1] [f64_two; f64_two];
    floatStep 1000 [2; 1] [f64_three; f64_two] ].

(** Series 0 and 2 meet only in the 64th step of the batch. *)
Definition lateBatch : list StepVector :=
  map (fun i => floatStep (1000 * Z.of_nat i) [1] [f64_two]) (seq 0 63)
  ++ [ floatStep 63000 [0; 2] [f64_two; f64_three] ].

Definition dupCheckOver (b : list StepVector) : Exchange.duplicateLabelCheckOperator source :=
  Exchange.NewDuplicateLabelCheck {| src_series := dupSeries; src_batches := [Some b] |}.


(** A model of the methods of [histogram.FloatHistogram] for running the
    operators on concrete histograms.  A side of a histogram denotes the
    list of its buckets with their absolute indices; [Compact(0)] removes
    the empty buckets and rebuilds the spans; [Equals] compares the
    fields as they are stored, spans of length zero being merged into
    the following span.  [Add] and [Sub] are given for histograms of one
    schema and zero threshold and report an error otherwise. *)
Fixpoint expandSpans (spans : list Span) (buckets : list float64) (idx : Z)
  : list (Z * float64) :=
  match spans with
  | [] => []
  | sp :: rest =>
      let start := idx + Offset sp in
      let len := Z.to_nat (Length sp) in
      zip (map (fun k => start + Z.of_nat k) (seq 0 len)) (take len buckets)
      ++ expandSpans rest (drop len buckets) (start + Length sp)
  end.

(** The spans of a list of buckets in increasing order of index; [next]
    is the index that would continue the last span. *)
Fixpoint spansOf (es : list (Z * float64)) (next : Z) (open : option Span) : list Span :=
  match es with
  | [] => match open with Some sp => [sp] | None => [] end
  | (i, _) :: rest =>
      match open with
      | None => spansOf rest (i + 1) (Some {| Offset := i - next; Length := 1 |})
      | Some sp =>
          if i =? next
          then spansOf rest (i + 1) (Some {| Offset := Offset sp; Length := Length sp + 1 |})
          else sp :: spansOf rest (i + 1) (Some {| Offset := i - next; Length := 1 |})
      end
  end.

Definition isEmptyBucket (v : float64) : bool := f64_eqb v f64_zero.

Definition compactSide (spans : list Span) (buckets : list float64)
  : list Span * list float64 :=
  let es := filter (fun e => negb (isEmptyBucket e.2)) (expandSpans spans buckets 0) in
  (spansOf es 0 None, map snd es).

Definition hCompact (h : FloatHistogram) (maxEmptyBuckets : Z) : FloatHistogram :=
  if maxEmptyBuckets =? 0 then
    let '(ps, pb) := compactSide (PositiveSpans h) (PositiveBuckets h) in
    let '(ns, nb) := compactSide (NegativeSpans h) (NegativeBuckets h) in
    {| Schema := Schema h; ZeroThreshold := ZeroThreshold h; ZeroCount := ZeroCount h;
       Count := Count h; Sum := Sum h;
       PositiveSpans := ps; NegativeSpans := ns;
       PositiveBuckets := pb; NegativeBuckets := nb |}
  else h.

Fixpoint normSpans (spans : list Span) (carry : Z) : list (Z * Z) :=
  match spans with
  | [] => []
  | sp :: rest =>
      if Length sp =? 0 then normSpans rest (carry + Offset sp)
      else (carry + Offset sp, Length sp) :: normSpans rest 0
  end.

Definition spansMatch (s1 s2 : list Span) : bool :=
  bool_decide (normSpans s1 0 = normSpans s2 0).

Fixpoint floatBucketsMatch (b1 b2 : list float64) : bool :=
  match b1, b2 with
  | [], [] => true
  | x :: r1, y :: r2 => f64_same_bits x y && floatBucketsMatch r1 r2
  | _, _ => false
  end.

Definition hEquals (h h2 : FloatHistogram) : bool :=
  (Schema h =? Schema h2)
  && f64_same_bits (Count h) (Count h2)
  && f64_same_bits (Sum h) (Sum h2)
  && f64_eqb (ZeroThreshold h) (ZeroThreshold h2)
  && f64_same_bits (ZeroCount h) (ZeroCount h2)
  && spansMatch (NegativeSpans h) (NegativeSpans h2)
  && spansMatch (PositiveSpans h) (PositiveSpans h2)
  && floatBucketsMatch (NegativeBuckets h) (NegativeBuckets h2)
  && floatBucketsMatch (PositiveBuckets h) (PositiveBuckets h2).

Definition hScale (f : float64 -> float64) (h : FloatHistogram) : FloatHistogram :=
  {| Schema := Schema h; ZeroThreshold := ZeroThreshold h; ZeroCount := f (ZeroCount h);
     Count := f (Count h); Sum := f (Sum h);
     PositiveSpans := PositiveSpans h; NegativeSpans := NegativeSpans h;
     PositiveBuckets := map f (PositiveBuckets h);
     NegativeBuckets := map f (NegativeBuckets h) |}.

(** Bucket-wise combination of two sides given by their indexed buckets,
    both in increasing order of index. *)
Fixpoint mergeBuckets (f : float64 -> float64 -> float64) (fuel : nat)
    (e1 e2 : list (Z * float64)) : list (Z * float64) :=
  match fuel with
  | O => []
  | Datatypes.S fuel =>
      match e1, e2 with
      | [], _ => map (fun e => (e.1, f f64_zero e.2)) e2
      | _, [] => e1
      | (i, x) :: r1, (j, y) :: r2 =>
          if i <? j then (i, x) :: mergeBuckets f fuel r1 e2
          else if j <? i then (j, f f64_zero y) :: mergeBuckets f fuel e1 r2
          else (i, f x y) :: mergeBuckets f fuel r1 r2
      end
  end.

Definition combineSide (f : float64 -> float64 -> float64)
    (s1 : list Span) (b1 : list float64) (s2 : list Span) (b2 : list float64)
  : list Span * list float64 :=
  let e1 := expandSpans s1 b1 0 in
  let e2 := expandSpans s2 b2 0 in
  let es := mergeBuckets f (length e1 + length e2) e1 e2 in
  (spansOf es 0 None, map snd es).

Definition hCombine (f : float64 -> float64 -> float64) (h other : FloatHistogram)
  : FloatHistogram + error :=
  if (Schema h =? Schema other) && f64_eqb (ZeroThreshold h) (ZeroThreshold other) then
    let '(ps, pb) := combineSide f (PositiveSpans h) (PositiveBuckets h)
                       (PositiveSpans other) (PositiveBuckets other) in
    let '(ns, nb) := combineSide f (NegativeSpans h) (NegativeBuckets h)
                       (NegativeSpans other) (NegativeBuckets other) in
    inl {| Schema := Schema h; ZeroThreshold := ZeroThreshold h;
           ZeroCount := f (ZeroCount h) (ZeroCount other);
           Count := f (Count h) (Count other); Sum := f (Sum h) (Sum other);
           PositiveSpans := ps; NegativeSpans := ns;
           PositiveBuckets := pb; NegativeBuckets := nb |}
  else inr (HistogramError "histograms of different layouts").

#[global] Instance exampleHistogramLib : HistogramLib :=
  {| Copy := fun h => h;
     Mul := fun h f => hScale (fun x => f64_mul x f) h;
     Div := fun h f => hScale (fun x => f64_div x f) h;
     Add := hCombine f64_add;
     Sub := hCombine f64_sub;
     Compact := hCompact;
     Equals := hEquals |}.

(** [math.Floor] on binary64. *)
Definition f64_floor (x : float64) : float64 :=
  match x with
  | S754_finite s m e =>
      if 0 <=? e then x
      else
        let q := Z.shiftr (Zpos m) (- e) in
        let exact := Zpos m =? Z.shiftl q (- e) in
        if s then binary_normalize prec emax (if exact then - q else - (q + 1)) 0 true
        else binary_normalize prec emax q 0 false
  | _ => x
  end.

(** The examples evaluate none of [Pow], [Mod] and [Atan2]; this
    instance gives them the value NaN. *)
#[global] Instance exampleMathLib : MathLib :=
  {| Pow := fun _ _ => NaN;
     Mod := fun _ _ => NaN;
     Atan2 := fun _ _ => NaN;
     Floor := f64_floor |}.

(** [a + on(x) b] over two series [a] and two series [b]; the two series
    [b] have the same value of [x]. *)
Definition aSeries : list Labels :=
  [ {[ MetricName := "a"; "x" := "1" ]}; {[ MetricName := "a"; "x" := "2" ]} ].

Definition bSeries : list Labels :=
  [ {[ MetricName := "b"; "x" := "1" ]}; {[ MetricName := "b"; "x" := "1"; "y" := "Y" ]} ].

Definition onX (card : VectorMatchCardinality) : VectorMatching :=
  {| Card := card; MatchingLabels := ["x"]; On := true; Include := [] |}.

Definition vectorBetween (lhsSeries rhsSeries : list Labels) (matching : VectorMatching)
    (op : Binary.ItemType) (lhsB rhsB : list StepVector) : Binary.vectorOperator source source :=
  Binary.NewVectorOperator
    {| src_series := lhsSeries; src_batches := [Some lhsB] |}
    {| src_series := rhsSeries; src_batches := [Some rhsB] |}
    matching op false.

Definition vectorOver : VectorMatching -> Binary.ItemType ->
    list StepVector -> list StepVector -> Binary.vectorOperator source source :=
  vectorBetween aSeries bSeries.

(** Two histograms of one layout and different sums. *)
Definition histogramOf (sum : float64) : FloatHistogram :=
  {| Schema := 0; ZeroThreshold := f64_zero; ZeroCount := f64_zero;
     Count := f64_one; Sum := sum;
     PositiveSpans := [ {| Offset := 0; Length := 1 |} ]; NegativeSpans := [];
     PositiveBuckets := [f64_one]; NegativeBuckets := [] |}.

(** A histogram with an empty bucket at the end of its span, and the
    same histogram compacted. *)
Definition paddedHistogram : FloatHistogram :=
  {| Schema := 0; ZeroThreshold := f64_zero; ZeroCount := f64_zero;
     Count := f64_one; Sum := f64_two;
     PositiveSpans := [ {| Offset := 0; Length := 2 |} ]; NegativeSpans := [];
     PositiveBuckets := [f64_one; f64_zero]; NegativeBuckets := [] |}.

Definition compactHistogram : FloatHistogram := histogramOf f64_two.

(** 2.5 on binary64. *)
Definition f64_two_and_a_half : float64 := S754_finite false 5629499534213120 (-51).

End Examples.

(** ** A vector-scalar operator, for running the model *)

Module ScalarExamples.
Import Examples.

(** The scalar operand: the value 2 at each of the three steps. *)
Definition twoAtEachStep : source :=
  {| src_series := [EmptyLabels];
     src_batches := [Some [floatStep 0 [0] [f64_two]; floatStep 1000 [0] [f64_two];
                           floatStep 2000 [0] [f64_two]]] |}.

(** [vector > 2], or [vector > bool 2], with the scalar on the right
    side: the comparison keeps the value of the vector, and gives no
    histogram. *)
Definition greaterThanTwo (returnBool : bool) : Binary.scalarOperator source source :=
  {| Binary.seriesOnce := false;
     Binary.sseries := [];
     Binary.scalar := twoAtEachStep;
     Binary.snext := {| src_series := aSeries; src_batches := [Some threeSteps] |};
     Binary.sopType := Binary.GTR;
     Binary.getOperands := Binary.getOperandsScalarRight;
     Binary.operandValIdx := 0;
     Binary.floatOp := fun ops idx =>
       (if idx =? 0 then fst ops else snd ops, f64_ltb (snd ops) (fst ops));
     Binary.histOp := fun _ _ => None;
     Binary.sreturnBool := returnBool;
     Binary.bothScalars := false |}.

End ScalarExamples.
Import Examples ExchangeSpec BinarySpec.

(** * Properties *)

(** ** The scalar and absent operators *)

Section FunctionOperators.
Import Function.
Context {S : Type} `{VectorOperator S}.

Lemma scalarOperator_step_spec (v : StepVector) :
  T (scalarOperator_step v) = T v /\
  SampleIDs (scalarOperator_step v) = [0] /\
  (forall s, Samples v = [s] -> Samples (scalarOperator_step v) = [s]) /\
  (length (Samples v) <> 1%nat -> Samples (scalarOperator_step v) = [NaN]) /\
  HistogramIDs (scalarOperator_step v) = [] /\
  Histograms (scalarOperator_step v) = [].
Proof.
  unfold scalarOperator_step.
  destruct (Samples v) as [|s [|s' r]]; cbn; repeat split; intros; congruence.
Qed.

Lemma absentOperator_step_spec (v : StepVector) :
  T (absentOperator_step v) = T v /\
  HistogramIDs (absentOperator_step v) = [] /\
  Histograms (absentOperator_step v) = [] /\
  ((SampleIDs (absentOperator_step v) = [0] /\ Samples (absentOperator_step v) = [f64_one]) <->
     (Samples v = [] /\ Histograms v = [])) /\
  (~ (Samples v = [] /\ Histograms v = []) ->
     SampleIDs (absentOperator_step v) = [] /\ Samples (absentOperator_step v) = []).
Proof.
  unfold absentOperator_step.
  destruct (Samples v) as [|s r], (Histograms v) as [|h r']; cbn;
    repeat split; intros; try tauto; intuition discriminate.
Qed.

(** C5. The scalar operator has no series, and from a batch of its
    input it makes a batch with one step per input step, of the same
    timestamp, holding the one sample with ID 0 whose value is the
    input step's sample when that step has exactly one, and NaN
    otherwise; no histogram reaches the output. *)
Theorem scalar_operator_projects (ctx : Context) (o : scalarOperator S)
    (inb : batch) (n : S) :
  ctxErr ctx = None ->
  Next ctx (scalar_next o) = (Ok inb, n) ->
  fst (scalarOperator_Series ctx o) = Ok [] /\
  exists out,
    fst (scalarOperator_Next ctx o) = Ok out /\
    length (steps out) = length (steps inb) /\
    forall (i : nat) (v : StepVector), steps inb !! i = Some v ->
      exists w, steps out !! i = Some w /\
        T w = T v /\
        SampleIDs w = [0] /\
        (forall s, Samples v = [s] -> Samples w = [s]) /\
        (length (Samples v) <> 1%nat -> Samples w = [NaN]) /\
        HistogramIDs w = [] /\ Histograms w = [].
Proof.
  intros Hctx Hnext. split; [reflexivity|].
  unfold scalarOperator_Next. rewrite Hctx, Hnext.
  destruct (Nat.eqb (length (steps inb)) 0) eqn:Hlen.
  - apply Nat.eqb_eq in Hlen. exists None. cbn. repeat split; [congruence|].
    intros i v Hv. apply lookup_lt_Some in Hv. lia.
  - eexists. split; [reflexivity|]. cbn. split; [apply length_map|].
    intros i v Hv. exists (scalarOperator_step v). split.
    + rewrite list_lookup_fmap, Hv. reflexivity.
    + apply scalarOperator_step_spec.
Qed.

(** C6. From a batch of its input the absent operator makes a batch
    with one step per input step, which holds the single sample
    (ID 0, value 1) exactly when the input step has neither samples
    nor histograms, and holds nothing otherwise. *)
Theorem absent_operator_emits_iff_empty (ctx : Context) (o : absentOperator S)
    (vectors : batch) (n : S) :
  ctxErr ctx = None ->
  (absent_once o = true \/ Args (absent_funcExpr o) <> []) ->
  Next ctx (absent_next o) = (Ok vectors, n) ->
  exists out,
    fst (absentOperator_Next ctx o) = Ok out /\
    length (steps out) = length (steps vectors) /\
    forall (i : nat) (v : StepVector), steps vectors !! i = Some v ->
      exists w, steps out !! i = Some w /\
        T w = T v /\
        HistogramIDs w = [] /\ Histograms w = [] /\
        ((SampleIDs w = [0] /\ Samples w = [f64_one]) <->
           (Samples v = [] /\ Histograms v = [])) /\
        (~ (Samples v = [] /\ Histograms v = []) -> SampleIDs w = [] /\ Samples w = []).
Proof.
  intros Hctx Hload Hnext.
  unfold absentOperator_Next. rewrite Hctx.
  assert (exists o1, absentOperator_loadSeries o = Some o1 /\ absent_next o1 = absent_next o)
    as (o1 & Ho1 & Hn1).
  { unfold absentOperator_loadSeries. destruct (absent_once o) eqn:Honce.
    - eauto.
    - destruct Hload as [|Hargs]; [discriminate|].
      destruct (Args (absent_funcExpr o)) as [|arg rest]; [contradiction|].
      cbn. eauto. }
  rewrite Ho1, Hn1, Hnext.
  destruct (Nat.eqb (length (steps vectors)) 0) eqn:Hlen.
  - apply Nat.eqb_eq in Hlen. exists None. cbn. repeat split; [congruence|].
    intros i v Hv. apply lookup_lt_Some in Hv. lia.
  - eexists. split; [reflexivity|]. cbn. split; [apply length_map|].
    intros i v Hv. exists (absentOperator_step v). split.
    + rewrite list_lookup_fmap, Hv. reflexivity.
    + apply absentOperator_step_spec.
Qed.
End FunctionOperators.

Lemma scalar_operator_projects_witness :
  ctxErr background = None /\
  exists out,
    fst (Function.scalarOperator_Next background ex_scalar) = Ok out /\
    length (steps out) = 3%nat.
Proof.
  split; [reflexivity|].
  assert (Hnext : Next background (Function.scalar_next ex_scalar)
                  = (Ok (Some threeSteps),
                     {| src_series := replicate 5 EmptyLabels;
                        src_batches := [] |})) by reflexivity.
  destruct (scalar_operator_projects background ex_scalar _ _
              eq_refl Hnext) as (_ & out & Hout & Hlen & _).
  exists out. split; [exact Hout | exact Hlen].
Defined.

Lemma absent_operator_emits_iff_empty_witness :
  ctxErr background = None /\
  exists out,
    fst (Function.absentOperator_Next background ex_absent) = Ok out /\
    length (steps out) = 3%nat.
Proof.
  split; [reflexivity|].
  assert (Hnext : Next background (Function.absent_next ex_absent)
                  = (Ok (Some threeSteps),
                     {| src_series := replicate 5 EmptyLabels;
                        src_batches := [] |})) by reflexivity.
  assert (Hargs : Function.absent_once ex_absent = true \/
                  Function.Args (Function.absent_funcExpr ex_absent) <> [])
    by (right; discriminate).
  destruct (absent_operator_emits_iff_empty background ex_absent _ _
              eq_refl Hargs Hnext) as (out & Hout & Hlen & _).
  exists out. split; [exact Hout | exact Hlen].
Defined.

Example absent_example :
  fst (Function.absentOperator_Next background ex_absent)
  = Ok (Some [ floatStep 0 [] [];
               floatStep 1000 [0] [f64_one];
               floatStep 2000 [] [] ]).
Proof. reflexivity. Qed.

Example scalar_example :
  fst (Function.scalarOperator_Next background ex_scalar)
  = Ok (Some [ floatStep 0 [0] [f64_two];
               floatStep 1000 [0] [NaN];
               floatStep 2000 [0] [NaN] ]).
Proof. reflexivity. Qed.

(** ** Cancellation *)

(** C4, as the code has it.  Under a cancelled context every [Next]
    returns the context's error at entry and leaves the operator as it
    was.  [Series] does not look at the context: the scalar operator
    answers with no series, the absent operator with its label set, and
    a vector-vector operator that is initialised with its series table,
    whether or not the context is cancelled. *)
Theorem next_checks_context (ctx : Context) (e : error) :
  ctxErr ctx = Some e ->
  (forall (S : Type) (VO : VectorOperator S) (o : Function.scalarOperator S),
      Function.scalarOperator_Next ctx o = (Error e, o)) /\
  (forall (S : Type) (VO : VectorOperator S) (o : Function.absentOperator S),
      Function.absentOperator_Next ctx o = (Error e, o)) /\
  (forall (S : Type) (VO : VectorOperator S) (LL : LabelsLib)
          (d : Exchange.duplicateLabelCheckOperator S),
      Exchange.duplicateLabelCheckOperator_Next ctx d = (Error e, d)) /\
  (forall (L R : Type) (VL : VectorOperator L) (VR : VectorOperator R)
          (LL : LabelsLib) (HL : HistogramLib) (ML : MathLib)
          (o : Binary.vectorOperator L R),
      Binary.vectorOperator_Next ctx o = (Error e, o)) /\
  (forall (S1 S2 : Type) (V1 : VectorOperator S1) (V2 : VectorOperator S2)
          (o : Binary.scalarOperator S1 S2),
      Binary.scalarOperator_Next ctx o = (Error e, o)) /\
  (forall (S : Type) (VO : VectorOperator S) (o : Function.scalarOperator S),
      Function.scalarOperator_Series ctx o = (Ok [], o)) /\
  (forall (S : Type) (VO : VectorOperator S) (o : Function.absentOperator S),
      Function.absent_once o = true ->
      Function.absentOperator_Series ctx o = (Ok (Function.absent_series o), o)) /\
  (forall (L R : Type) (VL : VectorOperator L) (VR : VectorOperator R)
          (LL : LabelsLib) (HL : HistogramLib) (ML : MathLib)
          (o : Binary.vectorOperator L R),
      Binary.once o = true ->
      Binary.vectorOperator_Series ctx o = (Ok (Binary.series o), o)).
Proof.
  intros Hctx. repeat split; intros.
  - unfold Function.scalarOperator_Next. rewrite Hctx. reflexivity.
  - unfold Function.absentOperator_Next. rewrite Hctx. reflexivity.
  - unfold Exchange.duplicateLabelCheckOperator_Next. rewrite Hctx. reflexivity.
  - unfold Binary.vectorOperator_Next. rewrite Hctx. reflexivity.
  - unfold Binary.scalarOperator_Next. rewrite Hctx. reflexivity.
  - unfold Function.absentOperator_Series, Function.absentOperator_loadSeries.
    rewrite H. reflexivity.
  - unfold Binary.vectorOperator_Series, Binary.bind, Binary.initOnce.
    rewrite H. reflexivity.
Qed.

Lemma next_checks_context_witness :
  ctxErr cancelled = Some Canceled /\
  Function.absentOperator_Next cancelled ex_absent
  = (Error Canceled, ex_absent).
Proof.
  split; [reflexivity|].
  apply (next_checks_context cancelled Canceled eq_refl).
Defined.

(** C4 as stated fails for [Series]: under a cancelled context the
    absent operator's [Series] answers with its label set, not with the
    context's error. *)
Lemma series_ignores_context :
  ctxErr cancelled = Some Canceled /\
  fst (Function.absentOperator_Series cancelled ex_absent)
  = Ok [ {[ "job" := "x" ]} ] /\
  fst (Function.scalarOperator_Series cancelled ex_scalar) = Ok [].
Proof. repeat split; vm_compute; reflexivity. Qed.

(** ** Slices *)

Lemma index_Some {A : Type} (l : list A) (i : Z) (x : A) :
  index l i = Some x <-> 0 <= i /\ l !! Z.to_nat i = Some x.
Proof.
  unfold index. destruct (Z.ltb_spec i 0); split.
  - discriminate.
  - intros [? _]. lia.
  - auto.
  - intros [_ ?]. assumption.
Qed.

Lemma index_is_Some {A : Type} (l : list A) (i : Z) :
  is_Some (index l i) <-> 0 <= i < Z.of_nat (length l).
Proof.
  split.
  - intros [x Hx]. apply index_Some in Hx as [Hi Hx].
    apply lookup_lt_Some in Hx. lia.
  - intros Hi. destruct (lookup_lt_is_Some_2 l (Z.to_nat i)) as [x Hx]; [lia|].
    exists x. apply index_Some. split; [lia|assumption].
Qed.

Lemma assign_Some {A : Type} (l : list A) (i : Z) (x : A) :
  0 <= i < Z.of_nat (length l) -> assign l i x = Some (<[Z.to_nat i := x]> l).
Proof.
  intros Hi. unfold assign.
  destruct (proj2 (index_is_Some l i) Hi) as [y Hy]. rewrite Hy. reflexivity.
Qed.

Lemma index_insert {A : Type} (l : list A) (i k : Z) (x : A) :
  0 <= i < Z.of_nat (length l) -> 0 <= k ->
  index (<[Z.to_nat i := x]> l) k = if decide (i = k) then Some x else index l k.
Proof.
  intros Hi Hk. unfold index. destruct (Z.ltb_spec k 0); [lia|].
  case_decide as Hik.
  - subst. apply list_lookup_insert_eq. lia.
  - apply list_lookup_insert_ne. lia.
Qed.

(** ** Bits of the masks *)

Lemma wrap64_bit_testbit (i t : Z) :
  0 <= i -> 0 <= t ->
  Z.testbit (wrap64 (Z.shiftl 2 i)) t = (t <? 64) && (t =? i + 1).
Proof.
  intros Hi Ht. unfold wrap64.
  destruct (Z.ltb_spec t 64).
  - rewrite Z.mod_pow2_bits_low by lia.
    rewrite Z.shiftl_spec by lia.
    change 2 with (2 ^ 1). rewrite Z.pow2_bits_eqb by lia.
    cbn [andb]. destruct (Z.eqb_spec 1 (t - i)), (Z.eqb_spec t (i + 1)); try reflexivity; lia.
  - rewrite Z.mod_pow2_bits_high by lia. reflexivity.
Qed.

Lemma wrap64_nonneg (z : Z) : 0 <= wrap64 z.
Proof. unfold wrap64. apply Z.mod_pos_bound. lia. Qed.

Lemma land_pos_iff (x y : Z) :
  0 <= x -> 0 <= y ->
  (Z.land x y >? 0) = true <-> exists t, 0 <= t /\ Z.testbit x t = true /\ Z.testbit y t = true.
Proof.
  intros Hx Hy. rewrite Z.gtb_lt. split.
  - intros Hpos. exists (Z.log2 (Z.land x y)). split; [apply Z.log2_nonneg|].
    apply andb_true_iff. rewrite <- Z.land_spec. apply Z.bit_log2. assumption.
  - intros (t & Ht & Hxt & Hyt).
    assert (0 <= Z.land x y) as Hnn by (apply Z.land_nonneg; auto).
    destruct (Z.eq_dec (Z.land x y) 0) as [Hz|Hz]; [|lia].
    assert (Z.testbit (Z.land x y) t = true) as Hb
      by (rewrite Z.land_spec, Hxt, Hyt; reflexivity).
    rewrite Hz, Z.bits_0 in Hb. discriminate.
Qed.

(** ** The duplicate-label check *)

Section DuplicateLabelCheck.
Import Exchange ExchangeSpec.
Context {S : Type} `{VectorOperator S} `{LabelsLib}.

Lemma clear_masks_spec (ps : list pair) (c : list uint64) :
  (forall pr, pr ∈ ps -> in_range c (a pr) /\ in_range c (b pr)) ->
  exists c', clear_masks ps c = Some c' /\
    length c' = length c /\
    (forall k w, index c' k = Some w -> w = 0 \/ index c k = Some w) /\
    (forall pr, pr ∈ ps -> index c' (a pr) = Some 0 /\ index c' (b pr) = Some 0).
Proof.
  revert c. induction ps as [|pr rest IH]; intros c Hr.
  - exists c. cbn. split; [reflexivity|]. split; [reflexivity|]. split; [auto|].
    intros pr Hpr. inversion Hpr.
  - destruct (Hr pr) as [Ha Hb]; [left|]. unfold in_range in *.
    cbn. rewrite (assign_Some c (a pr) 0 Ha).
    rewrite assign_Some by (rewrite length_insert; exact Hb).
    set (c2 := <[Z.to_nat (b pr) := 0]> (<[Z.to_nat (a pr) := 0]> c)).
    assert (length c2 = length c) as Hlen2 by (unfold c2; rewrite !length_insert; reflexivity).
    destruct (IH c2) as (c' & Hc' & Hlen & Hold & Hzero).
    { intros q Hq. unfold in_range. rewrite Hlen2. apply Hr. right. exact Hq. }
    assert (forall k w, index c2 k = Some w -> w = 0 \/ index c k = Some w) as Hc2.
    { intros k w Hk. pose proof (proj1 (index_Some _ _ _) Hk) as [Hk0 _].
      unfold c2 in Hk. rewrite index_insert in Hk by (rewrite ?length_insert; lia).
      case_decide; [left; congruence|].
      rewrite index_insert in Hk by lia.
      case_decide; [left; congruence|]. right. exact Hk. }
    exists c'. split; [exact Hc'|]. split; [lia|]. split.
    + intros k w Hk. destruct (Hold k w Hk) as [|Hk2]; [left; assumption|].
      apply Hc2. exact Hk2.
    + intros q Hq. apply elem_of_cons in Hq as [->|Hq]; [|apply Hzero; exact Hq].
      assert (forall k, in_range c k -> index c2 k = Some 0 -> index c' k = Some 0) as Hkeep.
      { intros k Hk Hk2.
        destruct (proj2 (index_is_Some c' k)) as [w Hw]; [unfold in_range in Hk; lia|].
        destruct (Hold k w Hw) as [->|Hw2]; [exact Hw|]. congruence. }
      split; apply Hkeep; unfold in_range; try lia; unfold c2.
      * rewrite index_insert by (rewrite ?length_insert; lia).
        case_decide; [reflexivity|]. rewrite index_insert by lia.
        case_decide; [reflexivity|contradiction].
      * rewrite index_insert by (rewrite ?length_insert; lia).
        case_decide; [reflexivity|contradiction].
Qed.

Lemma mark_step_spec (i : Z) (sids : list uint64) (c : list uint64) :
  0 <= i ->
  (forall sid, sid ∈ sids -> in_range c sid) ->
  exists c', mark_step i sids c = Some c' /\
    length c' = length c /\
    forall k w, index c k = Some w ->
      exists w', index c' k = Some w' /\ (0 <= w -> 0 <= w') /\
        forall t, 0 <= t ->
          (Z.testbit w' t = true <->
           Z.testbit w t = true \/ (k ∈ sids /\ t = i + 1 /\ t < 64)).
Proof.
  intros Hi. revert c. induction sids as [|sid rest IH]; intros c Hr.
  - exists c. cbn. split; [reflexivity|]. split; [reflexivity|].
    intros k w Hk. exists w. split; [exact Hk|]. split; [auto|].
    intros t Ht. split; [auto|]. intros [?|[Hin _]]; [assumption|inversion Hin].
  - assert (in_range c sid) as Hsid by (apply Hr; left). unfold in_range in Hsid.
    destruct (proj2 (index_is_Some c sid) Hsid) as [w0 Hw0].
    cbn. rewrite Hw0. rewrite assign_Some by exact Hsid.
    set (c1 := <[Z.to_nat sid := Z.lor w0 (wrap64 (Z.shiftl 2 i))]> c).
    assert (length c1 = length c) as Hlen1 by (unfold c1; rewrite length_insert; reflexivity).
    destruct (IH c1) as (c' & Hc' & Hlen & Hbits).
    { intros q Hq. unfold in_range. rewrite Hlen1. apply Hr. right. exact Hq. }
    exists c'. split; [exact Hc'|]. split; [lia|].
    intros k w Hk. pose proof (proj1 (index_Some _ _ _) Hk) as [Hk0 _].
    assert (exists w1, index c1 k = Some w1 /\ (0 <= w -> 0 <= w1) /\
              forall t, 0 <= t ->
                (Z.testbit w1 t = true <-> Z.testbit w t = true \/ (k = sid /\ t = i + 1 /\ t < 64)))
      as (w1 & Hw1 & Hnn1 & Hb1).
    { unfold c1. rewrite index_insert by lia. case_decide as Heq.
      - subst k. assert (w = w0) as -> by congruence.
        eexists. split; [reflexivity|]. split.
        + intros. apply Z.lor_nonneg. split; [assumption|apply wrap64_nonneg].
        + intros t Ht. rewrite Z.lor_spec, orb_true_iff, wrap64_bit_testbit by lia.
          rewrite andb_true_iff, Z.ltb_lt, Z.eqb_eq. intuition lia.
      - exists w. split; [exact Hk|]. split; [auto|]. intros t Ht. intuition congruence. }
    destruct (Hbits k w1 Hw1) as (w' & Hw' & Hnn & Hb).
    exists w'. split; [exact Hw'|]. split; [auto|].
    intros t Ht. rewrite (Hb t Ht), (Hb1 t Ht), elem_of_cons. intuition congruence.
Qed.

Lemma mark_batch_spec (i : Z) (inb : list StepVector) (c : list uint64) :
  0 <= i ->
  (forall sv sid, sv ∈ inb -> sid ∈ SampleIDs sv -> in_range c sid) ->
  exists c', mark_batch i inb c = Some c' /\
    length c' = length c /\
    forall k w, index c k = Some w ->
      exists w', index c' k = Some w' /\ (0 <= w -> 0 <= w') /\
        forall t, 0 <= t ->
          (Z.testbit w' t = true <->
           Z.testbit w t = true \/
           exists (j : nat) sv, inb !! j = Some sv /\ k ∈ SampleIDs sv /\
                                t = i + Z.of_nat j + 1 /\ t < 64).
Proof.
  revert i c. induction inb as [|sv rest IH]; intros i c Hi Hr.
  - exists c. cbn. split; [reflexivity|]. split; [reflexivity|].
    intros k w Hk. exists w. split; [exact Hk|]. split; [auto|].
    intros t Ht. split; [auto|].
    intros [?|(j & sv & Hj & _)]; [assumption|]. rewrite lookup_nil in Hj. discriminate.
  - destruct (mark_step_spec i (SampleIDs sv) c Hi) as (c1 & Hc1 & Hlen1 & Hb1).
    { intros sid Hsid. apply (Hr sv); [left|exact Hsid]. }
    cbn. rewrite Hc1.
    destruct (IH (i + 1) c1) as (c' & Hc' & Hlen & Hb); [lia| |].
    { intros sv' sid Hsv Hsid. unfold in_range. rewrite Hlen1. apply (Hr sv'); [right|]; assumption. }
    exists c'. split; [exact Hc'|]. split; [lia|].
    intros k w Hk. destruct (Hb1 k w Hk) as (w1 & Hw1 & Hnn1 & Hbits1).
    destruct (Hb k w1 Hw1) as (w' & Hw' & Hnn & Hbits).
    exists w'. split; [exact Hw'|]. split; [auto|].
    intros t Ht. rewrite (Hbits t Ht), (Hbits1 t Ht). split.
    + intros [[?|(Hin & -> & Hlt)]|(j & sv' & Hj & Hin & -> & Hlt)].
      * left. assumption.
      * right. exists 0%nat, sv. cbn. repeat split; auto; lia.
      * right. exists (Datatypes.S j), sv'. cbn. repeat split; auto; lia.
    + intros [?|(j & sv' & Hj & Hin & -> & Hlt)]; [left; left; assumption|].
      destruct j as [|j]; cbn in Hj.
      * injection Hj as <-. left. right. repeat split; auto; lia.
      * right. exists j, sv'. repeat split; auto; lia.
Qed.

Lemma check_pairs_spec (ps : list pair) (c : list uint64) :
  (forall pr, pr ∈ ps -> in_range c (a pr) /\ in_range c (b pr)) ->
  exists r, check_pairs ps c = Some r /\
    (r = true <->
     exists pr ca cb, pr ∈ ps /\ index c (a pr) = Some ca /\ index c (b pr) = Some cb /\
                      (Z.land ca cb >? 0) = true).
Proof.
  induction ps as [|pr rest IH]; intros Hr.
  - exists false. split; [reflexivity|]. split; [discriminate|].
    intros (pr & ? & ? & Hin & _). inversion Hin.
  - destruct (Hr pr) as [Ha Hb]; [left|].
    destruct (proj2 (index_is_Some c (a pr)) Ha) as [ca Hca].
    destruct (proj2 (index_is_Some c (b pr)) Hb) as [cb Hcb].
    cbn. rewrite Hca, Hcb. destruct (Z.land ca cb >? 0) eqn:Hland.
    + exists true. split; [reflexivity|]. split; [|reflexivity].
      intros _. exists pr, ca, cb. repeat split; auto. left.
    + destruct IH as (r & Hr' & Hiff); [intros q Hq; apply Hr; right; exact Hq|].
      exists r. split; [exact Hr'|]. rewrite Hiff. split.
      * intros (q & qa & qb & Hq & ?). exists q, qa, qb. split; [right; exact Hq|assumption].
      * intros (q & qa & qb & Hq & Hqa & Hqb & Hl).
        apply elem_of_cons in Hq as [->|Hq]; [congruence|].
        exists q, qa, qb. auto.
Qed.

Lemma init_loop_collide (all pre series : list Labels) (m : gmap Z Z) (p0 : list pair) :
  all = pre ++ series ->
  (forall h j, m !! h = Some j ->
     0 <= j < Z.of_nat (length pre) /\ exists l, index all j = Some l /\ Hash l = h) ->
  (forall pr, pr ∈ p0 -> collide all pr) ->
  forall pr, pr ∈ init_loop series (Z.of_nat (length pre)) m p0 -> collide all pr.
Proof.
  revert pre m p0. induction series as [|l rest IH]; intros pre m p0 Hall Hm Hp0 pr Hpr.
  - cbn in Hpr. auto.
  - cbn in Hpr.
    assert (index all (Z.of_nat (length pre)) = Some l) as Hl.
    { apply index_Some. split; [lia|]. rewrite Nat2Z.id, Hall.
      rewrite lookup_app_r by lia. rewrite Nat.sub_diag. reflexivity. }
    assert (all = (pre ++ [l]) ++ rest) as Hall' by (rewrite <- app_assoc; exact Hall).
    assert (Z.of_nat (length pre) + 1 = Z.of_nat (length (pre ++ [l]))) as Hlen
      by (rewrite length_app; cbn; lia).
    rewrite Hlen in Hpr.
    destruct (m !! Hash l) as [j|] eqn:Hj.
    + apply (IH (pre ++ [l]) m (p0 ++ [{| a := Z.of_nat (length pre); b := j |}])); auto.
      * intros h j' Hj'. destruct (Hm h j' Hj') as [? ?]. split; [|assumption].
        rewrite length_app. cbn. lia.
      * intros q Hq. apply elem_of_app in Hq as [Hq|Hq]; [auto|].
        apply list_elem_of_singleton in Hq as ->.
        destruct (Hm _ _ Hj) as [Hjr (lb & Hlb & Hh)].
        split; [cbn; lia|]. exists l, lb. cbn. auto.
    + apply (IH (pre ++ [l]) (<[Hash l := Z.of_nat (length pre)]> m) p0); auto.
      intros h j' Hj'. rewrite length_app. cbn.
      destruct (decide (Hash l = h)) as [<-|Hne].
      * rewrite lookup_insert_eq in Hj'. injection Hj' as <-. split; [lia|]. eauto.
      * rewrite lookup_insert_ne in Hj' by exact Hne.
        destruct (Hm h j' Hj') as [? ?]. split; [lia|assumption].
Qed.

Lemma recorded_pairs_collide (series : list Labels) :
  forall pr, pr ∈ init_loop series 0 ∅ [] -> collide series pr.
Proof.
  intros pr Hpr. apply (init_loop_collide series [] series ∅ []); auto.
  - intros h j Hj. rewrite lookup_empty in Hj. discriminate.
  - intros q Hq. inversion Hq.
Qed.

Lemma collide_in_range (series : list Labels) (pr : pair) :
  collide series pr ->
  0 <= a pr < Z.of_nat (length series) /\ 0 <= b pr < Z.of_nat (length series).
Proof.
  intros (Hab & la & lb & Hla & Hlb & _).
  split; apply index_is_Some; eauto.
Qed.

(** [init] on an operator that has not run it yet. *)
Lemma init_initialises (ctx : Context) (d : duplicateLabelCheckOperator S)
    (series : list Labels) (n : S) :
  once d = false ->
  Series ctx (next d) = (Ok series, n) ->
  exists d1, init ctx d = (Ok tt, d1) /\ initialised series d1 /\ next d1 = n /\ once d1 = true.
Proof.
  intros Honce Hseries. unfold init. rewrite Honce, Hseries.
  eexists. split; [reflexivity|]. repeat split. cbn. apply length_replicate.
Qed.

(** The three loops of [Next] on a batch. *)
Lemma masks_spec (series : list Labels) (ps : list pair) (c : list uint64)
    (inb : list StepVector) :
  length c = length series ->
  (forall pr, pr ∈ ps -> collide series pr) ->
  (forall sv sid, sv ∈ inb -> sid ∈ SampleIDs sv -> 0 <= sid < Z.of_nat (length series)) ->
  exists c1 c2 r,
    clear_masks ps c = Some c1 /\ mark_batch 0 inb c1 = Some c2 /\
    check_pairs ps c2 = Some r /\ length c2 = length series /\
    (r = true <-> exists pr (j : nat), pr ∈ ps /\ (j < 63)%nat /\ both_alive_at pr inb j).
Proof.
  intros Hlen Hps Hin.
  assert (forall pr, pr ∈ ps -> in_range c (a pr) /\ in_range c (b pr)) as Hr.
  { intros pr Hpr. unfold in_range. rewrite Hlen. apply collide_in_range. auto. }
  destruct (clear_masks_spec ps c Hr) as (c1 & Hc1 & Hlen1 & _ & Hzero).
  destruct (mark_batch_spec 0 inb c1) as (c2 & Hc2 & Hlen2 & Hbits); [lia| |].
  { intros sv sid Hsv Hsid. unfold in_range. rewrite Hlen1, Hlen. eauto. }
  destruct (check_pairs_spec ps c2) as (r & Hcheck & Hiff).
  { intros pr Hpr. unfold in_range in *. rewrite Hlen2, Hlen1. auto. }
  exists c1, c2, r. repeat (split; [assumption || lia|]).
  rewrite Hiff. split.
  - intros (pr & ca & cb & Hpr & Hca & Hcb & Hland).
    destruct (Hzero pr Hpr) as [Ha0 Hb0].
    destruct (Hbits _ _ Ha0) as (wa & Hwa & Hnna & Hbita).
    destruct (Hbits _ _ Hb0) as (wb & Hwb & Hnnb & Hbitb).
    assert (ca = wa) as -> by congruence. assert (cb = wb) as -> by congruence.
    apply land_pos_iff in Hland as (t & Ht & Hta & Htb); [|lia|lia].
    apply Hbita in Hta; [|exact Ht]. apply Hbitb in Htb; [|exact Ht].
    rewrite Z.bits_0 in Hta, Htb.
    destruct Hta as [?|(ja & sva & Hja & Hina & Hta & Hlt)]; [discriminate|].
    destruct Htb as [?|(jb & svb & Hjb & Hinb & Htb & _)]; [discriminate|].
    assert (ja = jb) as <- by lia. assert (sva = svb) as <- by congruence.
    exists pr, ja. split; [exact Hpr|]. split; [lia|]. exists sva. auto.
  - intros (pr & j & Hpr & Hj & sv & Hsv & Hina & Hinb).
    destruct (Hzero pr Hpr) as [Ha0 Hb0].
    destruct (Hbits _ _ Ha0) as (wa & Hwa & Hnna & Hbita).
    destruct (Hbits _ _ Hb0) as (wb & Hwb & Hnnb & Hbitb).
    exists pr, wa, wb. repeat (split; [assumption|]).
    apply land_pos_iff; [lia|lia|]. exists (Z.of_nat j + 1). split; [lia|].
    split; [apply Hbita|apply Hbitb]; try lia; right; exists j, sv; repeat split; auto; lia.
Qed.

(** C2, as the code has it.  After [init], every recorded pair relates
    two series of equal label-set hash.  On a batch, [Next] fails with
    [ErrDuplicateLabelSet] if and only if the two series of some
    recorded pair both have a sample at one of the first 63 positions
    of the batch (the mask of a series has a bit for these positions
    only); otherwise the batch is forwarded unchanged.  In particular a
    batch in which no two paired series are alive at the same position
    is never refused. *)
Theorem duplicate_check_detects (ctx : Context) (d d1 : duplicateLabelCheckOperator S)
    (series : list Labels) (inb : list StepVector) (n : S) :
  ctxErr ctx = None ->
  init ctx d = (Ok tt, d1) ->
  initialised series d1 ->
  Next ctx (next d1) = (Ok (Some inb), n) ->
  (forall sv sid, sv ∈ inb -> sid ∈ SampleIDs sv -> 0 <= sid < Z.of_nat (length series)) ->
  (forall pr, pr ∈ p d1 -> collide series pr) /\
  (fst (duplicateLabelCheckOperator_Next ctx d) = Error ErrDuplicateLabelSet <->
     exists pr (j : nat), pr ∈ p d1 /\ (j < 63)%nat /\ both_alive_at pr inb j) /\
  (~ (exists pr (j : nat), pr ∈ p d1 /\ (j < 63)%nat /\ both_alive_at pr inb j) ->
     fst (duplicateLabelCheckOperator_Next ctx d) = Ok (Some inb)) /\
  ((forall pr (j : nat), pr ∈ p d1 -> ~ both_alive_at pr inb j) ->
     fst (duplicateLabelCheckOperator_Next ctx d) = Ok (Some inb)).
Proof.
  intros Hctx Hinit [Hp Hlen] Hnext Hids.
  assert (forall pr, pr ∈ p d1 -> collide series pr) as Hcoll.
  { intros pr Hpr. apply recorded_pairs_collide. rewrite <- Hp. exact Hpr. }
  split; [exact Hcoll|].
  unfold duplicateLabelCheckOperator_Next. rewrite Hctx, Hinit, Hnext. cbn [p c once next].
  destruct (masks_spec series (p d1) (c d1) inb Hlen Hcoll Hids)
    as (c1 & c2 & r & Hc1 & Hc2 & Hr & _ & Hiff).
  destruct (Nat.ltb_spec 0 (length (p d1))) as [Hpos|Hzero].
  - rewrite Hc1, Hc2. cbn [p c]. rewrite Hr. destruct r.
    + cbn. split; [|split].
      * split; [intros _; apply Hiff; reflexivity|reflexivity].
      * intros Hno. exfalso. apply Hno, Hiff. reflexivity.
      * intros Hno. exfalso. destruct (proj1 Hiff eq_refl) as (pr & j & Hpr & _ & Hal).
        exact (Hno pr j Hpr Hal).
    + cbn. split; [|split]; [|reflexivity|reflexivity].
      split; [discriminate|]. intros Hex. apply Hiff in Hex. discriminate.
  - assert (p d1 = []) as Hnil by (destruct (p d1); [reflexivity|cbn in Hzero; lia]).
    cbn. split; [|split]; [|reflexivity|reflexivity].
    split; [discriminate|]. intros (pr & j & Hpr & _). rewrite Hnil in Hpr. inversion Hpr.
Qed.
End DuplicateLabelCheck.

Example sort_ex : sortStrings ["b"; "a"; "__name__"] = ["__name__"; "a"; "b"].
Proof. vm_compute. reflexivity. Qed.

Example init_ex : Exchange.init_loop dupSeries 0 ∅ [] = [ {| Exchange.a := 2; Exchange.b := 0 |} ].
Proof. vm_compute. reflexivity. Qed.

Lemma duplicate_check_detects_witness :
  ctxErr background = None /\
  fst (Exchange.duplicateLabelCheckOperator_Next background (dupCheckOver alternating))
  = Ok (Some alternating).
Proof.
  split; [reflexivity|].
  pose (d1 := {| Exchange.once := true;
                 Exchange.next := {| src_series := dupSeries; src_batches := [Some alternating] |};
                 Exchange.p := [ {| Exchange.a := 2; Exchange.b := 0 |} ];
                 Exchange.c := [0; 0; 0] |}).
  assert (Hinit : Exchange.init background (dupCheckOver alternating) = (Ok tt, d1))
    by (vm_compute; reflexivity).
  assert (Hd1 : initialised dupSeries d1) by (split; vm_compute; reflexivity).
  assert (Hnext : Next background (Exchange.next d1)
                  = (Ok (Some alternating), {| src_series := dupSeries; src_batches := [] |}))
    by reflexivity.
  assert (Hids : forall sv sid, sv ∈ alternating -> sid ∈ SampleIDs sv ->
                                0 <= sid < Z.of_nat (length dupSeries)).
  { intros sv sid Hsv Hsid. unfold alternating in Hsv.
    repeat (apply elem_of_cons in Hsv as [->|Hsv]); [| |inversion Hsv];
      cbn in Hsid; repeat (apply elem_of_cons in Hsid as [->|Hsid]);
      try (cbn; lia); inversion Hsid. }
  apply (duplicate_check_detects background _ d1 dupSeries alternating _ eq_refl Hinit Hd1 Hnext Hids).
  intros pr j Hpr (sv & Hsv & Ha & Hb).
  apply list_elem_of_singleton in Hpr as ->. cbn in Ha, Hb.
  destruct j as [|[|j]]; cbn in Hsv; [| |discriminate]; injection Hsv as <-; cbn in Ha, Hb.
  - repeat (apply elem_of_cons in Ha as [Ha|Ha]; [discriminate|]). inversion Ha.
  - repeat (apply elem_of_cons in Hb as [Hb|Hb]; [discriminate|]). inversion Hb.
Defined.

(** C2 as stated fails: series 0 and 2 are a recorded pair and both have
    a sample at position 63 of the batch, yet [Next] forwards the batch. *)
Lemma duplicate_check_misses_position_63 :
  Exchange.init_loop dupSeries 0 ∅ [] = [ {| Exchange.a := 2; Exchange.b := 0 |} ] /\
  both_alive_at {| Exchange.a := 2; Exchange.b := 0 |} lateBatch 63 /\
  fst (Exchange.duplicateLabelCheckOperator_Next background (dupCheckOver lateBatch))
  = Ok (Some lateBatch).
Proof.
  split; [vm_compute; reflexivity|]. split.
  - eexists. split; [reflexivity|]. cbn. split.
    + apply elem_of_cons. right. apply elem_of_cons. left. reflexivity.
    + apply elem_of_cons. left. reflexivity.
  - vm_compute. reflexivity.
Qed.

(** ** The state and error monad *)

Section Monad.
Import Binary.
Context {St : Type}.

Lemma bind_Ok {A B : Type} (m : M St A) (k : A -> M St B) (s s1 : St) (x : A) :
  m s = (Ok x, s1) -> bind m k s = k x s1.
Proof. intros Hm. unfold bind. rewrite Hm. reflexivity. Qed.

Lemma bind_Error {A B : Type} (m : M St A) (k : A -> M St B) (s s1 : St) (e : error) :
  m s = (Error e, s1) -> bind m k s = (Error e, s1).
Proof. intros Hm. unfold bind. rewrite Hm. reflexivity. Qed.

Lemma bind_Panic {A B : Type} (m : M St A) (k : A -> M St B) (s s1 : St) :
  m s = (Panic, s1) -> bind m k s = (Panic, s1).
Proof. intros Hm. unfold bind. rewrite Hm. reflexivity. Qed.

Lemma bind_inv_Ok {A B : Type} (m : M St A) (k : A -> M St B) (s s2 : St) (y : B) :
  bind m k s = (Ok y, s2) -> exists x s1, m s = (Ok x, s1) /\ k x s1 = (Ok y, s2).
Proof.
  unfold bind. destruct (m s) as [[x|e|] s1]; intros Hk; try discriminate. eauto.
Qed.

Lemma bind_assoc {A B C : Type} (m : M St A) (k1 : A -> M St B) (k2 : B -> M St C) (s : St) :
  bind (bind m k1) k2 s = bind m (fun x => bind (k1 x) k2) s.
Proof. unfold bind. destruct (m s) as [[x|e|] s1]; reflexivity. Qed.

Lemma bind_ret_l {A B : Type} (x : A) (k : A -> M St B) (s : St) :
  bind (ret x) k s = k x s.
Proof. reflexivity. Qed.

Lemma bind_ext {A B : Type} (m : M St A) (k1 k2 : A -> M St B) (s : St) :
  (forall x s1, k1 x s1 = k2 x s1) -> bind m k1 s = bind m k2 s.
Proof. intros Hk. unfold bind. destruct (m s) as [[x|e|] s1]; auto. Qed.

Lemma bind_congr {A B : Type} (m1 m2 : M St A) (k : A -> M St B) (s : St) :
  m1 s = m2 s -> bind m1 k s = bind m2 k s.
Proof. intros Hm. unfold bind. rewrite Hm. reflexivity. Qed.

(** A loop keeps what each of its rounds keeps. *)
Lemma forRange_invariant {A B : Type} (I : B -> St -> Prop) (body : Z -> A -> B -> M St B)
    (l : list A) :
  (forall i x acc s acc' s', x ∈ l -> I acc s -> body i x acc s = (Ok acc', s') -> I acc' s') ->
  forall i acc s acc' s',
    I acc s -> forRange body i l acc s = (Ok acc', s') -> I acc' s'.
Proof.
  induction l as [|x rest IH]; intros Hbody i acc s acc' s' HI Hrun.
  - cbn in Hrun. injection Hrun as <- <-. exact HI.
  - cbn in Hrun. apply bind_inv_Ok in Hrun as (acc1 & s1 & Hb & Hrest).
    apply (IH (fun i x acc s acc' s' Hx => Hbody i x acc s acc' s' (list_elem_of_further _ _ _ Hx))
              (i + 1) acc1 s1); [|exact Hrest].
    apply (Hbody i x acc s); [left|exact HI|exact Hb].
Qed.
End Monad.

Section Next.
Import Binary BinarySpec.
Context {L R : Type} `{VectorOperator L} `{VectorOperator R}.
Context `{LabelsLib} `{HistogramLib} `{MathLib}.

Abbreviation Op := (vectorOperator L R).

Lemma execPairs_length (ctx : Context) (prs : list (StepVector * StepVector)) :
  forall (o o' : Op) (b : list StepVector),
    execPairs ctx prs o = (Ok b, o') -> length b = length prs.
Proof.
  induction prs as [|[l r] rest IH]; intros o o' b Hrun.
  - cbn in Hrun. injection Hrun as <- _. reflexivity.
  - cbn in Hrun. apply bind_inv_Ok in Hrun as (step & o1 & _ & Hrun).
    apply bind_inv_Ok in Hrun as (more & o2 & Hmore & Hret).
    injection Hret as <- _. cbn. f_equal. eapply IH. exact Hmore.
Qed.

(** The loop of [Next] started in the middle: [i] pairs have been
    evaluated into [acc], the left batch continues with [lrest]. *)
Lemma forRange_execPairs (ctx : Context) (rhsB : list StepVector)
    (body : Z -> StepVector -> list StepVector -> M Op (list StepVector)) :
  body = (fun i vector batch =>
            if (i <? Z.of_nat (length rhsB)) then
              run r <- orPanic (index rhsB i);
              run step <- execBinaryOperation ctx vector r;
              ret (batch ++ [step])
            else ret batch) ->
  forall (lrest : list StepVector) (i : nat) (acc : list StepVector) (o : Op),
    forRange body (Z.of_nat i) lrest acc o
    = bind (execPairs ctx (zip lrest (drop i rhsB))) (fun more => ret (acc ++ more)) o.
Proof.
  intros Hbody.
  induction lrest as [|l lrest IH]; intros i acc o.
  - cbn. rewrite app_nil_r. reflexivity.
  - cbn [forRange]. destruct (Z.ltb_spec (Z.of_nat i) (Z.of_nat (length rhsB))) as [Hlt|Hge].
    + destruct (lookup_lt_is_Some_2 rhsB i) as [r Hr]; [lia|].
      rewrite (drop_S _ _ _ Hr). cbn [zip zip_with execPairs].
      assert (index rhsB (Z.of_nat i) = Some r) as Hidx
        by (apply index_Some; rewrite Nat2Z.id; split; [lia|exact Hr]).
      assert (body (Z.of_nat i) l acc o
              = bind (execBinaryOperation ctx l r) (fun step => ret (acc ++ [step])) o) as Hstep.
      { rewrite Hbody. destruct (Z.ltb_spec (Z.of_nat i) (Z.of_nat (length rhsB))); [|lia].
        rewrite Hidx. reflexivity. }
      rewrite (bind_congr _ _ _ _ Hstep). rewrite !bind_assoc.
      apply bind_ext. intros step o1. rewrite bind_ret_l, bind_assoc.
      replace (Z.of_nat i + 1) with (Z.of_nat (Datatypes.S i)) by lia.
      rewrite IH. apply bind_ext. intros more o2. rewrite bind_ret_l.
      rewrite <- app_assoc. reflexivity.
    + rewrite drop_ge by lia. rewrite zip_with_nil_r. cbn [execPairs].
      unfold bind at 2. cbn [ret]. rewrite app_nil_r.
      assert (forall (vs : list StepVector) (k : Z) (o : Op), Z.of_nat (length rhsB) <= k ->
                forRange body k vs acc o = (Ok acc, o)) as Hskip.
      { intros vs. induction vs as [|x vs IHls]; intros k o0 Hk; [reflexivity|].
        cbn [forRange]. unfold bind.
        assert (body k x acc o0 = (Ok acc, o0)) as ->.
        { rewrite Hbody. destruct (Z.ltb_spec k (Z.of_nat (length rhsB))); [lia|reflexivity]. }
        apply IHls. lia. }
      unfold bind.
      assert (body (Z.of_nat i) l acc o = (Ok acc, o)) as ->.
      { rewrite Hbody. destruct (Z.ltb_spec (Z.of_nat i) (Z.of_nat (length rhsB))); [lia|reflexivity]. }
      apply Hskip. lia.
Qed.

Lemma nextLoop_execPairs (ctx : Context) (lhsB rhsB : list StepVector) (o : Op) :
  nextLoop ctx lhsB rhsB o = execPairs ctx (zip lhsB rhsB) o.
Proof.
  unfold nextLoop.
  pose proof (forRange_execPairs ctx rhsB _ eq_refl lhsB 0%nat [] o) as Hloop.
  change (Z.of_nat 0) with 0 in Hloop. rewrite Hloop, drop_0. unfold bind, ret. cbn [app].
  destruct (execPairs ctx (zip lhsB rhsB) o) as [[b|e|] o1]; reflexivity.
Qed.

Lemma zip_length_min (l r : list StepVector) :
  length (zip l r) = Nat.min (length l) (length r).
Proof. apply length_zip_with. Qed.

(** C10, as the code has it.  Once both children have delivered their
    batches, [Next] returns end-of-stream when either batch is empty.
    Otherwise it evaluates the steps paired by batch index, in order:
    when a pair fails, [Next] fails with it and returns no batch; when
    no pair fails, it returns exactly [min (len lhs) (len rhs)] steps
    (the left steps beyond the right batch are dropped). *)
Theorem next_pairs_by_index (ctx : Context) (o o1 : Op) (lhsB rhsB : batch) (l1 : L) (r1 : R) :
  ctxErr ctx = None ->
  initOnce ctx o = (Ok tt, o1) ->
  Next ctx (lhs o1) = (Ok lhsB, l1) ->
  Next ctx (rhs o1) = (Ok rhsB, r1) ->
  ((steps lhsB = [] \/ steps rhsB = []) -> fst (vectorOperator_Next ctx o) = Ok None) /\
  (steps lhsB <> [] -> steps rhsB <> [] ->
     match fst (execPairs ctx (zip (steps lhsB) (steps rhsB)) (setChildren l1 r1 o1)) with
     | Ok b =>
         fst (vectorOperator_Next ctx o) = Ok (Some b) /\
         length b = Nat.min (length (steps lhsB)) (length (steps rhsB))
     | Error e => fst (vectorOperator_Next ctx o) = Error e
     | Panic => fst (vectorOperator_Next ctx o) = Panic
     end).
Proof.
  intros Hctx Hinit Hl Hr.
  unfold vectorOperator_Next. rewrite Hctx.
  rewrite (bind_Ok _ _ _ _ _ Hinit).
  erewrite bind_Ok; [|cbv beta; rewrite Hl, Hr; reflexivity].
  cbv beta iota. split.
  - intros [Hnil|Hnil]; rewrite Hnil; cbn [length Nat.eqb orb]; [reflexivity|].
    rewrite orb_true_r. reflexivity.
  - intros Hln Hrn.
    destruct (steps lhsB) as [|lv lrest] eqn:Hls; [contradiction|].
    destruct (steps rhsB) as [|rv rrest] eqn:Hrs; [contradiction|].
    cbn [length Nat.eqb orb].
    erewrite bind_congr; [|apply nextLoop_execPairs].
    unfold bind, ret.
    destruct (execPairs ctx (zip (lv :: lrest) (rv :: rrest)) (setChildren l1 r1 o1))
      as [[b|e|] o2] eqn:Hrun; cbn [fst]; try reflexivity.
    split; [reflexivity|].
    rewrite (execPairs_length _ _ _ _ _ Hrun), zip_length_min. reflexivity.
Qed.
End Next.

Section ExecLemmas.
Import Binary BinarySpec.
Context {L R : Type} `{VectorOperator L} `{VectorOperator R}.
Context `{LabelsLib} `{HistogramLib} `{MathLib}.

Abbreviation Op := (vectorOperator L R).

Lemma lcJoinBucket_inv (id : uint64) (o o' : Op) (ptr : nat) (jp : joinBucket) :
  lcJoinBucket id o = (Ok (ptr, jp), o') ->
  o' = o /\ index (lcJoinBuckets o) id = Some ptr /\ buckets o !! ptr = Some jp.
Proof.
  unfold lcJoinBucket. destruct (index (lcJoinBuckets o) id) as [q|]; [|discriminate].
  destruct (buckets o !! q) as [jq|] eqn:Hq; [|discriminate].
  intros Heq. injection Heq as <- <- <-. auto.
Qed.

Lemma hcJoinBucket_inv (id : uint64) (o o' : Op) (ptr : nat) (jp : joinBucket) :
  hcJoinBucket id o = (Ok (ptr, jp), o') ->
  o' = o /\ index (hcJoinBuckets o) id = Some ptr /\ buckets o !! ptr = Some jp.
Proof.
  unfold hcJoinBucket. destruct (index (hcJoinBuckets o) id) as [q|]; [|discriminate].
  destruct (buckets o !! q) as [jq|] eqn:Hq; [|discriminate].
  intros Heq. injection Heq as <- <- <-. auto.
Qed.

Lemma lcJoinBucket_Ok (id : uint64) (o : Op) :
  pointersValid o -> 0 <= id < Z.of_nat (length (lcJoinBuckets o)) ->
  exists ptr jp, lcJoinBucket id o = (Ok (ptr, jp), o) /\
                 index (lcJoinBuckets o) id = Some ptr /\ buckets o !! ptr = Some jp.
Proof.
  intros [Hlc _] Hid. destruct (proj2 (index_is_Some _ _) Hid) as [ptr Hptr].
  assert (ptr < length (buckets o))%nat as Hlt.
  { apply index_Some in Hptr as [_ Hptr]. rewrite Forall_forall in Hlc.
    apply Hlc. eapply list_elem_of_lookup_2. exact Hptr. }
  destruct (lookup_lt_is_Some_2 _ _ Hlt) as [jp Hjp].
  exists ptr, jp. unfold lcJoinBucket. rewrite Hptr, Hjp. auto.
Qed.

Lemma hcJoinBucket_Ok (id : uint64) (o : Op) :
  pointersValid o -> 0 <= id < Z.of_nat (length (hcJoinBuckets o)) ->
  exists ptr jp, hcJoinBucket id o = (Ok (ptr, jp), o) /\
                 index (hcJoinBuckets o) id = Some ptr /\ buckets o !! ptr = Some jp.
Proof.
  intros [_ Hhc] Hid. destruct (proj2 (index_is_Some _ _) Hid) as [ptr Hptr].
  assert (ptr < length (buckets o))%nat as Hlt.
  { apply index_Some in Hptr as [_ Hptr]. rewrite Forall_forall in Hhc.
    apply Hhc. eapply list_elem_of_lookup_2. exact Hptr. }
  destruct (lookup_lt_is_Some_2 _ _ Hlt) as [jp Hjp].
  exists ptr, jp. unfold hcJoinBucket. rewrite Hptr, Hjp. auto.
Qed.

Lemma pointersValid_setBuckets (o : Op) (bs : list joinBucket) :
  length bs = length (buckets o) -> pointersValid o -> pointersValid (setBuckets bs o).
Proof. intros Hlen [Hlc Hhc]. unfold pointersValid. cbn. rewrite Hlen. auto. Qed.

(** A loop whose rounds all succeed succeeds. *)
Lemma forRange_total {A B : Type} (I : Op -> Prop) (body : Z -> A -> B -> M Op B)
    (l : list A) :
  forall (i0 : Z),
    (forall (k : nat) x acc s, l !! k = Some x -> I s ->
       exists acc' s', body (i0 + Z.of_nat k) x acc s = (Ok acc', s') /\ I s') ->
    forall acc s, I s ->
      exists acc' s', forRange body i0 l acc s = (Ok acc', s') /\ I s'.
Proof.
  induction l as [|x rest IH]; intros i0 Hbody acc s HI.
  - exists acc, s. auto.
  - destruct (Hbody 0%nat x acc s eq_refl HI) as (acc1 & s1 & Hb & HI1).
    rewrite Z.add_0_r in Hb.
    destruct (IH (i0 + 1)) with (acc := acc1) (s := s1) as (acc' & s' & Hrun & HI'); auto.
    { intros k y acc0 s0 Hk HI0.
      replace (i0 + 1 + Z.of_nat k) with (i0 + Z.of_nat (Datatypes.S k)) by lia.
      apply Hbody; assumption. }
    exists acc', s'. split; [|exact HI']. cbn [forRange].
    rewrite (bind_Ok _ _ _ _ _ Hb). exact Hrun.
Qed.
End ExecLemmas.

Section LogicalOperators.
Import Binary BinarySpec.
Context {L R : Type} `{VectorOperator L} `{VectorOperator R}.
Context `{LabelsLib} `{HistogramLib} `{MathLib}.

Abbreviation Op := (vectorOperator L R).

Lemma keeps_bind {A : Type} (m0 : M Op A) (k : A -> StepVector -> M Op StepVector) :
  (forall x, keeps (k x)) -> keeps (fun step => bind m0 (fun x => k x step)).
Proof.
  intros Hk step s step' s' Hno Hrun.
  apply bind_inv_Ok in Hrun as (x & s1 & _ & Hrun). exact (Hk x step s1 step' s' Hno Hrun).
Qed.

Lemma keeps_ret : @keeps L R (fun step => ret step).
Proof. intros step s step' s' Hno Hrun. injection Hrun as <- _. exact Hno. Qed.

Lemma keeps_AppendSample (id : StepVector -> uint64) (v : StepVector -> float64) :
  @keeps L R (fun step => ret (AppendSample step (id step) (v step))).
Proof. intros step s step' s' Hno Hrun. injection Hrun as <- _. exact Hno. Qed.

Lemma keeps_if (c : bool) (m1 m2 : StepVector -> M Op StepVector) :
  keeps m1 -> keeps m2 -> keeps (fun step => if c then m1 step else m2 step).
Proof. intros H1' H2' step s step' s'. destruct c; [apply H1'|apply H2']. Qed.

Lemma keeps_loop {A : Type} (body : Z -> A -> StepVector -> M Op StepVector)
    (i : Z) (l : list A) :
  (forall i x, keeps (body i x)) -> keeps (forRange body i l).
Proof.
  intros Hbody step s step' s' Hno Hrun.
  apply (forRange_invariant (fun acc _ => noHistograms acc) body l
           (fun i x acc s acc' s' _ => Hbody i x acc s acc' s') i step s step' s' Hno Hrun).
Qed.

Ltac keeps_step :=
  first
    [ apply keeps_ret
    | apply keeps_AppendSample
    | apply keeps_if
    | apply keeps_bind; intros [? ?]
    | apply keeps_bind; intros ? ].

Lemma execBinaryAnd_noHistograms (lhs rhs : StepVector) (o o' : Op) (step : StepVector) :
  execBinaryAnd lhs rhs o = (Ok step, o') -> noHistograms step.
Proof.
  unfold execBinaryAnd. intros Hrun.
  apply bind_inv_Ok in Hrun as (_ & o1 & _ & Hrun).
  revert Hrun. apply keeps_loop; [|split; reflexivity].
  intros i x. repeat keeps_step.
Qed.

Lemma execBinaryOr_noHistograms (lhs rhs : StepVector) (o o' : Op) (step : StepVector) :
  execBinaryOr lhs rhs o = (Ok step, o') -> noHistograms step.
Proof.
  unfold execBinaryOr. intros Hrun.
  apply bind_inv_Ok in Hrun as (step1 & o1 & Hfirst & Hrun).
  assert (noHistograms step1) as Hno1.
  { revert Hfirst. apply keeps_loop; [|split; reflexivity].
    intros i x. repeat keeps_step. }
  revert Hrun. apply keeps_loop; [|exact Hno1].
  intros i x. repeat keeps_step.
Qed.

Lemma execBinaryUnless_noHistograms (lhs rhs : StepVector) (o o' : Op) (step : StepVector) :
  execBinaryUnless lhs rhs o = (Ok step, o') -> noHistograms step.
Proof.
  unfold execBinaryUnless. intros Hrun.
  apply bind_inv_Ok in Hrun as (_ & o1 & _ & Hrun).
  revert Hrun. apply keeps_loop; [|split; reflexivity].
  intros i x. repeat keeps_step.
Qed.
End LogicalOperators.

Section Frame.
Import Binary BinarySpec.
Context {L R : Type}.

Abbreviation Op := (vectorOperator L R).

Lemma sameTables_refl (o : Op) : sameTables o o.
Proof. repeat split. Qed.

Lemma sameTables_trans (o s t : Op) : sameTables o s -> sameTables s t -> sameTables o t.
Proof.
  unfold sameTables. intros (?&?&?&?&?&?&?&?&?) (?&?&?&?&?&?&?&?&?).
  repeat split; congruence.
Qed.

Lemma sameTables_store (o s : Op) (ptr : nat) (jp : joinBucket) :
  sameTables o s -> sameTables o (setBuckets (<[ptr := jp]> (buckets s)) s).
Proof.
  unfold sameTables. intros (?&?&?&?&?&?&?&?&?). cbn. rewrite length_insert.
  repeat split; assumption.
Qed.

Lemma sameTables_warn (o s : Op) (ws : list error) :
  sameTables o s -> sameTables o (setWarnings ws s).
Proof. unfold sameTables. intros (?&?&?&?&?&?&?&?&?). cbn. repeat split; assumption. Qed.

Lemma sameTables_pointersValid (o s : Op) :
  sameTables o s -> pointersValid o -> pointersValid s.
Proof.
  unfold sameTables, pointersValid. intros (Hlc&Hhc&_&_&_&_&_&_&Hlen) [? ?].
  rewrite Hlc, Hhc, Hlen. auto.
Qed.
End Frame.

Section LogicalTotal.
Import Binary BinarySpec.
Context {L R : Type} `{VectorOperator L} `{VectorOperator R}.
Context `{LabelsLib} `{HistogramLib} `{MathLib}.

Abbreviation Op := (vectorOperator L R).

Lemma idsBelow_lookup (ids : list uint64) (n k : nat) (id : uint64) :
  idsBelow ids n -> ids !! k = Some id -> 0 <= id < Z.of_nat n.
Proof.
  unfold idsBelow. rewrite Forall_forall. intros Hall Hk. apply Hall.
  eapply list_elem_of_lookup_2. exact Hk.
Qed.

Lemma sample_at (sv : StepVector) (k : nat) (id : uint64) :
  parallel sv -> SampleIDs sv !! k = Some id ->
  exists s, index (Samples sv) (0 + Z.of_nat k) = Some s.
Proof.
  intros [Hlen _] Hk. apply lookup_lt_Some in Hk.
  destruct (lookup_lt_is_Some_2 (Samples sv) k) as [s Hs]; [lia|].
  exists s. apply index_Some. rewrite Z.add_0_l, Nat2Z.id. split; [lia|exact Hs].
Qed.

(** The loops that mark the buckets of the samples of one side. *)
Lemma markLc_total (o : Op) (g : uint64 -> joinBucket -> joinBucket) (ids : list uint64) :
  pointersValid o ->
  idsBelow ids (length (lcJoinBuckets o)) ->
  forall s, sameTables o s ->
    exists s',
      forRange (fun _ sampleID (_ : unit) =>
                  run (ptr, jp) <- lcJoinBucket sampleID;
                  storeBucket ptr (g sampleID jp)) 0 ids tt s = (Ok tt, s') /\
      sameTables o s'.
Proof.
  intros Hpv Hids s Hs.
  destruct (forRange_total (sameTables o)
              (fun _ sampleID (_ : unit) =>
                 run (ptr, jp) <- lcJoinBucket sampleID;
                 storeBucket ptr (g sampleID jp)) ids 0) with (acc := tt) (s := s)
    as ([] & s' & Hrun & Hs'); [|exact Hs|eauto].
  intros k id [] s0 Hk Hs0.
  destruct (lcJoinBucket_Ok id s0) as (ptr & jp & Hb & _ & _).
  { eapply sameTables_pointersValid; eassumption. }
  { destruct Hs0 as (-> & _). eapply idsBelow_lookup; eassumption. }
  rewrite (bind_Ok _ _ _ _ _ Hb). cbv beta iota.
  eexists tt, _. split; [reflexivity|]. apply sameTables_store. exact Hs0.
Qed.

Lemma execBinaryAnd_total (lhs rhs : StepVector) (o : Op) :
  pointersValid o -> parallel lhs ->
  idsBelow (SampleIDs lhs) (length (hcJoinBuckets o)) ->
  idsBelow (SampleIDs rhs) (length (lcJoinBuckets o)) ->
  exists step o', execBinaryAnd lhs rhs o = (Ok step, o') /\ sameTables o o'.
Proof.
  intros Hpv Hpar Hl Hr. unfold execBinaryAnd.
  destruct (markLc_total o (fun sampleID jp => setAts (T lhs) (setSid sampleID jp))
              (SampleIDs rhs) Hpv Hr o (sameTables_refl o)) as (o1 & Hmark & Ho1).
  rewrite (bind_Ok _ _ _ _ _ Hmark).
  apply (forRange_total (sameTables o)); [|exact Ho1].
  intros k id step s0 Hk Hs0.
  destruct (hcJoinBucket_Ok id s0) as (ptr & jp & Hb & _ & _).
  { eapply sameTables_pointersValid; eassumption. }
  { destruct Hs0 as (_ & -> & _). eapply idsBelow_lookup; eassumption. }
  rewrite (bind_Ok _ _ _ _ _ Hb). cbv beta iota.
  destruct (ats jp =? T lhs); [|eexists _, _; split; [reflexivity|exact Hs0]].
  destruct (sample_at lhs k id Hpar Hk) as (v & Hv).
  unfold bind, get. rewrite Hv. cbn. eexists _, _. split; [reflexivity|exact Hs0].
Qed.

Lemma execBinaryUnless_total (lhs rhs : StepVector) (o : Op) :
  pointersValid o -> parallel lhs ->
  idsBelow (SampleIDs lhs) (length (hcJoinBuckets o)) ->
  idsBelow (SampleIDs rhs) (length (lcJoinBuckets o)) ->
  exists step o', execBinaryUnless lhs rhs o = (Ok step, o') /\ sameTables o o'.
Proof.
  intros Hpv Hpar Hl Hr. unfold execBinaryUnless.
  destruct (markLc_total o (fun _ jp => setAts (T lhs) jp)
              (SampleIDs rhs) Hpv Hr o (sameTables_refl o)) as (o1 & Hmark & Ho1).
  rewrite (bind_Ok _ _ _ _ _ Hmark).
  apply (forRange_total (sameTables o)); [|exact Ho1].
  intros k id step s0 Hk Hs0.
  destruct (hcJoinBucket_Ok id s0) as (ptr & jp & Hb & _ & _).
  { eapply sameTables_pointersValid; eassumption. }
  { destruct Hs0 as (_ & -> & _). eapply idsBelow_lookup; eassumption. }
  rewrite (bind_Ok _ _ _ _ _ Hb). cbv beta iota.
  destruct (negb (ats jp =? T lhs)); [|eexists _, _; split; [reflexivity|exact Hs0]].
  destruct (sample_at lhs k id Hpar Hk) as (v & Hv).
  unfold bind, get. rewrite Hv. cbn. eexists _, _. split; [reflexivity|exact Hs0].
Qed.

Lemma execBinaryOr_total (lhs rhs : StepVector) (o : Op) :
  pointersValid o -> parallel lhs -> parallel rhs ->
  idsBelow (SampleIDs lhs) (length (hcJoinBuckets o)) ->
  idsBelow (SampleIDs rhs) (length (lcJoinBuckets o)) ->
  exists step o', execBinaryOr lhs rhs o = (Ok step, o') /\ sameTables o o'.
Proof.
  intros Hpv Hparl Hparr Hl Hr. unfold execBinaryOr.
  destruct (forRange_total (sameTables o)
              (fun i sampleID step =>
                 run (ptr, jp) <- hcJoinBucket sampleID;
                 run _ <- storeBucket ptr (setAts (T lhs) jp);
                 run o <- get;
                 run s <- orPanic (index (Samples lhs) i);
                 ret (AppendSample step (outputSeriesID o (wrap64 (sampleID + 1)) 0) s))
              (SampleIDs lhs) 0) with (acc := GetStepVector (T lhs)) (s := o)
    as (step1 & o1 & Hfirst & Ho1); [|apply sameTables_refl|].
  { intros k id step s0 Hk Hs0.
    destruct (hcJoinBucket_Ok id s0) as (ptr & jp & Hb & _ & _).
    { eapply sameTables_pointersValid; eassumption. }
    { destruct Hs0 as (_ & -> & _). eapply idsBelow_lookup; eassumption. }
    rewrite (bind_Ok _ _ _ _ _ Hb). cbv beta iota.
    destruct (sample_at lhs k id Hparl Hk) as (v & Hv).
    unfold bind, get, storeBucket, modify. rewrite Hv. cbn.
    eexists _, _. split; [reflexivity|]. apply sameTables_store. exact Hs0. }
  rewrite (bind_Ok _ _ _ _ _ Hfirst).
  apply (forRange_total (sameTables o)); [|exact Ho1].
  intros k id step s0 Hk Hs0.
  destruct (lcJoinBucket_Ok id s0) as (ptr & jp & Hb & _ & _).
  { eapply sameTables_pointersValid; eassumption. }
  { destruct Hs0 as (-> & _). eapply idsBelow_lookup; eassumption. }
  rewrite (bind_Ok _ _ _ _ _ Hb). cbv beta iota.
  destruct (negb (ats jp =? T lhs)); [|eexists _, _; split; [reflexivity|exact Hs0]].
  destruct (sample_at rhs k id Hparr Hk) as (v & Hv).
  unfold bind, get. rewrite Hv. cbn. eexists _, _. split; [reflexivity|exact Hs0].
Qed.

(** C9. For [and], [or] and [unless] a step of the vector-vector
    operator does not look at the histograms of its two inputs (it
    computes the same with them removed), the step it returns holds no
    histogram, and on well-formed inputs it does return a step. *)
Theorem logical_operators_emit_floats_only (ctx : Context) (lhs rhs : StepVector) (o : Op) :
  isLogical (opType o) = true ->
  execBinaryOperation ctx lhs rhs o
  = execBinaryOperation ctx (dropHistograms lhs) (dropHistograms rhs) o /\
  (forall step o', execBinaryOperation ctx lhs rhs o = (Ok step, o') ->
     HistogramIDs step = [] /\ Histograms step = []) /\
  (pointersValid o -> parallel lhs -> parallel rhs ->
   idsBelow (SampleIDs lhs) (length (hcJoinBuckets o)) ->
   idsBelow (SampleIDs rhs) (length (lcJoinBuckets o)) ->
   exists step o', execBinaryOperation ctx lhs rhs o = (Ok step, o')).
Proof.
  intros Hop. unfold execBinaryOperation, bind, get.
  destruct (opType o); try discriminate; split; try reflexivity; split.
  - intros step o'. apply execBinaryAnd_noHistograms.
  - intros Hpv Hl Hr Hil Hir.
    destruct (execBinaryAnd_total lhs rhs o) as (step & o' & Hrun & _); eauto.
  - intros step o'. apply execBinaryOr_noHistograms.
  - intros Hpv Hl Hr Hil Hir.
    destruct (execBinaryOr_total lhs rhs o) as (step & o' & Hrun & _); eauto.
  - intros step o'. apply execBinaryUnless_noHistograms.
  - intros Hpv Hl Hr Hil Hir.
    destruct (execBinaryUnless_total lhs rhs o) as (step & o' & Hrun & _); eauto.
Qed.
End LogicalTotal.

Section NextExamples.
Import Binary.

Lemma next_pairs_by_index_witness :
  ctxErr background = None /\
  exists b,
    fst (vectorOperator_Next background
           (vectorOver (onX CardOneToOne) ADD
              [floatStep 0 [0; 1] [f64_two; f64_two]; floatStep 1000 [0] [f64_two]]
              [floatStep 0 [0] [f64_three]])) = Ok (Some b) /\
    length b = 1%nat.
Proof.
  split; [reflexivity|].
  set (lhsB := [floatStep 0 [0; 1] [f64_two; f64_two]; floatStep 1000 [0] [f64_two]]).
  set (rhsB := [floatStep 0 [0] [f64_three]]).
  set (o := vectorOver (onX CardOneToOne) ADD lhsB rhsB).
  pose (o1 := snd (initOnce background o)).
  assert (Hinit : initOnce background o = (Ok tt, o1)) by (vm_compute; reflexivity).
  assert (Hl : Next background (lhs o1)
               = (Ok (Some lhsB), {| src_series := aSeries; src_batches := [] |}))
    by (vm_compute; reflexivity).
  assert (Hr : Next background (rhs o1)
               = (Ok (Some rhsB), {| src_series := bSeries; src_batches := [] |}))
    by (vm_compute; reflexivity).
  destruct (next_pairs_by_index background o o1 _ _ _ _ eq_refl Hinit Hl Hr) as [_ Hpairs].
  assert (Hexec : fst (execPairs background (zip (steps (Some lhsB)) (steps (Some rhsB)))
                         (setChildren {| src_series := aSeries; src_batches := [] |}
                                      {| src_series := bSeries; src_batches := [] |} o1))
                  = Ok [floatStep 0 [0] [S754_finite false 5629499534213120 (-50)]])
    by (vm_compute; reflexivity).
  rewrite Hexec in Hpairs.
  destruct Hpairs as [Hnext Hlen]; [discriminate|discriminate|].
  eexists. split; [exact Hnext|exact Hlen].
Defined.

(** C10 as stated fails: both children deliver one step, but the two
    series of the right side have the same signature, and [Next] fails
    with the many-to-many error instead of returning one step. *)
Lemma next_fails_on_matching_error :
  let lhsB := [floatStep 0 [0; 1] [f64_two; f64_two]] in
  let rhsB := [floatStep 0 [0; 1] [f64_three; f64_three]] in
  let o := vectorOver (onX CardOneToOne) ADD lhsB rhsB in
  fst (Next background (lhs o)) = Ok (Some lhsB) /\
  fst (Next background (rhs o)) = Ok (Some rhsB) /\
  fst (vectorOperator_Next background o)
  = Error (ManyToManyMatchError (onX CardOneToOne)
             {[ MetricName := "b"; "x" := "1"; "y" := "Y" ]}
             {[ MetricName := "b"; "x" := "1" ]} rhBinOpSide).
Proof. repeat split; vm_compute; reflexivity. Qed.
End NextExamples.

Section LogicalExamples.
Import Binary.

(** [a unless on(x) b] on a step in which both sides also carry a
    histogram. *)
Lemma logical_operators_emit_floats_only_witness :
  let lhsV := {| T := 0; SampleIDs := [0; 1]; Samples := [f64_two; f64_three];
                 HistogramIDs := [1]; Histograms := [Some emptyHistogram] |} in
  let rhsV := {| T := 0; SampleIDs := [0]; Samples := [f64_three];
                 HistogramIDs := [1]; Histograms := [Some emptyHistogram] |} in
  let o := snd (initOnce background (vectorOver (onX CardManyToMany) LUNLESS [lhsV] [rhsV])) in
  isLogical (opType o) = true /\
  fst (execBinaryOperation background lhsV rhsV o) = Ok (floatStep 0 [1] [f64_three]) /\
  execBinaryOperation background lhsV rhsV o
  = execBinaryOperation background (dropHistograms lhsV) (dropHistograms rhsV) o.
Proof.
  intros lhsV rhsV o.
  split; [reflexivity|]. split; [vm_compute; reflexivity|].
  apply (logical_operators_emit_floats_only background lhsV rhsV o eq_refl).
Defined.
End LogicalExamples.

(** ** The low-cardinality side of an arithmetic step *)

Section Populate.
Import Binary.
Context {L R : Type} `{VectorOperator L} `{VectorOperator R}.
Context `{LabelsLib} `{HistogramLib} `{MathLib}.

Abbreviation Op := (vectorOperator L R).

Lemma forRange_ext {A B : Type} (body1 body2 : Z -> A -> B -> M Op B) (l : list A) :
  (forall i x acc s, body1 i x acc s = body2 i x acc s) ->
  forall i acc s, forRange body1 i l acc s = forRange body2 i l acc s.
Proof.
  intros Hext. induction l as [|x rest IH]; intros i acc s; [reflexivity|].
  cbn [forRange]. unfold bind. rewrite Hext.
  destruct (body2 i x acc s) as [[acc1|e|] s1]; auto.
Qed.

Lemma populateSamples_populate (ts : int64) (lcs : StepVector) (s : Op) :
  populateSamples ts lcs s = populate ts (updSample ts lcs) 0 (SampleIDs lcs) s.
Proof.
  unfold populateSamples, populate. apply forRange_ext.
  intros i id [] s0. unfold bind. destruct (lcJoinBucket id s0) as [[[ptr jp]|e|] s1]; try reflexivity.
  destruct (ats jp =? ts); [reflexivity|].
  unfold updSample. destruct (index (Samples lcs) i); reflexivity.
Qed.

Lemma populateHistograms_populate (ts : int64) (lcs : StepVector) (s : Op) :
  populateHistograms ts lcs s = populate ts (updHistogram ts lcs) 0 (HistogramIDs lcs) s.
Proof.
  unfold populateHistograms, populate. apply forRange_ext.
  intros i id [] s0. unfold bind. destruct (lcJoinBucket id s0) as [[[ptr jp]|e|] s1]; try reflexivity.
  destruct (ats jp =? ts); [reflexivity|].
  unfold updHistogram. destruct (index (Histograms lcs) i); reflexivity.
Qed.

(** One round of [populate] that succeeds. *)
Lemma populate_round_inv (ts : int64) (upd : Z -> uint64 -> joinBucket -> option joinBucket)
    (i : Z) (id : uint64) (s s1 : Op) :
  (run (ptr, jp) <- lcJoinBucket id;
   if ats jp =? ts then
     run e <- newManyToManyMatchErrorOnLowCardSide (sid jp) id;
     fail e
   else
     run jp1 <- orPanic (upd i id jp);
     storeBucket ptr jp1) s = (Ok tt, s1) ->
  exists ptr jp jp1,
    index (lcJoinBuckets s) id = Some ptr /\ buckets s !! ptr = Some jp /\
    ats jp <> ts /\ upd i id jp = Some jp1 /\
    s1 = setBuckets (<[ptr := jp1]> (buckets s)) s.
Proof.
  intros Hrun. apply bind_inv_Ok in Hrun as ([ptr jp] & s0 & Hb & Hrun).
  apply lcJoinBucket_inv in Hb as (-> & Hptr & Hjp).
  destruct (Z.eqb_spec (ats jp) ts) as [Heq|Hne].
  - apply bind_inv_Ok in Hrun as (e & s2 & _ & Hfail). discriminate.
  - apply bind_inv_Ok in Hrun as (jp1 & s2 & Hupd & Hstore).
    destruct (upd i id jp) as [jp1'|] eqn:Hu; [|discriminate].
    injection Hupd as <- <-. injection Hstore as <-.
    exists ptr, jp, jp1'. auto.
Qed.

Lemma populate_inv (ts : int64) (upd : Z -> uint64 -> joinBucket -> option joinBucket)
    (ids : list uint64) :
  (forall i id jp jp1, upd i id jp = Some jp1 -> ats jp1 = ts) ->
  forall (i0 : Z) (s s' : Op),
    populate ts upd i0 ids s = (Ok tt, s') ->
    sameTables s s' /\ warnings s' = warnings s /\
    (forall (k : nat) id, ids !! k = Some id ->
       exists ptr jp jp1,
         index (lcJoinBuckets s) id = Some ptr /\ buckets s !! ptr = Some jp /\
         ats jp <> ts /\ upd (i0 + Z.of_nat k) id jp = Some jp1 /\
         buckets s' !! ptr = Some jp1) /\
    (forall ptr, (forall id, id ∈ ids -> index (lcJoinBuckets s) id <> Some ptr) ->
       buckets s' !! ptr = buckets s !! ptr) /\
    (forall (k1 k2 : nat) id1 id2 ptr,
       ids !! k1 = Some id1 -> ids !! k2 = Some id2 ->
       index (lcJoinBuckets s) id1 = Some ptr -> index (lcJoinBuckets s) id2 = Some ptr ->
       k1 = k2).
Proof.
  intros Hupd. induction ids as [|id rest IH]; intros i0 s s' Hrun.
  - cbn in Hrun. injection Hrun as <-. split; [apply sameTables_refl|]. split; [reflexivity|].
    split; [|split; [reflexivity|]].
    + intros k id Hk. rewrite lookup_nil in Hk. discriminate.
    + intros k1 k2 id1 id2 ptr Hk1. rewrite lookup_nil in Hk1. discriminate.
  - unfold populate in Hrun. cbn [forRange] in Hrun.
    apply bind_inv_Ok in Hrun as ([] & s1 & Hround & Hrest).
    apply populate_round_inv in Hround as (ptr & jp & jp1 & Hptr & Hjp & Hcold & Hu & ->).
    change (populate ts upd (i0 + 1) rest (setBuckets (<[ptr := jp1]> (buckets s)) s) = (Ok tt, s')) in Hrest.
    apply IH in Hrest as (Hsame & Hwarn & Hdone & Hother & Hnodup).
    cbn [lcJoinBuckets buckets setBuckets] in Hdone, Hother, Hnodup.
    assert (ats jp1 = ts) as Hhot by (eapply Hupd; exact Hu).
    assert (ptr < length (buckets s))%nat as Hlt by (eapply lookup_lt_Some; exact Hjp).
    assert (forall id', id' ∈ rest -> index (lcJoinBuckets s) id' <> Some ptr) as Hfar.
    { intros id' Hin Hsame'. apply list_elem_of_lookup in Hin as (k & Hk).
      destruct (Hdone k id' Hk) as (ptr' & jp' & jp1' & Hptr' & Hjp' & Hcold' & _).
      assert (ptr' = ptr) as -> by congruence.
      rewrite list_lookup_insert_eq in Hjp' by exact Hlt. congruence. }
    split; [|split; [|split; [|split]]].
    + eapply sameTables_trans; [|exact Hsame]. apply sameTables_store, sameTables_refl.
    + rewrite Hwarn. reflexivity.
    + intros k id' Hk. destruct k as [|k]; cbn in Hk.
      * injection Hk as <-. exists ptr, jp, jp1. rewrite Z.add_0_r.
        repeat (split; [assumption|]).
        rewrite (Hother ptr Hfar). apply list_lookup_insert_eq. exact Hlt.
      * destruct (Hdone k id' Hk) as (ptr' & jp' & jp1' & Hptr' & Hjp' & Hcold' & Hu' & Hs').
        assert (ptr' <> ptr) as Hne.
        { intros ->. rewrite list_lookup_insert_eq in Hjp' by exact Hlt. congruence. }
        rewrite list_lookup_insert_ne in Hjp' by congruence.
        exists ptr', jp', jp1'. replace (i0 + Z.of_nat (Datatypes.S k)) with (i0 + 1 + Z.of_nat k) by lia.
        auto.
    + intros q Hq. rewrite Hother.
      * apply list_lookup_insert_ne. intros ->. apply (Hq id); [left|exact Hptr].
      * intros id' Hin. apply Hq. right. exact Hin.
    + intros k1 k2 id1 id2 q Hk1 Hk2 Hq1 Hq2.
      destruct k1 as [|k1], k2 as [|k2]; cbn in Hk1, Hk2.
      * reflexivity.
      * injection Hk1 as <-. exfalso. assert (q = ptr) as -> by congruence.
        apply (Hfar id2); [eapply list_elem_of_lookup_2; exact Hk2|exact Hq2].
      * injection Hk2 as <-. exfalso. assert (q = ptr) as -> by congruence.
        apply (Hfar id1); [eapply list_elem_of_lookup_2; exact Hk1|exact Hq1].
      * f_equal. eapply Hnodup; eassumption.
Qed.

Lemma newManyToManyMatchError_Ok (orig dup : uint64) (s : Op) :
  0 <= orig < Z.of_nat (length (lowCardSide s)) ->
  0 <= dup < Z.of_nat (length (lowCardSide s)) ->
  exists ldup lorig,
    newManyToManyMatchErrorOnLowCardSide orig dup s
    = (Ok (ManyToManyMatchError (matching s) ldup lorig (lowSide s)), s).
Proof.
  intros Horig Hdup.
  destruct (proj2 (index_is_Some _ _) Horig) as [lorig Hlo].
  destruct (proj2 (index_is_Some _ _) Hdup) as [ldup Hld].
  exists ldup, lorig. unfold newManyToManyMatchErrorOnLowCardSide, lowCardSide, lowSide in *.
  unfold bind, get. destruct (Card (matching s)); rewrite Hld; cbn; rewrite Hlo; reflexivity.
Qed.

Lemma sidsBelow_store (s : Op) (n ptr : nat) (jp1 : joinBucket) :
  sidsBelow s n -> 0 <= sid jp1 < Z.of_nat n ->
  sidsBelow (setBuckets (<[ptr := jp1]> (buckets s)) s) n.
Proof.
  intros Hs Hjp q jq Hq. cbn in Hq.
  destruct (decide (ptr = q)) as [->|Hne].
  - destruct (decide (q < length (buckets s))%nat) as [Hlt|Hge].
    + rewrite list_lookup_insert_eq in Hq by exact Hlt. injection Hq as <-. exact Hjp.
    + rewrite list_insert_ge in Hq by lia. eapply Hs. exact Hq.
  - rewrite list_lookup_insert_ne in Hq by exact Hne. eapply Hs. exact Hq.
Qed.

Lemma populate_cons (ts : int64) (upd : Z -> uint64 -> joinBucket -> option joinBucket)
    (i0 : Z) (id : uint64) (rest : list uint64) (s : Op) (ptr : nat) (jp : joinBucket) :
  lcJoinBucket id s = (Ok (ptr, jp), s) ->
  populate ts upd i0 (id :: rest) s
  = if ats jp =? ts then
      match newManyToManyMatchErrorOnLowCardSide (sid jp) id s with
      | (Ok e, s1) => (Error e, s1)
      | (Error e, s1) => (Error e, s1)
      | (Panic, s1) => (Panic, s1)
      end
    else
      match upd i0 id jp with
      | Some jp1 => populate ts upd (i0 + 1) rest (setBuckets (<[ptr := jp1]> (buckets s)) s)
      | None => (Panic, s)
      end.
Proof.
  intros Hb. unfold populate. cbn [forRange]. cbv beta.
  rewrite bind_assoc, (bind_Ok _ _ _ _ _ Hb). cbv beta iota.
  destruct (ats jp =? ts).
  - unfold bind. destruct (newManyToManyMatchErrorOnLowCardSide (sid jp) id s) as [[e|e|] s1];
      reflexivity.
  - destruct (upd i0 id jp) as [jp1|]; reflexivity.
Qed.

(** On a well-formed state [populate] does not panic, and the only
    error it returns is the many-to-many error of the low-cardinality
    side. *)
Lemma populate_safe (ts : int64) (upd : Z -> uint64 -> joinBucket -> option joinBucket)
    (n : nat) (ids : list uint64) :
  (forall i id jp jp1, upd i id jp = Some jp1 ->
     0 <= id < Z.of_nat n -> 0 <= sid jp < Z.of_nat n -> 0 <= sid jp1 < Z.of_nat n) ->
  forall (i0 : Z) (s : Op),
    pointersValid s -> length (lowCardSide s) = n ->
    idsBelow ids (length (lcJoinBuckets s)) -> idsBelow ids n -> sidsBelow s n ->
    (forall (k : nat) id jp, ids !! k = Some id -> is_Some (upd (i0 + Z.of_nat k) id jp)) ->
    (exists s', populate ts upd i0 ids s = (Ok tt, s') /\ sameTables s s' /\ sidsBelow s' n) \/
    (exists dup orig s',
       populate ts upd i0 ids s
       = (Error (ManyToManyMatchError (matching s) dup orig (lowSide s)), s')).
Proof.
  intros Hupd. induction ids as [|id rest IH]; intros i0 s Hpv Hn Hlc Hids Hsids Htot.
  - left. exists s. split; [reflexivity|]. split; [apply sameTables_refl|exact Hsids].
  - apply Forall_cons in Hlc as [Hid_lc Hlc]. apply Forall_cons in Hids as [Hid Hids].
    destruct (lcJoinBucket_Ok id s Hpv Hid_lc) as (ptr & jp & Hb & Hptr & Hjp).
    rewrite (populate_cons ts upd i0 id rest s ptr jp Hb).
    destruct (Z.eqb_spec (ats jp) ts) as [Hhot|Hcold].
    + right. destruct (newManyToManyMatchError_Ok (sid jp) id s) as (ldup & lorig & Herr).
      { rewrite Hn. eapply Hsids. exact Hjp. }
      { rewrite Hn. exact Hid. }
      exists ldup, lorig, s. rewrite Herr. reflexivity.
    + destruct (Htot 0%nat id jp eq_refl) as [jp1 Hu]. rewrite Z.add_0_r in Hu.
      rewrite Hu.
      set (s1 := setBuckets (<[ptr := jp1]> (buckets s)) s).
      assert (sameTables s s1) as Hs1 by apply sameTables_store, sameTables_refl.
      destruct (IH (i0 + 1) s1) as [(s' & Hrun & Hsame & Hsids')|(dup & orig & s' & Hrun)].
      * eapply sameTables_pointersValid; eassumption.
      * exact Hn.
      * exact Hlc.
      * exact Hids.
      * apply sidsBelow_store; [exact Hsids|]. eapply Hupd; [exact Hu|exact Hid|].
        eapply Hsids. exact Hjp.
      * intros k id' jp' Hk. replace (i0 + 1 + Z.of_nat k) with (i0 + Z.of_nat (Datatypes.S k)) by lia.
        apply Htot. exact Hk.
      * left. exists s'. split; [exact Hrun|]. split; [|exact Hsids'].
        eapply sameTables_trans; eassumption.
      * right. exists dup, orig, s'. exact Hrun.
Qed.
End Populate.

Section ManyToMany.
Import Binary.
Context {L R : Type} `{VectorOperator L} `{VectorOperator R}.
Context `{LabelsLib} `{HistogramLib} `{MathLib}.

Abbreviation Op := (vectorOperator L R).

Lemma bind_get {B : Type} (k : Op -> M Op B) (s : Op) : bind get k s = k s s.
Proof. reflexivity. Qed.

Lemma joined_pointersValid (o : Op) : joined o -> pointersValid o.
Proof.
  intros (byHash & _ & Hlt & Hlc & Hhc). split; apply Forall_forall; intros ptr Hptr.
  - apply list_elem_of_lookup in Hptr as (i & Hi).
    destruct (Forall2_lookup_r _ _ _ _ _ Hlc Hi) as (l & _ & Hl). eapply Hlt. exact Hl.
  - apply list_elem_of_lookup in Hptr as (i & Hi).
    destruct (Forall2_lookup_r _ _ _ _ _ Hhc Hi) as (l & _ & Hl). eapply Hlt. exact Hl.
Qed.

Lemma joined_lc_length (o : Op) : joined o -> length (lcJoinBuckets o) = length (lowCardSide o).
Proof. intros (byHash & _ & _ & Hlc & _). symmetry. eapply Forall2_length. exact Hlc. Qed.

(** Two series of the low-cardinality side with one signature have one
    bucket. *)
Lemma joined_same_signature (o : Op) (id1 id2 : uint64) (l1 l2 : Labels) :
  joined o ->
  index (lowCardSide o) id1 = Some l1 -> index (lowCardSide o) id2 = Some l2 ->
  sigFunc o l1 = sigFunc o l2 ->
  exists ptr, index (lcJoinBuckets o) id1 = Some ptr /\ index (lcJoinBuckets o) id2 = Some ptr.
Proof.
  intros (byHash & _ & _ & Hlc & _) H1' H2' Hsig.
  apply index_Some in H1' as [Hp1 H1']. apply index_Some in H2' as [Hp2 H2'].
  destruct (Forall2_lookup_l _ _ _ _ _ Hlc H1') as (p1 & Hq1 & Hb1).
  destruct (Forall2_lookup_l _ _ _ _ _ Hlc H2') as (p2 & Hq2 & Hb2).
  exists p1. rewrite Hsig in Hb1. assert (p2 = p1) as -> by congruence.
  split; apply index_Some; auto.
Qed.

Lemma updSample_hot (ts : int64) (lcs : StepVector) i id jp jp1 :
  updSample ts lcs i id jp = Some jp1 -> ats jp1 = ts.
Proof. unfold updSample. destruct (index (Samples lcs) i); [|discriminate]. intros [= <-]. reflexivity. Qed.

Lemma updHistogram_hot (ts : int64) (lcs : StepVector) i id jp jp1 :
  updHistogram ts lcs i id jp = Some jp1 -> ats jp1 = ts.
Proof. unfold updHistogram. destruct (index (Histograms lcs) i); [|discriminate]. intros [= <-]. reflexivity. Qed.

(** The low-cardinality loops of an arithmetic step, together. *)
Lemma populate_both (ts : int64) (lcs : StepVector) (o : Op) :
  joined o -> sidsBelow o (length (lowCardSide o)) -> parallel lcs ->
  idsBelow (SampleIDs lcs ++ HistogramIDs lcs) (length (lowCardSide o)) ->
  (exists j k idj idk lj lk,
      j <> k /\
      (SampleIDs lcs ++ HistogramIDs lcs) !! j = Some idj /\
      (SampleIDs lcs ++ HistogramIDs lcs) !! k = Some idk /\
      index (lowCardSide o) idj = Some lj /\ index (lowCardSide o) idk = Some lk /\
      sigFunc o lj = sigFunc o lk) ->
  exists dup orig o',
    (run _ <- populateSamples ts lcs; populateHistograms ts lcs) o
    = (Error (ManyToManyMatchError (matching o) dup orig (lowSide o)), o').
Proof.
  intros Hj Hsids [Hps Hph] Hids (j & k & idj & idk & lj & lk & Hjk & Hidj & Hidk & Hlj & Hlk & Hsig).
  pose proof (joined_pointersValid o Hj) as Hpv.
  pose proof (joined_lc_length o Hj) as Hlen.
  destruct (joined_same_signature o idj idk lj lk Hj Hlj Hlk Hsig) as (ptr & Hpj & Hpk).
  apply Forall_app in Hids as [Hids1 Hids2].
  set (n := length (lowCardSide o)) in *.
  rewrite (bind_congr _ _ _ _ (populateSamples_populate ts lcs o)).
  assert (forall i id jp jp1, updSample ts lcs i id jp = Some jp1 ->
            0 <= id < Z.of_nat n -> 0 <= sid jp < Z.of_nat n -> 0 <= sid jp1 < Z.of_nat n)
    as Hsid1.
  { intros i id jp jp1 Hu Hid _. unfold updSample in Hu.
    destruct (index (Samples lcs) i); [|discriminate]. injection Hu as <-. exact Hid. }
  assert (forall (q : nat) id jp, SampleIDs lcs !! q = Some id ->
            is_Some (updSample ts lcs (0 + Z.of_nat q) id jp)) as Htot1.
  { intros q id jp Hq. unfold updSample. apply lookup_lt_Some in Hq.
    destruct (proj2 (index_is_Some (Samples lcs) (0 + Z.of_nat q))) as [v Hv]; [lia|].
    rewrite Hv. eauto. }
  assert (idsBelow (SampleIDs lcs) (length (lcJoinBuckets o))) as Hb1
    by (unfold idsBelow; rewrite Hlen; exact Hids1).
  destruct (populate_safe ts (updSample ts lcs) n (SampleIDs lcs) Hsid1 0 o
              Hpv eq_refl Hb1 Hids1 Hsids Htot1)
    as [(s1 & Hrun1 & Hsame1 & Hsids1)|(dup & orig & s1 & Hrun1)].
  2:{ exists dup, orig, s1. rewrite (bind_Error _ _ _ _ _ Hrun1). reflexivity. }
  rewrite (bind_Ok _ _ _ _ _ Hrun1), populateHistograms_populate.
  pose proof Hsame1 as (Hlc1 & _ & _ & Hm1 & _ & _ & Hl1 & Hr1 & _).
  assert (lowCardSide s1 = lowCardSide o) as Hlow1
    by (unfold lowCardSide; rewrite Hm1, Hl1, Hr1; reflexivity).
  assert (lowSide s1 = lowSide o) as Hside1 by (unfold lowSide; rewrite Hm1; reflexivity).
  assert (forall i id jp jp1, updHistogram ts lcs i id jp = Some jp1 ->
            0 <= id < Z.of_nat n -> 0 <= sid jp < Z.of_nat n -> 0 <= sid jp1 < Z.of_nat n)
    as Hsid2.
  { intros i id jp jp1 Hu _ Hsid. unfold updHistogram in Hu.
    destruct (index (Histograms lcs) i); [|discriminate]. injection Hu as <-. exact Hsid. }
  assert (forall (q : nat) id jp, HistogramIDs lcs !! q = Some id ->
            is_Some (updHistogram ts lcs (0 + Z.of_nat q) id jp)) as Htot2.
  { intros q id jp Hq. unfold updHistogram. apply lookup_lt_Some in Hq.
    destruct (proj2 (index_is_Some (Histograms lcs) (0 + Z.of_nat q))) as [v Hv]; [lia|].
    rewrite Hv. eauto. }
  assert (idsBelow (HistogramIDs lcs) (length (lcJoinBuckets s1))) as Hb2
    by (unfold idsBelow; rewrite Hlc1, Hlen; exact Hids2).
  assert (length (lowCardSide s1) = n) as Hn1 by (rewrite Hlow1; reflexivity).
  destruct (populate_safe ts (updHistogram ts lcs) n (HistogramIDs lcs) Hsid2 0 s1
              (sameTables_pointersValid _ _ Hsame1 Hpv) Hn1 Hb2 Hids2 Hsids1 Htot2)
    as [(s2 & Hrun2 & Hsame2 & Hsids2)|(dup & orig & s2 & Hrun2)].
  2:{ exists dup, orig, s2. rewrite Hrun2, Hm1, Hside1. reflexivity. }
  exfalso.
  apply (populate_inv ts (updSample ts lcs) _ (updSample_hot ts lcs)) in Hrun1
    as (_ & _ & Hdone1 & _ & Hnodup1).
  apply (populate_inv ts (updHistogram ts lcs) _ (updHistogram_hot ts lcs)) in Hrun2
    as (_ & _ & Hdone2 & _ & Hnodup2).
  rewrite Hlc1 in Hdone2, Hnodup2.
  assert (forall (a b : nat) ida idb,
            SampleIDs lcs !! a = Some ida -> HistogramIDs lcs !! b = Some idb ->
            index (lcJoinBuckets o) ida = Some ptr -> index (lcJoinBuckets o) idb = Some ptr ->
            False) as Hcross.
  { intros a b ida idb Ha Hb Hpa Hpb.
    destruct (Hdone1 a ida Ha) as (pa & jpa & jpa1 & Hpa' & _ & _ & Hua & Hsa).
    destruct (Hdone2 b idb Hb) as (pb & jpb & jpb1 & Hpb' & Hsb & Hcold & _).
    assert (pa = ptr) as -> by congruence. assert (pb = ptr) as -> by congruence.
    apply updSample_hot in Hua. congruence. }
  destruct (proj1 (lookup_app_Some _ _ _ _) Hidj) as [Hj1|[Hj1 Hj2]];
    destruct (proj1 (lookup_app_Some _ _ _ _) Hidk) as [Hk1|[Hk1 Hk2]].
  - apply Hjk. eapply Hnodup1; eassumption.
  - eapply Hcross; eassumption.
  - eapply Hcross; eassumption.
  - assert (j - length (SampleIDs lcs) = k - length (SampleIDs lcs))%nat as Heq
      by (eapply Hnodup2; eassumption).
    lia.
Qed.

(** C3, as the code has it.  In an arithmetic or comparison step whose
    high-cardinality side has at least one float sample, two entries
    (samples or histograms) of the low-cardinality side with the same
    join signature make the step fail with the many-to-many match error
    of the low-cardinality side; [Next] fails with it when the step is
    the first of the batch, and no step vector is produced. *)
Theorem low_card_duplicates_fail (ctx : Context) (lhs rhs hcs lcs : StepVector) (o : Op) :
  isLogical (opType o) = false ->
  Card (matching o) <> CardManyToMany ->
  (hcs, lcs) = match Card (matching o) with
               | CardOneToMany => (rhs, lhs)
               | _ => (lhs, rhs)
               end ->
  Samples hcs <> [] ->
  joined o -> sidsBelow o (length (lowCardSide o)) -> parallel lcs ->
  idsBelow (SampleIDs lcs ++ HistogramIDs lcs) (length (lowCardSide o)) ->
  (exists j k idj idk lj lk,
      j <> k /\
      (SampleIDs lcs ++ HistogramIDs lcs) !! j = Some idj /\
      (SampleIDs lcs ++ HistogramIDs lcs) !! k = Some idk /\
      index (lowCardSide o) idj = Some lj /\ index (lowCardSide o) idk = Some lk /\
      sigFunc o lj = sigFunc o lk) ->
  exists dup orig,
    (exists o', execBinaryOperation ctx lhs rhs o
                = (Error (ManyToManyMatchError (matching o) dup orig (lowSide o)), o')) /\
    (forall restl restr,
       fst (nextLoop ctx (lhs :: restl) (rhs :: restr) o)
       = Error (ManyToManyMatchError (matching o) dup orig (lowSide o))).
Proof.
  intros Hop Hcard Hpart Hhc Hj Hsids Hpar Hids Hdup.
  destruct (populate_both (T lhs) lcs o Hj Hsids Hpar Hids Hdup) as (dup & orig & o' & Hpop).
  assert (execBinaryOperation ctx lhs rhs o
          = (Error (ManyToManyMatchError (matching o) dup orig (lowSide o)), o')) as Hexec.
  { unfold execBinaryOperation. rewrite bind_get.
    assert (execBinaryArithmetic ctx lhs rhs o
            = (Error (ManyToManyMatchError (matching o) dup orig (lowSide o)), o')) as Harith.
    { unfold execBinaryArithmetic. rewrite bind_get.
      assert (match Card (matching o) with
              | CardManyToOne | CardOneToOne => Some (lhs, rhs)
              | CardOneToMany => Some (rhs, lhs)
              | CardManyToMany => None
              end = Some (hcs, lcs)) as ->.
      { destruct (Card (matching o)); try contradiction; rewrite Hpart; reflexivity. }
      destruct (Samples hcs) as [|v vs]; [contradiction|]. cbn [length Nat.eqb].
      unfold bind in Hpop |- *.
      destruct (populateSamples (T lhs) lcs o) as [[[]|e|] s1];
        [|injection Hpop as -> ->; reflexivity|discriminate].
      destruct (populateHistograms (T lhs) lcs s1) as [[[]|e|] s2];
        [discriminate|injection Hpop as -> ->; reflexivity|discriminate]. }
    destruct (opType o); try discriminate; exact Harith. }
  exists dup, orig. split; [eauto|].
  intros restl restr. rewrite nextLoop_execPairs. cbn [zip zip_with execPairs].
  rewrite (bind_Error _ _ _ _ _ Hexec). reflexivity.
Qed.
End ManyToMany.

(** ** The high-cardinality side of an arithmetic step *)

Section Join.
Import Binary.
Context {L R : Type} `{VectorOperator L} `{VectorOperator R}.
Context `{LabelsLib} `{HistogramLib} `{MathLib}.

Abbreviation Op := (vectorOperator L R).

Lemma sameButBts_refl (s : Op) : sameButBts s s.
Proof.
  split; [apply sameTables_refl|]. intros ptr. destruct (buckets s !! ptr); auto.
Qed.

Lemma sameButBts_trans (s t u : Op) : sameButBts s t -> sameButBts t u -> sameButBts s u.
Proof.
  intros [Hst Hb1] [Htu Hb2]. split; [eapply sameTables_trans; eassumption|].
  intros ptr. specialize (Hb1 ptr). specialize (Hb2 ptr).
  destruct (buckets s !! ptr), (buckets t !! ptr), (buckets u !! ptr); try tauto.
  destruct Hb1 as (?&?&?&?&?), Hb2 as (?&?&?&?&?). repeat split; congruence.
Qed.

Lemma sameButBts_setBts (s : Op) (ptr : nat) (jp : joinBucket) (ts : int64) :
  buckets s !! ptr = Some jp ->
  sameButBts s (setBuckets (<[ptr := setBts ts jp]> (buckets s)) s).
Proof.
  intros Hjp. split; [apply sameTables_store, sameTables_refl|].
  intros q. cbn [buckets setBuckets]. destruct (decide (ptr = q)) as [->|Hne].
  - rewrite Hjp, list_lookup_insert_eq by (eapply lookup_lt_Some; exact Hjp). cbn. auto.
  - rewrite list_lookup_insert_ne by exact Hne. destruct (buckets s !! q); auto.
Qed.

Lemma sameButBts_warn (s : Op) (err : option error) (s1 : Op) :
  addToContext err s = (Ok tt, s1) -> sameButBts s s1.
Proof.
  destruct err as [e|]; intros [= <-]; [|apply sameButBts_refl].
  split; [apply sameTables_warn, sameTables_refl|].
  intros q. cbn. destruct (buckets s !! q); auto.
Qed.

Lemma joinedHistogram_ext (o s o' s' : Op) (ts : int64) (e : uint64 * option FloatHistogram) :
  sameTables o o' -> sameButBts s s' ->
  joinedHistogram o s ts e = joinedHistogram o' s' ts e.
Proof.
  intros (Hlc & Hhc & Hout & Hm & Hop & _) [_ Hb]. unfold joinedHistogram.
  rewrite Hhc. destruct (index (hcJoinBuckets o) e.1) as [ptr|]; [|reflexivity].
  specialize (Hb ptr). destruct (buckets s !! ptr) as [jp|], (buckets s' !! ptr) as [jp'|];
    try tauto.
  destruct Hb as (Hats & Hsid & _ & _ & Hhval). rewrite Hats, Hsid, Hhval.
  unfold computeBinaryPairing, outputSeriesID. rewrite Hm, Hop, Hout. reflexivity.
Qed.

(** The loop over the high-cardinality samples touches neither the
    histograms of the step under construction nor, in the buckets,
    anything but [bts]. *)
Lemma joinSamples_inv (ts : int64) (hcs step step' : StepVector) (s s' : Op) :
  joinSamples ts hcs step s = (Ok step', s') ->
  sameButBts s s' /\ T step' = T step /\
  HistogramIDs step' = HistogramIDs step /\ Histograms step' = Histograms step.
Proof.
  unfold joinSamples.
  apply (forRange_invariant
           (fun acc st => sameButBts s st /\ T acc = T step /\
                          HistogramIDs acc = HistogramIDs step /\
                          Histograms acc = Histograms step)).
  2:{ split; [apply sameButBts_refl|auto]. }
  intros i id acc st acc' st' _ (Hsame & Ht & Hids & Hhs) Hrun.
  apply bind_inv_Ok in Hrun as ([ptr jp] & st0 & Hb & Hrun).
  apply hcJoinBucket_inv in Hb as (-> & Hptr & Hjp).
  destruct (negb (ats jp =? ts)).
  { injection Hrun as <- <-. auto. }
  rewrite bind_get in Hrun.
  destruct ((bts jp =? ts) && isCardOneToOne (Card (matching st))); [discriminate|].
  apply bind_inv_Ok in Hrun as ([] & st1 & Hstore & Hrun). injection Hstore as <-.
  apply bind_inv_Ok in Hrun as (v & st2 & Hv & Hrun).
  destruct (index (Samples hcs) i) as [v0|]; [|discriminate]. injection Hv as <- <-.
  apply bind_inv_Ok in Hrun as ([[[f h] keep] err] & st3 & Hres & Hrun).
  match type of Hres with orPanic ?c _ = _ => destruct c as [res|]; [|discriminate] end.
  injection Hres as -> <-.
  apply bind_inv_Ok in Hrun as ([] & st4 & Hwarn & Hrun).
  assert (sameButBts s st4) as Hsame4.
  { eapply sameButBts_trans; [exact Hsame|].
    eapply sameButBts_trans; [apply sameButBts_setBts; exact Hjp|].
    eapply sameButBts_warn. exact Hwarn. }
  destruct (returnBool st); [|destruct (negb keep)]; injection Hrun as <- <-; auto.
Qed.

(** The loop over the high-cardinality histograms appends, in order, what
    [joinedHistogram] gives for each of them. *)
Lemma joinHistograms_loop_inv (ts : int64) (hcs : StepVector) (ids : list uint64) :
  forall (k0 : nat) (step step' : StepVector) (s s' : Op),
    length (drop k0 (Histograms hcs)) = length ids ->
    forRange
      (fun i hID step =>
         run (ptr, jp) <- hcJoinBucket hID;
         if negb (ats jp =? ts) then ret step
         else
           run o <- get;
           if (bts jp =? ts) && isCardOneToOne (Card (matching o)) then
             fail newImplicitManyToOneError
           else
             run _ <- storeBucket ptr (setBts ts jp);
             run hh <- orPanic (index (Histograms hcs) i);
             run res <- orPanic (computeBinaryPairing o f64_zero f64_zero hh (hval jp));
             let '(_, h, _, err) := res in
             run _ <- addToContext err;
             ret (AppendHistogram step
                    (outputSeriesID o (wrap64 (hID + 1)) (wrap64 (sid jp + 1))) h))
      (Z.of_nat k0) ids step s = (Ok step', s') ->
    sameButBts s s' /\ T step' = T step /\
    SampleIDs step' = SampleIDs step /\ Samples step' = Samples step /\
    HistogramIDs step'
    = HistogramIDs step
      ++ map fst (omap (joinedHistogram s s ts) (zip ids (drop k0 (Histograms hcs)))) /\
    Histograms step'
    = Histograms step
      ++ map snd (omap (joinedHistogram s s ts) (zip ids (drop k0 (Histograms hcs)))).
Proof.
  induction ids as [|hID rest IH]; intros k0 step step' s s' Hlen Hrun.
  - cbn in Hrun. injection Hrun as <- <-. split; [apply sameButBts_refl|].
    cbn. rewrite !app_nil_r. auto.
  - cbn [forRange] in Hrun. apply bind_inv_Ok in Hrun as (step1 & s1 & Hround & Hrest).
    destruct (drop k0 (Histograms hcs)) as [|hh hs] eqn:Hdrop; [discriminate|].
    assert (Histograms hcs !! k0 = Some hh) as Hhh
      by (rewrite <- (Nat.add_0_r k0), <- lookup_drop, Hdrop; reflexivity).
    assert (drop (Datatypes.S k0) (Histograms hcs) = hs) as Hdrop'.
    { rewrite <- (Nat.add_1_r k0), <- drop_drop, Hdrop. reflexivity. }
    replace (Z.of_nat k0 + 1) with (Z.of_nat (Datatypes.S k0)) in Hrest by lia.
    apply IH in Hrest as (Hsame1 & Ht1 & Hsid1 & Hs1 & Hhid1 & Hh1);
      [|rewrite Hdrop'; cbn in Hlen; lia].
    rewrite Hdrop' in Hhid1, Hh1.
    apply bind_inv_Ok in Hround as ([ptr jp] & st0 & Hb & Hround).
    apply hcJoinBucket_inv in Hb as (-> & Hptr & Hjp).
    assert (sameButBts s s1 /\ T step1 = T step /\
            SampleIDs step1 = SampleIDs step /\ Samples step1 = Samples step /\
            HistogramIDs step1
            = HistogramIDs step ++ map fst (option_list (joinedHistogram s s ts (hID, hh))) /\
            Histograms step1
            = Histograms step ++ map snd (option_list (joinedHistogram s s ts (hID, hh))))
      as (Hsame0 & Ht0 & Hsid0 & Hs0 & Hhid0 & Hh0).
    { unfold joinedHistogram. cbn [fst snd]. rewrite Hptr, Hjp.
      destruct (ats jp =? ts); cbn [negb] in Hround.
      2:{ injection Hround as <- <-. split; [apply sameButBts_refl|].
          cbn. rewrite !app_nil_r. auto. }
      rewrite bind_get in Hround.
      destruct ((bts jp =? ts) && isCardOneToOne (Card (matching s))); [discriminate|].
      apply bind_inv_Ok in Hround as ([] & st1 & Hstore & Hround). injection Hstore as <-.
      apply bind_inv_Ok in Hround as (hh' & st2 & Hv & Hround).
      assert (index (Histograms hcs) (Z.of_nat k0) = Some hh) as Hidx
        by (apply index_Some; rewrite Nat2Z.id; split; [lia|exact Hhh]).
      rewrite Hidx in Hv. injection Hv as <- <-.
      apply bind_inv_Ok in Hround as ([[[f h] keep] err] & st3 & Hres & Hround).
      destruct (computeBinaryPairing s f64_zero f64_zero hh (hval jp)) as [res|]; [|discriminate].
      injection Hres as -> <-.
      apply bind_inv_Ok in Hround as ([] & st4 & Hwarn & Hround).
      injection Hround as <- <-. split.
      { eapply sameButBts_trans; [apply sameButBts_setBts; exact Hjp|].
        eapply sameButBts_warn. exact Hwarn. }
      cbn. auto. }
    split; [eapply sameButBts_trans; eassumption|].
    split; [congruence|]. split; [congruence|]. split; [congruence|].
    assert (omap (joinedHistogram s1 s1 ts) (zip rest hs)
            = omap (joinedHistogram s s ts) (zip rest hs)) as Hext.
    { apply list_omap_ext, Forall_Forall2_diag, Forall_forall. intros e _.
      symmetry. apply joinedHistogram_ext; [apply Hsame0|exact Hsame0]. }
    rewrite Hhid1, Hh1, Hhid0, Hh0, Hext. cbn [zip zip_with].
    change (omap (joinedHistogram s s ts) ((hID, hh) :: zip_with pair rest hs))
      with (match joinedHistogram s s ts (hID, hh) with
            | Some y => y :: omap (joinedHistogram s s ts) (zip rest hs)
            | None => omap (joinedHistogram s s ts) (zip rest hs)
            end).
    destruct (joinedHistogram s s ts (hID, hh)) as [y|]; cbn [option_list map app];
      rewrite <- ?app_assoc, ?app_nil_r; auto.
Qed.

Lemma joinHistograms_inv (ts : int64) (hcs step step' : StepVector) (s s' : Op) :
  parallel hcs ->
  joinHistograms ts hcs step s = (Ok step', s') ->
  sameButBts s s' /\ T step' = T step /\
  SampleIDs step' = SampleIDs step /\ Samples step' = Samples step /\
  HistogramIDs step'
  = HistogramIDs step
    ++ map fst (omap (joinedHistogram s s ts) (zip (HistogramIDs hcs) (Histograms hcs))) /\
  Histograms step'
  = Histograms step
    ++ map snd (omap (joinedHistogram s s ts) (zip (HistogramIDs hcs) (Histograms hcs))).
Proof.
  intros [_ Hpar] Hrun.
  apply (joinHistograms_loop_inv ts hcs (HistogramIDs hcs) 0%nat step step' s s');
    [rewrite drop_0; exact Hpar|exact Hrun].
Qed.
End Join.

Section ArithmeticStep.
Import Binary.
Context {L R : Type} `{VectorOperator L} `{VectorOperator R}.
Context `{LabelsLib} `{HistogramLib} `{MathLib}.

Abbreviation Op := (vectorOperator L R).

Lemma vectorElemBinop_total (op : ItemType) (l r : float64) (hl hr : option FloatHistogram) :
  isArithmeticOrComparison op = true -> is_Some (vectorElemBinop op l r hl hr).
Proof.
  intros Hop. unfold vectorElemBinop.
  destruct op; try discriminate; destruct hl as [hl|], hr as [hr|]; eauto;
    match goal with
    | |- context [Add ?a ?b] => destruct (Add a b); eauto
    | |- context [Sub ?a ?b] => destruct (Sub a b); eauto
    end.
Qed.

(** What an arithmetic step that succeeds has done, loop by loop. *)
Lemma execBinaryArithmetic_inv (ctx : Context) (lhs rhs hcs lcs step : StepVector) (o o' : Op) :
  (hcs, lcs) = match Card (matching o) with
               | CardOneToMany => (rhs, lhs)
               | _ => (lhs, rhs)
               end ->
  Samples hcs <> [] ->
  execBinaryArithmetic ctx lhs rhs o = (Ok step, o') ->
  exists s1 s2 s3 step1,
    populate (T lhs) (updSample (T lhs) lcs) 0 (SampleIDs lcs) o = (Ok tt, s1) /\
    populate (T lhs) (updHistogram (T lhs) lcs) 0 (HistogramIDs lcs) s1 = (Ok tt, s2) /\
    joinSamples (T lhs) hcs (GetStepVector (T lhs)) s2 = (Ok step1, s3) /\
    joinHistograms (T lhs) hcs step1 s3 = (Ok step, o').
Proof.
  intros Hpart Hhc. unfold execBinaryArithmetic. rewrite bind_get.
  destruct (Card (matching o)); injection Hpart as -> ->; try discriminate;
    match type of Hhc with
    | Samples ?x <> [] => destruct (Samples x) as [|v vs] eqn:Hs; [contradiction|]
    end;
    cbn [length Nat.eqb]; intros Hrun;
    apply bind_inv_Ok in Hrun as ([] & s1 & Hp1 & Hrun);
    apply bind_inv_Ok in Hrun as ([] & s2 & Hp2 & Hrun);
    apply bind_inv_Ok in Hrun as (step1 & s3 & Hj1 & Hj2);
    rewrite populateSamples_populate in Hp1; rewrite populateHistograms_populate in Hp2;
    exists s1, s2, s3, step1; auto.
Qed.

Lemma sameTables_sym (s t : Op) : sameTables s t -> sameTables t s.
Proof. unfold sameTables. intros (?&?&?&?&?&?&?&?&?). repeat split; congruence. Qed.

Lemma sameButBts_ats (s t : Op) (ptr : nat) (jp' : joinBucket) :
  sameButBts s t -> buckets t !! ptr = Some jp' ->
  exists jp, buckets s !! ptr = Some jp /\ ats jp' = ats jp /\ sid jp' = sid jp /\
             hval jp' = hval jp.
Proof.
  intros [_ Hb] Hjp'. specialize (Hb ptr). rewrite Hjp' in Hb.
  destruct (buckets s !! ptr) as [jp|]; [|contradiction].
  exists jp. tauto.
Qed.

Lemma sameButBts_forward (s t : Op) (ptr : nat) (jp : joinBucket) :
  sameButBts s t -> buckets s !! ptr = Some jp ->
  exists jp', buckets t !! ptr = Some jp' /\ ats jp' = ats jp /\ sid jp' = sid jp /\
              hval jp' = hval jp.
Proof.
  intros [_ Hb] Hjp. specialize (Hb ptr). rewrite Hjp in Hb.
  destruct (buckets t !! ptr) as [jp'|]; [|contradiction].
  exists jp'. tauto.
Qed.

(** C1, as the code has it.  In an arithmetic or comparison step the
    operator returns the empty step when the high-cardinality side has
    neither samples nor histograms.  When that side has at least one
    float sample and the step does not fail, a bucket carries the
    timestamp exactly when an entry of the low-cardinality side points to
    it, the histogram of such an entry is the bucket's [hval], and for
    every high-cardinality histogram [hh] of series [hID] whose bucket
    carries the timestamp, the histogram that [computeBinaryPairing]
    gives -- [vectorElemBinop(op, 0, 0, hh, bucket.hval)], with the two
    operands exchanged for one-to-many matching -- is emitted at the
    output series [outputSeriesID(hID+1, bucket.sid+1)]; these are all
    the histograms of the step, in the order of the input. *)
Theorem arithmetic_step_histograms (ctx : Context) (lhs rhs hcs lcs step : StepVector)
    (o o' : Op) :
  isArithmeticOrComparison (opType o) = true ->
  Card (matching o) <> CardManyToMany ->
  (hcs, lcs) = match Card (matching o) with
               | CardOneToMany => (rhs, lhs)
               | _ => (lhs, rhs)
               end ->
  parallel hcs ->
  fresh (T lhs) o ->
  (Samples hcs = [] -> Histograms hcs = [] ->
   execBinaryOperation ctx lhs rhs o = (Ok (GetStepVector (T lhs)), o)) /\
  (Samples hcs <> [] ->
   execBinaryOperation ctx lhs rhs o = (Ok step, o') ->
   (forall ptr jp, buckets o' !! ptr = Some jp ->
      (ats jp = T lhs <->
       exists id, id ∈ SampleIDs lcs ++ HistogramIDs lcs /\
                  index (lcJoinBuckets o) id = Some ptr)) /\
   (forall (k : nat) id h,
      HistogramIDs lcs !! k = Some id -> Histograms lcs !! k = Some h ->
      exists ptr jp, index (lcJoinBuckets o) id = Some ptr /\
                     buckets o' !! ptr = Some jp /\ hval jp = h) /\
   (forall (k : nat) hID hh ptr jp,
      HistogramIDs hcs !! k = Some hID -> Histograms hcs !! k = Some hh ->
      index (hcJoinBuckets o) hID = Some ptr -> buckets o' !! ptr = Some jp ->
      ats jp = T lhs ->
      exists f h keep err,
        match Card (matching o) with
        | CardOneToMany => vectorElemBinop (opType o) f64_zero f64_zero (hval jp) hh
        | _ => vectorElemBinop (opType o) f64_zero f64_zero hh (hval jp)
        end = Some (f, h, keep, err) /\
        (outputSeriesID o (wrap64 (hID + 1)) (wrap64 (sid jp + 1)), h)
          ∈ zip (HistogramIDs step) (Histograms step)) /\
   HistogramIDs step
   = map fst (omap (joinedHistogram o o' (T lhs)) (zip (HistogramIDs hcs) (Histograms hcs))) /\
   Histograms step
   = map snd (omap (joinedHistogram o o' (T lhs)) (zip (HistogramIDs hcs) (Histograms hcs)))).
Proof.
  intros Hop Hcard Hpart Hpar Hfresh.
  assert (execBinaryOperation ctx lhs rhs o = execBinaryArithmetic ctx lhs rhs o) as Hexec.
  { unfold execBinaryOperation. rewrite bind_get. destruct (opType o); try discriminate; reflexivity. }
  rewrite Hexec. split.
  - intros Hs _. unfold execBinaryArithmetic. rewrite bind_get.
    destruct (Card (matching o)); injection Hpart as -> ->; try contradiction;
      rewrite Hs; reflexivity.
  - intros Hhc Hrun. set (ts := T lhs) in *.
    destruct (execBinaryArithmetic_inv ctx lhs rhs hcs lcs step o o' Hpart Hhc Hrun)
      as (s1 & s2 & s3 & step1 & Hp1 & Hp2 & Hj1 & Hj2).
    apply (populate_inv ts (updSample ts lcs) _ (updSample_hot ts lcs)) in Hp1
      as (Hsame1 & _ & Hdone1 & Hother1 & _).
    apply (populate_inv ts (updHistogram ts lcs) _ (updHistogram_hot ts lcs)) in Hp2
      as (Hsame2 & _ & Hdone2 & Hother2 & _).
    apply joinSamples_inv in Hj1 as (Hbts3 & _ & Hids1 & Hhs1).
    apply (joinHistograms_inv ts hcs step1 step s3 o' Hpar) in Hj2
      as (Hbts4 & _ & _ & _ & Hids & Hhs).
    cbn in Hids1, Hhs1. rewrite Hids1 in Hids. rewrite Hhs1 in Hhs. cbn [app] in Hids, Hhs.
    assert (lcJoinBuckets s1 = lcJoinBuckets o) as Hlc1 by apply Hsame1.
    rewrite Hlc1 in Hdone2, Hother2.
    assert (sameButBts s2 o') as Hbts by (eapply sameButBts_trans; eassumption).
    assert (sameTables o s3) as Hsame3.
    { eapply sameTables_trans; [exact Hsame1|].
      eapply sameTables_trans; [exact Hsame2|apply Hbts3]. }
    assert (forall e, joinedHistogram s3 s3 ts e = joinedHistogram o o' ts e) as Hjh.
    { intros e. apply joinedHistogram_ext; [apply sameTables_sym; exact Hsame3|exact Hbts4]. }
    assert (omap (joinedHistogram s3 s3 ts) (zip (HistogramIDs hcs) (Histograms hcs))
            = omap (joinedHistogram o o' ts) (zip (HistogramIDs hcs) (Histograms hcs))) as Hext.
    { apply list_omap_ext, Forall_Forall2_diag, Forall_forall. intros e _. apply Hjh. }
    rewrite Hext in Hids, Hhs.
    (* the buckets after the two loops over the low-cardinality side *)
    assert (forall ptr jp2, buckets s2 !! ptr = Some jp2 ->
              (ats jp2 = ts <->
               exists id, id ∈ SampleIDs lcs ++ HistogramIDs lcs /\
                          index (lcJoinBuckets o) id = Some ptr)) as Hpop.
    { intros ptr jp2 Hjp2.
      destruct (decide (Exists (fun id => index (lcJoinBuckets o) id = Some ptr)
                          (HistogramIDs lcs))) as [Hex2|Hno2].
      { apply Exists_exists in Hex2 as (id & Hin & Hptr).
        pose proof Hin as Hin'. apply list_elem_of_lookup in Hin' as (k & Hk).
        destruct (Hdone2 k id Hk) as (q & jq & jq1 & Hq & _ & _ & Hu & Hs2).
        assert (q = ptr) as -> by congruence.
        apply updHistogram_hot in Hu. split.
        - intros _. exists id. split; [apply elem_of_app; right; exact Hin|exact Hptr].
        - intros _. congruence. }
      rewrite Hother2 in Hjp2.
      2:{ intros id Hin Hptr. apply Hno2, Exists_exists. eauto. }
      destruct (decide (Exists (fun id => index (lcJoinBuckets o) id = Some ptr)
                          (SampleIDs lcs))) as [Hex1|Hno1].
      { apply Exists_exists in Hex1 as (id & Hin & Hptr).
        pose proof Hin as Hin'. apply list_elem_of_lookup in Hin' as (k & Hk).
        destruct (Hdone1 k id Hk) as (q & jq & jq1 & Hq & _ & _ & Hu & Hs1).
        assert (q = ptr) as -> by congruence.
        apply updSample_hot in Hu. split.
        - intros _. exists id. split; [apply elem_of_app; left; exact Hin|exact Hptr].
        - intros _. congruence. }
      rewrite Hother1 in Hjp2.
      2:{ intros id Hin Hptr. apply Hno1, Exists_exists. eauto. }
      split.
      - intros Hhot. exfalso. destruct (Hfresh ptr jp2 Hjp2) as [Hcold _]. contradiction.
      - intros (id & Hin & Hptr). exfalso. apply elem_of_app in Hin as [Hin|Hin].
        + apply Hno1, Exists_exists. eauto.
        + apply Hno2, Exists_exists. eauto. }
    split; [|split; [|split; [|split]]].
    + intros ptr jp Hjp.
      destruct (sameButBts_ats s2 o' ptr jp Hbts Hjp) as (jp2 & Hjp2 & Hats & _).
      rewrite Hats. apply Hpop. exact Hjp2.
    + intros k id h Hk Hh.
      destruct (Hdone2 k id Hk) as (q & jq & jq1 & Hq & _ & _ & Hu & Hs2).
      destruct (sameButBts_forward s2 o' q jq1 Hbts Hs2) as (jp' & Hjp' & _ & _ & Hhval).
      exists q, jp'. split; [exact Hq|]. split; [exact Hjp'|].
      rewrite Hhval. unfold updHistogram in Hu.
      assert (index (Histograms lcs) (0 + Z.of_nat k) = Some h) as Hidx
        by (apply index_Some; rewrite Z.add_0_l, Nat2Z.id; split; [lia|exact Hh]).
      rewrite Hidx in Hu. injection Hu as <-. reflexivity.
    + intros k hID hh ptr jp Hk Hh Hptr Hjp Hhot.
      destruct (vectorElemBinop_total (opType o) f64_zero f64_zero
                  (match Card (matching o) with CardOneToMany => hval jp | _ => hh end)
                  (match Card (matching o) with CardOneToMany => hh | _ => hval jp end) Hop)
        as ([[[f h] keep] err] & Hres).
      exists f, h, keep, err. split.
      { destruct (Card (matching o)); exact Hres. }
      rewrite Hids, Hhs, zip_fst_snd. apply list_elem_of_omap.
      exists (hID, hh). split.
      * apply list_elem_of_lookup. exists k. apply lookup_zip_with_Some.
        exists hID, hh. auto.
      * unfold joinedHistogram. cbn [fst snd]. rewrite Hptr, Hjp.
        destruct (Z.eqb_spec (ats jp) ts); [|contradiction].
        unfold computeBinaryPairing. destruct (Card (matching o)); rewrite Hres; reflexivity.
    + exact Hids.
    + exact Hhs.
Qed.
End ArithmeticStep.

(** ** The join tables after initialisation *)

Section InitJoin.
Import Binary.
Context {L R : Type} `{VectorOperator L} `{VectorOperator R}.
Context `{LabelsLib} `{HistogramLib} `{MathLib}.

Abbreviation Op := (vectorOperator L R).

Lemma initSide_body_inv (sigF : Labels -> uint64) (byHash0 : gmap Z nat) (pre : list Labels)
    (i : Z) (l : Labels) (t : joinTables) :
  sideInv sigF byHash0 pre t ->
  sideInv sigF byHash0 (pre ++ [l]) (initSide_body sigF i l t).
Proof.
  intros (Hinj & Hlt & Hmono & Hside & Hnew). unfold initSide_body.
  destruct (joinBucketsByHash t !! sigF l) as [jb|] eqn:Hjb; unfold sideInv;
    cbn [joinBucketsByHash heap sideJoinBuckets].
  - repeat split; auto. apply Forall2_app; [exact Hside|]. constructor; [exact Hjb|constructor].
  - assert (forall sg ptr, joinBucketsByHash t !! sg = Some ptr ->
                           <[sigF l := length (heap t)]> (joinBucketsByHash t) !! sg = Some ptr)
      as Hkeep.
    { intros sg ptr Hsg. rewrite lookup_insert_ne; [exact Hsg|]. intros <-. congruence. }
    split; [|split; [|split; [|split]]].
    + intros s1 s2 ptr H1' H2'.
      destruct (decide (sigF l = s1)) as [<-|Hn1], (decide (sigF l = s2)) as [<-|Hn2]; auto.
      * rewrite lookup_insert_eq in H1'. rewrite lookup_insert_ne in H2' by exact Hn2.
        injection H1' as <-. apply Hlt in H2'. lia.
      * rewrite lookup_insert_eq in H2'. rewrite lookup_insert_ne in H1' by exact Hn1.
        injection H2' as <-. apply Hlt in H1'. lia.
      * rewrite lookup_insert_ne in H1' by exact Hn1. rewrite lookup_insert_ne in H2' by exact Hn2.
        eapply Hinj; eassumption.
    + intros sg ptr Hsg. rewrite length_app. cbn.
      destruct (decide (sigF l = sg)) as [<-|Hn].
      * rewrite lookup_insert_eq in Hsg. injection Hsg as <-. lia.
      * rewrite lookup_insert_ne in Hsg by exact Hn. apply Hlt in Hsg. lia.
    + intros sg ptr Hsg. apply Hkeep, Hmono. exact Hsg.
    + apply Forall2_app.
      * eapply Forall2_impl; [exact Hside|]. intros l' ptr Hl'. apply Hkeep. exact Hl'.
      * constructor; [apply lookup_insert_eq|constructor].
    + apply Forall_app. split; [exact Hnew|]. constructor; [reflexivity|constructor].
Qed.

Lemma initSide_loop_inv (sigF : Labels -> uint64) (byHash0 : gmap Z nat) (side : list Labels) :
  forall (i : Z) (pre : list Labels) (t : joinTables),
    sideInv sigF byHash0 pre t ->
    sideInv sigF byHash0 (pre ++ side) (foldRange (initSide_body sigF) i side t).
Proof.
  induction side as [|l rest IH]; intros i pre t Hinv.
  - cbn. rewrite app_nil_r. exact Hinv.
  - cbn [foldRange]. replace (pre ++ l :: rest) with ((pre ++ [l]) ++ rest)
      by (rewrite <- app_assoc; reflexivity).
    apply IH, initSide_body_inv. exact Hinv.
Qed.

Lemma initSide_inv (sigF : Labels -> uint64) (side : list Labels)
    (byHash0 : gmap Z nat) (heap0 : list joinBucket) :
  (forall s1 s2 ptr, byHash0 !! s1 = Some ptr -> byHash0 !! s2 = Some ptr -> s1 = s2) ->
  (forall sg ptr, byHash0 !! sg = Some ptr -> (ptr < length heap0)%nat) ->
  Forall (fun jp => jp = newJoinBucket) heap0 ->
  sideInv sigF byHash0 side (initSide sigF side byHash0 heap0).
Proof.
  intros Hinj Hlt Hnew. unfold initSide.
  apply (initSide_loop_inv sigF byHash0 side 0 []).
  unfold sideInv. cbn. repeat split; auto.
Qed.

(** [initJoinTables] leaves the tables of a join whose buckets are all
    new. *)
Lemma initJoinTables_joined (hc lc : list Labels) (o o' : Op) :
  initJoinTables hc lc o = Some o' ->
  lowCardSide o = lc -> highCardSide o = hc ->
  joined o' /\ (forall ptr jp, buckets o' !! ptr = Some jp -> jp = newJoinBucket) /\
  matching o' = matching o /\ opType o' = opType o /\ returnBool o' = returnBool o /\
  lowCardSide o' = lc /\ highCardSide o' = hc.
Proof.
  unfold initJoinTables. intros Hinit Hlow Hhigh.
  set (lct := initSide (sigFunc o) lc ∅ []) in *.
  set (hct := initSide (sigFunc o) hc (joinBucketsByHash lct) (heap lct)) in *.
  destruct (initSeries (matching o) (opType o) (returnBool o) hc lc hct lct) as [[h om]|];
    [|discriminate].
  injection Hinit as <-.
  destruct (initSide_inv (sigFunc o) lc ∅ []) as (Hinj1 & Hlt1 & _ & Hside1 & Hnew1).
  { intros s1 s2 ptr Hs. rewrite lookup_empty in Hs. discriminate. }
  { intros sg ptr Hs. rewrite lookup_empty in Hs. discriminate. }
  { constructor. }
  fold lct in Hinj1, Hlt1, Hside1, Hnew1.
  destruct (initSide_inv (sigFunc o) hc (joinBucketsByHash lct) (heap lct) Hinj1 Hlt1 Hnew1)
    as (Hinj2 & Hlt2 & Hmono2 & Hside2 & Hnew2).
  fold hct in Hinj2, Hlt2, Hmono2, Hside2, Hnew2.
  split; [|split].
  - exists (joinBucketsByHash hct). unfold lowCardSide, highCardSide, sigFunc in *. cbn.
    rewrite Hlow, Hhigh. repeat split; auto.
    eapply Forall2_impl; [exact Hside1|]. intros l ptr Hl. apply Hmono2. exact Hl.
  - intros ptr jp Hjp. cbn in Hjp. rewrite Forall_forall in Hnew2. apply Hnew2.
    eapply list_elem_of_lookup_2. exact Hjp.
  - unfold lowCardSide, highCardSide in *. cbn. auto.
Qed.

(** The first call of [initOnce], when both children deliver their
    series. *)
Lemma initOnce_joined (ctx : Context) (o o' : Op) :
  once o = false ->
  initOnce ctx o = (Ok tt, o') ->
  joined o' /\ (forall ptr jp, buckets o' !! ptr = Some jp -> jp = newJoinBucket) /\
  matching o' = matching o /\ opType o' = opType o /\ returnBool o' = returnBool o /\
  once o' = true.
Proof.
  intros Honce. unfold initOnce. rewrite Honce. unfold init.
  destruct (Series ctx (lhs (setOnce o))) as [rl l1].
  destruct (Series ctx (rhs (setOnce o))) as [rr r1].
  destruct rr as [lowS|e|], rl as [highS|e'|]; try discriminate.
  set (o2 := {| once := _ |}).
  destruct (match Card (matching (setOnce o)) with
            | CardOneToMany => (lowS, highS)
            | _ => (highS, lowS)
            end) as [hc lc] eqn:Hside.
  destruct (initJoinTables hc lc o2) as [o3|] eqn:Hinit; [|discriminate].
  intros [= <-].
  destruct (initJoinTables_joined hc lc o2 o3 Hinit) as (Hj & Hnew & Hm & Hop & Hrb & _).
  - unfold lowCardSide. cbn in *. destruct (Card (matching o)); injection Hside as <- <-; reflexivity.
  - unfold highCardSide. cbn in *. destruct (Card (matching o)); injection Hside as <- <-; reflexivity.
  - repeat split; auto. unfold initJoinTables in Hinit.
    destruct (initSeries _ _ _ _ _ _ _) as [[h om]|]; [|discriminate].
    injection Hinit as <-. reflexivity.
Qed.
End InitJoin.

(** ** Arithmetic steps on concrete inputs *)

Section ArithmeticExamples.
Import Binary.

(** [a + on(x) b] at a step in which the two series [b], of one
    signature, both have a sample. *)
Lemma low_card_duplicates_fail_witness :
  let lhsV := floatStep 0 [0; 1] [f64_two; f64_two] in
  let rhsV := floatStep 0 [0; 1] [f64_three; f64_three] in
  let o := snd (initOnce background (vectorOver (onX CardOneToOne) ADD [lhsV] [rhsV])) in
  isLogical (opType o) = false /\
  Samples lhsV <> [] /\
  exists dup orig,
    fst (execBinaryOperation background lhsV rhsV o)
    = Error (ManyToManyMatchError (onX CardOneToOne) dup orig rhBinOpSide).
Proof.
  intros lhsV rhsV o.
  split; [vm_compute; reflexivity|]. split; [discriminate|].
  assert (Hinit : initOnce background (vectorOver (onX CardOneToOne) ADD [lhsV] [rhsV])
                  = (Ok tt, o)) by (vm_compute; reflexivity).
  destruct (initOnce_joined background (vectorOver (onX CardOneToOne) ADD [lhsV] [rhsV]) o
              eq_refl Hinit) as (Hj & Hnew & Hm & Hop & _).
  cbn in Hm, Hop.
  assert (Hlow : lowCardSide o = bSeries) by (vm_compute; reflexivity).
  assert (Hsids : sidsBelow o (length (lowCardSide o))).
  { intros ptr jp Hjp. rewrite (Hnew ptr jp Hjp), Hlow. cbn. lia. }
  assert (Hids : idsBelow (SampleIDs rhsV ++ HistogramIDs rhsV) (length (lowCardSide o))).
  { rewrite Hlow. repeat constructor; cbn; lia. }
  destruct (low_card_duplicates_fail background lhsV rhsV lhsV rhsV o) as (dup & orig & Hexec & _).
  - rewrite Hop. reflexivity.
  - rewrite Hm. discriminate.
  - rewrite Hm. reflexivity.
  - discriminate.
  - exact Hj.
  - exact Hsids.
  - split; reflexivity.
  - exact Hids.
  - exists 0%nat, 1%nat, 0, 1.
    exists {[ MetricName := "b"; "x" := "1" ]}, {[ MetricName := "b"; "x" := "1"; "y" := "Y" ]}.
    split; [discriminate|]. repeat split; vm_compute; reflexivity.
  - exists dup, orig. destruct Hexec as (o' & Hexec). rewrite Hexec, Hm.
    unfold lowSide. rewrite Hm. reflexivity.
Defined.

(** C3 as stated fails when the high-cardinality side has no sample at
    the step: the two series [b] of one signature both have a sample,
    and the step is the empty step, without an error. *)
Lemma duplicates_unseen_without_high_card_samples :
  let lhsV := floatStep 0 [] [] in
  let rhsV := floatStep 0 [0; 1] [f64_three; f64_three] in
  let o := snd (initOnce background (vectorOver (onX CardOneToOne) ADD [lhsV] [rhsV])) in
  sigFunc o {[ MetricName := "b"; "x" := "1" ]}
  = sigFunc o {[ MetricName := "b"; "x" := "1"; "y" := "Y" ]} /\
  fst (execBinaryOperation background lhsV rhsV o) = Ok (floatStep 0 [] []) /\
  fst (vectorOperator_Next background (vectorOver (onX CardOneToOne) ADD [lhsV] [rhsV]))
  = Ok (Some [floatStep 0 [] []]).
Proof. repeat split; vm_compute; reflexivity. Qed.

(** [a + on(x) b] at a step in which series 0 of [a] has a histogram and
    series 1 a float sample, and series 0 of [b] has a histogram. *)
Lemma arithmetic_step_histograms_witness :
  let lhsV := {| T := 0; SampleIDs := [1]; Samples := [f64_two];
                 HistogramIDs := [0]; Histograms := [Some (histogramOf f64_two)] |} in
  let rhsV := {| T := 0; SampleIDs := []; Samples := [];
                 HistogramIDs := [0]; Histograms := [Some (histogramOf f64_three)] |} in
  let o := snd (initOnce background (vectorOver (onX CardOneToOne) ADD [lhsV] [rhsV])) in
  isArithmeticOrComparison (opType o) = true /\
  exists step o',
    execBinaryOperation background lhsV rhsV o = (Ok step, o') /\
    HistogramIDs step
    = map fst (omap (joinedHistogram o o' 0) (zip (HistogramIDs lhsV) (Histograms lhsV))) /\
    HistogramIDs step = [0].
Proof.
  intros lhsV rhsV o.
  split; [vm_compute; reflexivity|].
  assert (Hinit : initOnce background (vectorOver (onX CardOneToOne) ADD [lhsV] [rhsV])
                  = (Ok tt, o)) by (vm_compute; reflexivity).
  destruct (initOnce_joined background (vectorOver (onX CardOneToOne) ADD [lhsV] [rhsV]) o
              eq_refl Hinit) as (_ & Hnew & Hm & Hop & _).
  cbn in Hm, Hop.
  assert (Hfresh : fresh (T lhsV) o).
  { intros ptr jp Hjp. rewrite (Hnew ptr jp Hjp). cbn. split; discriminate. }
  assert (Hok : exists step o', execBinaryOperation background lhsV rhsV o = (Ok step, o'))
    by (vm_compute; eexists _, _; reflexivity).
  destruct Hok as (step & o' & Hrun).
  assert (Hcard : Card (matching o) <> CardManyToMany) by (rewrite Hm; discriminate).
  assert (Hsamples : Samples lhsV <> []) by discriminate.
  assert (Hopt : isArithmeticOrComparison (opType o) = true) by (rewrite Hop; reflexivity).
  assert (Hpart : (lhsV, rhsV) = match Card (matching o) with
                                 | CardOneToMany => (rhsV, lhsV)
                                 | _ => (lhsV, rhsV)
                                 end) by (rewrite Hm; reflexivity).
  destruct (arithmetic_step_histograms background lhsV rhsV lhsV rhsV step o o'
              Hopt Hcard Hpart (conj eq_refl eq_refl) Hfresh) as [_ Hstep].
  destruct (Hstep Hsamples Hrun) as (_ & _ & _ & Hids & _).
  exists step, o'. split; [exact Hrun|]. split; [exact Hids|].
  assert (Hs : HistogramIDs (match fst (execBinaryOperation background lhsV rhsV o) with
                             | Ok s => s
                             | _ => lhsV
                             end) = [0]) by (vm_compute; reflexivity).
  rewrite Hrun in Hs. exact Hs.
Defined.

(** C1 as stated fails for one-to-many matching, where the operands are
    exchanged: in [b == on(x) group_right a] the histogram of series 0
    of [a] (the high-cardinality side) has its bucket populated by the
    histogram of series 0 of [b]; the step emits the histogram of [b],
    which is the left operand, and not the one that
    [vectorElemBinop(op, 0, 0, hcHist, bucket.hval)] returns. *)
Lemma one_to_many_exchanges_operands :
  let lhsV := {| T := 0; SampleIDs := []; Samples := [];
                 HistogramIDs := [0]; Histograms := [Some (histogramOf f64_three)] |} in
  let rhsV := {| T := 0; SampleIDs := [1]; Samples := [f64_two];
                 HistogramIDs := [0]; Histograms := [Some (histogramOf f64_two)] |} in
  let o := snd (initOnce background
                  (vectorBetween [ {[ MetricName := "b"; "x" := "1" ]} ] aSeries
                     (onX CardOneToMany) EQLC [lhsV] [rhsV])) in
  fst (execBinaryOperation background lhsV rhsV o)
  = Ok {| T := 0; SampleIDs := []; Samples := [];
          HistogramIDs := [0]; Histograms := [Some (histogramOf f64_three)] |} /\
  vectorElemBinop EQLC f64_zero f64_zero (Some (histogramOf f64_two)) (Some (histogramOf f64_three))
  = Some (f64_zero, Some (histogramOf f64_two), false, None) /\
  histogramOf f64_three <> histogramOf f64_two.
Proof.
  repeat split; try (vm_compute; reflexivity). intros Heq. discriminate Heq.
Qed.

(** The shortcut of the step looks at the float samples only: a
    high-cardinality side with a histogram and no float sample gives the
    empty step, although the low-cardinality side has the matching
    histogram. *)
Example histogram_only_step_is_dropped :
  let lhsV := {| T := 0; SampleIDs := []; Samples := [];
                 HistogramIDs := [0]; Histograms := [Some (histogramOf f64_two)] |} in
  let rhsV := {| T := 0; SampleIDs := []; Samples := [];
                 HistogramIDs := [0]; Histograms := [Some (histogramOf f64_three)] |} in
  let o := snd (initOnce background (vectorOver (onX CardOneToOne) ADD [lhsV] [rhsV])) in
  fst (execBinaryOperation background lhsV rhsV o) = Ok (floatStep 0 [] []).
Proof. vm_compute. reflexivity. Qed.
End ArithmeticExamples.

(** * Equality of histograms in [vectorElemBinop] *)

Section HistogramEquality.
Context `{HistogramLib} `{MathLib}.

(** On two histograms [==] and [!=] hand the operands to [Equals] as
    they are: [vectorElemBinop] has no call of [Compact] on this path. *)
Lemma vectorElemBinop_equality_as_given (lhs rhs : float64) (hl hr : FloatHistogram) :
  Binary.vectorElemBinop Binary.EQLC lhs rhs (Some hl) (Some hr)
    = Some (f64_zero, Some hl, Equals hl hr, None)
  /\ Binary.vectorElemBinop Binary.NEQ lhs rhs (Some hl) (Some hr)
    = Some (f64_zero, Some hl, negb (Equals hl hr), None).
Proof. split; reflexivity. Qed.

(** C7 (as the code has it): for two histogram operands that are already
    compacted ([Compact(0)] leaves each of them as it is), [==] keeps the
    pair exactly when the two histograms are equal after compaction and
    [!=] exactly when they are not; the histogram returned is the left
    operand, the float returned is 0 and there is no error.  The keep
    flag is [hlhs.Equals(hrhs)] on the operands as given. *)
Theorem histogram_equality_of_compacted (lhs rhs : float64) (hl hr : FloatHistogram) :
  Compact hl 0 = hl ->
  Compact hr 0 = hr ->
  Binary.vectorElemBinop Binary.EQLC lhs rhs (Some hl) (Some hr)
    = Some (f64_zero, Some hl, Equals (Compact hl 0) (Compact hr 0), None)
  /\ Binary.vectorElemBinop Binary.NEQ lhs rhs (Some hl) (Some hr)
    = Some (f64_zero, Some hl, negb (Equals (Compact hl 0) (Compact hr 0)), None)
  /\ Equals hl hr = Equals (Compact hl 0) (Compact hr 0).
Proof.
  intros Hl Hr. rewrite Hl, Hr.
  split; [reflexivity | split; reflexivity].
Qed.

End HistogramEquality.

(** Two compacted histograms of different sums: [==] drops the pair and
    [!=] keeps it. *)
Lemma histogram_equality_of_compacted_witness :
  Compact (histogramOf f64_two) 0 = histogramOf f64_two
  /\ Compact (histogramOf f64_three) 0 = histogramOf f64_three
  /\ Binary.vectorElemBinop Binary.EQLC f64_zero f64_zero
       (Some (histogramOf f64_two)) (Some (histogramOf f64_three))
     = Some (f64_zero, Some (histogramOf f64_two), false, None)
  /\ Binary.vectorElemBinop Binary.NEQ f64_zero f64_zero
       (Some (histogramOf f64_two)) (Some (histogramOf f64_three))
     = Some (f64_zero, Some (histogramOf f64_two), true, None).
Proof.
  assert (Hl : Compact (histogramOf f64_two) 0 = histogramOf f64_two)
    by (vm_compute; reflexivity).
  assert (Hr : Compact (histogramOf f64_three) 0 = histogramOf f64_three)
    by (vm_compute; reflexivity).
  destruct (histogram_equality_of_compacted f64_zero f64_zero
              (histogramOf f64_two) (histogramOf f64_three) Hl Hr)
    as (Heq & Hneq & _).
  split; [exact Hl | split; [exact Hr | split]].
  - rewrite Heq. vm_compute. reflexivity.
  - rewrite Hneq. vm_compute. reflexivity.
Defined.

(** A histogram with an empty bucket and its compacted form are equal
    after compaction, and [==] drops the pair: the operands are compared
    as they are stored. *)
Lemma uncompacted_histograms_compare_unequal :
  Binary.vectorElemBinop Binary.EQLC f64_zero f64_zero
    (Some paddedHistogram) (Some compactHistogram)
  = Some (f64_zero, Some paddedHistogram, false, None)
  /\ Binary.vectorElemBinop Binary.NEQ f64_zero f64_zero
    (Some paddedHistogram) (Some compactHistogram)
  = Some (f64_zero, Some paddedHistogram, true, None)
  /\ Compact paddedHistogram 0 = compactHistogram
  /\ Compact compactHistogram 0 = compactHistogram
  /\ Equals (Compact paddedHistogram 0) (Compact compactHistogram 0) = true.
Proof. vm_compute. repeat split; reflexivity. Qed.

(** * The instant function [round] *)

(** ** Multiplication and division by one on binary64

    [SFmul] and [SFdiv] round their exact result with
    [binary_round_aux]; on a mantissa that is a valid one shifted left
    the rounding shifts it back and changes nothing. *)

Lemma iter_pos_nat {A} (f : A -> A) (p : positive) (x : A) :
  SpecFloat.iter_pos f p x = Nat.iter (Pos.to_nat p) f x.
Proof.
  revert x. induction p as [p IH | p IH |]; intros x; cbn [SpecFloat.iter_pos].
  - rewrite !IH, Pos2Nat.inj_xI.
    replace (Datatypes.S (2 * Pos.to_nat p)) with (Pos.to_nat p + (Pos.to_nat p + 1))%nat by lia.
    rewrite !Nat.iter_add. reflexivity.
  - rewrite !IH, Pos2Nat.inj_xO.
    replace (2 * Pos.to_nat p)%nat with (Pos.to_nat p + Pos.to_nat p)%nat by lia.
    rewrite Nat.iter_add. reflexivity.
  - reflexivity.
Qed.

Lemma shr_1_iter (k : nat) (m : positive) :
  Nat.iter k shr_1 (Build_shr_record (Zpos (Nat.iter k xO m)) false false)
  = Build_shr_record (Zpos m) false false.
Proof.
  induction k as [|k IH]; [reflexivity|].
  rewrite Nat.iter_succ_r. cbn [Nat.iter nat_rect]. exact IH.
Qed.

Lemma digits2_pos_iter (k : nat) (m : positive) :
  Zpos (digits2_pos (Nat.iter k xO m)) = Zpos (digits2_pos m) + Z.of_nat k.
Proof.
  induction k as [|k IH]; [cbn; lia|].
  cbn [Nat.iter nat_rect digits2_pos]. rewrite Pos2Z.inj_succ. 
  change (nat_rect _ m (fun _ => xO) k) with (Nat.iter k xO m). lia.
Qed.

Lemma binary_round_aux_exact (s : bool) (m : positive) (e : Z) (k : nat) :
  bounded prec emax m e = true ->
  binary_round_aux prec emax s (Zpos (Nat.iter k xO m)) (e - Z.of_nat k) loc_Exact
  = S754_finite s m e.
Proof.
  intros Hb. unfold bounded, canonical_mantissa in Hb.
  apply andb_prop in Hb as [Hc He]. apply Z.eqb_eq in Hc.
  unfold binary_round_aux, shr_fexp.
  cbn [Zdigits2 shr_record_of_loc].
  rewrite digits2_pos_iter.
  replace (Z.pos (digits2_pos m) + Z.of_nat k + (e - Z.of_nat k)) with (Z.pos (digits2_pos m) + e) by lia.
  rewrite Hc.
  replace (e - (e - Z.of_nat k)) with (Z.of_nat k) by lia.
  assert (Hshr : shr (Build_shr_record (Zpos (Nat.iter k xO m)) false false) (e - Z.of_nat k) (Z.of_nat k)
                 = (Build_shr_record (Zpos m) false false, e)).
  { destruct k as [|k].
    - cbn [Z.of_nat shr Nat.iter nat_rect]. rewrite Z.sub_0_r. reflexivity.
    - change (Z.of_nat (Datatypes.S k)) with (Zpos (Pos.of_succ_nat k)).
      unfold shr.
      rewrite iter_pos_nat, SuccNat2Pos.id_succ, shr_1_iter.
      f_equal. lia. }
  rewrite Hshr. cbn [shr_m loc_of_shr_record round_nearest_even Zdigits2 shr_record_of_loc].
  rewrite Hc, Z.sub_diag. cbn [shr shr_m]. rewrite He. reflexivity.
Qed.

Lemma f64_mul_one (x : float64) :
  f64_valid x = true -> f64_mul x f64_one = x.
Proof.
  destruct x as [s | s | | s m e]; intros Hv.
  - cbn. destruct s; reflexivity.
  - cbn. destruct s; reflexivity.
  - reflexivity.
  - unfold f64_mul, f64_one, SFmul.
    replace (m * 4503599627370496)%positive with (Nat.iter 52 xO m)
      by (rewrite Pos.mul_comm; reflexivity).
    change (e + -52) with (e - Z.of_nat 52).
    rewrite (binary_round_aux_exact _ m e 52 Hv).
    destruct s; reflexivity.
Qed.

Lemma new_location_zero (n : Z) : new_location n 0 = loc_Exact.
Proof. unfold new_location. destruct (Z.even n); reflexivity. Qed.

Lemma f64_div_one (x : float64) :
  f64_valid x = true -> f64_div x f64_one = x.
Proof.
  destruct x as [s | s | | s m e]; intros Hv.
  - cbn. destruct s; reflexivity.
  - cbn. destruct s; reflexivity.
  - reflexivity.
  - unfold f64_div, f64_one, SFdiv, SFdiv_core_binary.
    pose proof Hv as Hb. unfold f64_valid, valid_binary, bounded, canonical_mantissa in Hb.
    apply andb_prop in Hb as [Hc _]. apply Z.eqb_eq in Hc.
    change (Zdigits2 (Z.pos m)) with (Z.pos (digits2_pos m)).
    change (Zdigits2 4503599627370496) with 53.
    set (d := Z.pos (digits2_pos m)) in *.
    set (e' := Z.min (fexp prec emax (d + e - (53 + -52))) (e - -52)).
    assert (He' : e' = e \/ e' = e - 1).
    { subst e'. unfold fexp, emin, prec, emax in *. lia. }
    assert (Hdiv : forall k : Z, 0 <= k ->
              Z.div_eucl (Z.pos m * 2 ^ k * 4503599627370496) 4503599627370496
              = (Z.pos m * 2 ^ k, 0)).
    { intros k Hk.
      pose proof (Z_div_mod_full (Z.pos m * 2 ^ k * 4503599627370496) 4503599627370496) as Hdm.
      destruct (Z.div_eucl _ _) as [q r]. 
      destruct Hdm as [Heq Hr]; [lia|]. 
      unfold Remainder in Hr. f_equal; nia. }
    destruct He' as [-> | ->].
    + replace (e - -52 - e) with 52 by lia.
      cbv beta iota.
      replace (Z.shiftl (Z.pos m) 52) with (Z.pos m * 2 ^ 0 * 4503599627370496)
        by (rewrite Z.shiftl_mul_pow2; lia).
      rewrite (Hdiv 0) by lia. rewrite new_location_zero.
      replace (Z.pos m * 2 ^ 0) with (Z.pos (Nat.iter 0 xO m)) by (cbn; lia).
      replace e with (e - Z.of_nat 0) at 1 by lia.
      rewrite (binary_round_aux_exact _ m e 0 Hv).
      destruct s; reflexivity.
    + replace (e - -52 - (e - 1)) with 53 by lia.
      cbv beta iota.
      replace (Z.shiftl (Z.pos m) 53) with (Z.pos m * 2 ^ 1 * 4503599627370496)
        by (rewrite Z.shiftl_mul_pow2; lia).
      rewrite (Hdiv 1) by lia. rewrite new_location_zero.
      replace (Z.pos m * 2 ^ 1) with (Z.pos (Nat.iter 1 xO m)) by (cbn; lia).
      change (e - 1) with (e - Z.of_nat 1).
      rewrite (binary_round_aux_exact _ m e 1 Hv).
      destruct s; reflexivity.
Qed.

Section Round.
Context `{MathLib}.

(** C8: for a float sample [v] and no histogram, [round] with the
    default [toNearest] of 1 (no argument, or the argument 1) returns
    [math.Floor(v + 0.5)] and keeps the sample; with a histogram it
    returns 0 and the flag [false], whatever the arguments, so that the
    sample is dropped.  [v] and the value of [math.Floor] are binary64
    values. *)
Theorem round_default_is_floor (v : float64) (vargs : list float64) :
  f64_valid v = true ->
  f64_valid (Floor (f64_add v f64_half)) = true ->
  vargs = [] \/ vargs = [f64_one] ->
  InstantFunctions.round v None vargs = (Floor (f64_add v f64_half), true)
  /\ (forall (f : float64) (h : FloatHistogram) (args : list float64),
       InstantFunctions.round f (Some h) args = (f64_zero, false)).
Proof.
  intros Hv Hfl Hargs. split; [|reflexivity].
  assert (Hone : f64_div f64_one f64_one = f64_one) by (vm_compute; reflexivity).
  destruct Hargs as [-> | ->]; unfold InstantFunctions.round; cbn [length Nat.ltb Nat.leb];
    rewrite Hone, (f64_mul_one v Hv), (f64_div_one _ Hfl); reflexivity.
Qed.

End Round.

(** [round(2.5) = 3] with [math.Floor] computed on binary64. *)
Lemma round_default_is_floor_witness :
  f64_valid f64_two_and_a_half = true
  /\ f64_valid (Floor (f64_add f64_two_and_a_half f64_half)) = true
  /\ InstantFunctions.round f64_two_and_a_half None [] = (f64_three, true).
Proof.
  assert (Hv : f64_valid f64_two_and_a_half = true) by (vm_compute; reflexivity).
  assert (Hfl : f64_valid (Floor (f64_add f64_two_and_a_half f64_half)) = true)
    by (vm_compute; reflexivity).
  split; [exact Hv | split; [exact Hfl|]].
  rewrite (proj1 (round_default_is_floor f64_two_and_a_half [] Hv Hfl (or_introl eq_refl))).
  vm_compute. reflexivity.
Defined.

Import JoinSpec.

(** * Output series of the vector-vector operator *)

Section Pairing.
Import Binary.

Lemma wrap64_small (z : Z) : 0 <= z < 2 ^ 64 -> wrap64 z = z.
Proof. intros Hz. unfold wrap64. apply Z.mod_small. exact Hz. Qed.

Lemma cantorPairing_exact (hc lc : uint64) :
  0 <= hc -> 0 <= lc -> hc + lc < 2 ^ 32 ->
  cantorPairing hc lc = (hc + lc) * (hc + lc + 1) / 2 + lc.
Proof.
  intros Hhc Hlc Hsum. unfold cantorPairing.
  assert (Hpow : 2 ^ 64 = 2 ^ 32 * 2 ^ 32) by reflexivity.
  assert (H32 : 0 < 2 ^ 32) by reflexivity.
  assert (Hprod : 0 <= (hc + lc) * (hc + lc + 1) < 2 ^ 64) by nia.
  rewrite (wrap64_small (hc + lc)) by lia.
  rewrite (wrap64_small (hc + lc + 1)) by lia.
  rewrite (wrap64_small _ Hprod).
  apply wrap64_small.
  assert ((hc + lc) * (hc + lc + 1) / 2 <= (hc + lc) * (hc + lc + 1)) by
    (apply Z.div_le_upper_bound; lia).
  assert (0 <= (hc + lc) * (hc + lc + 1) / 2) by (apply Z.div_pos; lia).
  assert ((hc + lc) * (hc + lc + 1) / 2 * 2 <= (hc + lc) * (hc + lc + 1)).
  { pose proof (Z.mul_div_le ((hc + lc) * (hc + lc + 1)) 2). lia. }
  nia.
Qed.

Lemma triangle_step (s : Z) :
  0 <= s -> (s + 1) * (s + 2) / 2 = s * (s + 1) / 2 + s + 1.
Proof.
  intros Hs. replace ((s + 1) * (s + 2)) with (s * (s + 1) + (s + 1) * 2) by lia.
  rewrite Z.div_add by lia. lia.
Qed.

Lemma triangle_mono (s t : Z) :
  0 <= s -> s < t -> s * (s + 1) / 2 + s < t * (t + 1) / 2.
Proof.
  intros Hs Hst.
  assert (Hle : forall k : nat, (s + 1) * (s + 2) / 2 <= (s + 1 + Z.of_nat k) * (s + 2 + Z.of_nat k) / 2).
  { intros k. apply Z.div_le_mono; [lia|]. nia. }
  specialize (Hle (Z.to_nat (t - s - 1))).
  rewrite Z2Nat.id in Hle by lia.
  replace (s + 1 + (t - s - 1)) with t in Hle by lia.
  replace (s + 2 + (t - s - 1)) with (t + 1) in Hle by lia.
  rewrite triangle_step in Hle by lia. lia.
Qed.

(** [cantorPairing] has no collision on arguments whose sum stays below
    [2^32], where its arithmetic does not wrap around: two different
    pairs of series get two different keys of the output map. *)
Theorem cantorPairing_injective (hc lc hc' lc' : uint64) :
  0 <= hc -> 0 <= lc -> 0 <= hc' -> 0 <= lc' ->
  hc + lc < 2 ^ 32 -> hc' + lc' < 2 ^ 32 ->
  hc <> hc' \/ lc <> lc' ->
  cantorPairing hc lc <> cantorPairing hc' lc'.
Proof.
  intros Hhc Hlc Hhc' Hlc' Hs Hs' Hne Heq.
  rewrite !cantorPairing_exact in Heq by assumption.
  destruct (Z.lt_trichotomy (hc + lc) (hc' + lc')) as [Hlt | [Hsum | Hgt]].
  - pose proof (triangle_mono (hc + lc) (hc' + lc')). lia.
  - rewrite Hsum in Heq. lia.
  - pose proof (triangle_mono (hc' + lc') (hc + lc)). lia.
Qed.
End Pairing.

Lemma cantorPairing_injective_witness :
  Binary.cantorPairing 3 1 <> Binary.cantorPairing 1 3.
Proof. apply cantorPairing_injective; lia. Defined.

Section OutputSeries.
Import Binary.
Context `{LabelsLib}.

Lemma helperInv_empty : helperInv {| seen := ∅; ls := []; n := 0 |}.
Proof.
  split; [reflexivity|]. split; [|split].
  - intros hash k Hk. cbn in Hk. rewrite lookup_empty in Hk. discriminate.
  - intros l Hl. inversion Hl.
  - constructor.
Qed.

Lemma joinHelper_append_inv (h : joinHelper) (l : Labels) :
  helperInv h ->
  helperInv (snd (joinHelper_append h l)) /\
  n h <= n (snd (joinHelper_append h l)) /\
  0 <= fst (joinHelper_append h l) < n (snd (joinHelper_append h l)) /\
  (exists l', index (ls (snd (joinHelper_append h l))) (fst (joinHelper_append h l)) = Some l' /\
              Hash l' = Hash l) /\
  prefix (ls h) (ls (snd (joinHelper_append h l))) /\
  joinHelper_append (snd (joinHelper_append h l)) l = joinHelper_append h l.
Proof.
  intros (Hn & Hseen & Hall & Hnd). unfold joinHelper_append.
  destruct (seen h !! Hash l) as [k|] eqn:Hk; cbn [fst snd].
  - destruct (Hseen _ _ Hk) as (l' & Hl' & Hhash).
    split; [repeat split; assumption|]. split; [lia|].
    pose proof Hl' as Hidx. apply index_Some in Hidx as [Hk0 Hlk].
    apply lookup_lt_Some in Hlk.
    split; [lia|]. split; [eauto|]. split; [reflexivity|].
    rewrite Hk. reflexivity.
  - assert (Hfresh : Hash l ∉ map Hash (ls h)).
    { intros Hin. apply list_elem_of_fmap in Hin as (l0 & Hl0 & Hin).
      destruct (Hall _ Hin) as [k Hk0]. rewrite <- Hl0 in Hk0. congruence. }
    split; [|split; [cbn; lia|split; [cbn; lia|split; [|split]]]].
    + split; [cbn; rewrite length_app; cbn; lia|]. split; [|split]; cbn [seen ls n].
      * intros hash k Hins. destruct (decide (hash = Hash l)) as [->|Hne].
        -- rewrite lookup_insert_eq in Hins. injection Hins as <-. exists l. split; [|reflexivity].
           apply index_Some. split; [lia|]. rewrite Hn, Nat2Z.id.
           rewrite lookup_app_r by lia. rewrite Nat.sub_diag. reflexivity.
        -- rewrite lookup_insert_ne in Hins by congruence.
           destruct (Hseen _ _ Hins) as (l' & Hl' & Hhash). exists l'. split; [|exact Hhash].
           apply index_Some in Hl' as [Hk0 Hlk]. apply index_Some. split; [exact Hk0|].
           apply lookup_app_l_Some. exact Hlk.
      * intros l0 Hin. apply elem_of_app in Hin as [Hin|Hin].
        -- destruct (decide (Hash l0 = Hash l)) as [->|Hne].
           ++ rewrite lookup_insert_eq. eauto.
           ++ rewrite lookup_insert_ne by congruence. apply Hall. exact Hin.
        -- apply list_elem_of_singleton in Hin as ->. rewrite lookup_insert_eq. eauto.
      * rewrite map_app. apply NoDup_app. split; [exact Hnd|]. split.
        -- intros x Hx Hx'. cbn in Hx'. apply list_elem_of_singleton in Hx' as ->. contradiction.
        -- cbn. apply NoDup_singleton.
    + cbn [ls n]. exists l. split; [|reflexivity]. apply index_Some. split; [lia|].
      rewrite Hn, Nat2Z.id. rewrite lookup_app_r by lia. rewrite Nat.sub_diag. reflexivity.
    + cbn [ls]. apply prefix_app_r. reflexivity.
    + cbn [seen]. rewrite lookup_insert_eq. reflexivity.
Qed.

Lemma storeOutput_inv (hc lc : uint64) (l : Labels) (out : outputs) :
  outputsInv out -> outputsInv (storeOutput hc lc l out).
Proof.
  intros [Hh Hmap]. unfold storeOutput.
  destruct (joinHelper_append_inv (fst out) l Hh) as (Hh' & Hmono & Hk & _).
  destruct (joinHelper_append (fst out) l) as [k h']. cbn [fst snd] in *.
  split; [exact Hh'|]. cbn [fst snd]. intros key id Hid.
  destruct (decide (key = cantorPairing hc lc)) as [->|Hne].
  - rewrite lookup_insert_eq in Hid. injection Hid as <-.
    unfold wrap64. pose proof (Z.mod_pos_bound k (2 ^ 64) eq_refl).
    pose proof (Z.mod_le k (2 ^ 64)). lia.
  - rewrite lookup_insert_ne in Hid by congruence. specialize (Hmap _ _ Hid). lia.
Qed.

Lemma foldRange_invariant {A B : Type} (I : B -> Prop) (body : Z -> A -> B -> B) (l : list A) :
  (forall i x acc, I acc -> I (body i x acc)) ->
  forall i acc, I acc -> I (foldRange body i l acc).
Proof.
  intros Hbody. induction l as [|x rest IH]; intros i acc Hacc; cbn [foldRange]; auto.
Qed.

Lemma fold_left_invariant {A B : Type} (I : B -> Prop) (f : B -> A -> B) (l : list A) :
  (forall acc x, I acc -> I (f acc x)) ->
  forall acc, I acc -> I (fold_left f l acc).
Proof.
  intros Hf. induction l as [|x rest IH]; intros acc Hacc; cbn [fold_left]; auto.
Qed.

Lemma initSeries_inv (m : VectorMatching) (op : ItemType) (rb : bool)
    (hc lc : list Labels) (hct lct : joinTables) (out : outputs) :
  initSeries m op rb hc lc hct lct = Some out -> outputsInv out.
Proof.
  assert (Hstart : outputsInv ({| seen := ∅; ls := []; n := 0 |}, ∅)).
  { split; [apply helperInv_empty|]. intros key id Hid. cbn in Hid.
    rewrite lookup_empty in Hid. discriminate. }
  assert (Hsome : forall b : option outputs,
             foldRange
               (fun i hcl out =>
                  let sig := default 0 (sampleIdToSignature hct !! i) in
                  match hashToSeriesIDs lct !! sig with
                  | None => out
                  | Some lcs =>
                      fold_left
                        (fun out lc0 =>
                           match out, index lc lc0 with
                           | Some out, Some lcl =>
                               Some (storeOutput (wrap64 (i + 1)) (wrap64 (lc0 + 1))
                                       (resultMetric m op rb hcl lcl) out)
                           | _, _ => None
                           end)
                        lcs out
                  end)
               0 hc (Some ({| seen := ∅; ls := []; n := 0 |}, ∅)) = b ->
             someInv b).
  { intros b <-.
    apply (foldRange_invariant someInv); [|exact Hstart].
    intros i hcl acc Hacc. cbv zeta.
    destruct (hashToSeriesIDs lct !! default 0 (sampleIdToSignature hct !! i)); [|exact Hacc].
    apply (fold_left_invariant someInv); [|exact Hacc].
    intros acc0 lc0 Hacc0. destruct acc0 as [out0|]; [|exact I].
    destruct (index lc lc0); [|exact I]. apply storeOutput_inv. exact Hacc0. }
  unfold initSeries.
  destruct op; try (intros Hinit; exact (Hsome _ Hinit)); intros [= <-].
  - apply (foldRange_invariant outputsInv); [|exact Hstart].
    intros i hcl acc Hacc. cbv zeta.
    destruct (hashToSeriesIDs lct !! default 0 (sampleIdToSignature hct !! i)); [|exact Hacc].
    apply (fold_left_invariant outputsInv); [|exact Hacc].
    intros acc0 lc0 Hacc0. apply storeOutput_inv. exact Hacc0.
  - apply (foldRange_invariant outputsInv).
    + intros i x acc Hacc. apply storeOutput_inv. exact Hacc.
    + apply (foldRange_invariant outputsInv); [|exact Hstart].
      intros i x acc Hacc. apply storeOutput_inv. exact Hacc.
  - apply (foldRange_invariant outputsInv); [|exact Hstart].
    intros i x acc Hacc. apply storeOutput_inv. exact Hacc.
Qed.

(** [joinHelper.append] deduplicates by hash: on a helper that it has
    built, it returns the index of a label set with the hash of the one
    appended, keeps the label sets it had, and appending the same label
    set again returns the same index and changes nothing. *)
Theorem joinHelper_append_deduplicates (h h' : joinHelper) (l : Labels) (k : Z) :
  helperInv h ->
  joinHelper_append h l = (k, h') ->
  helperInv h' /\
  0 <= k < Z.of_nat (length (ls h')) /\
  (exists l', index (ls h') k = Some l' /\ Hash l' = Hash l) /\
  prefix (ls h) (ls h') /\
  joinHelper_append h' l = (k, h').
Proof.
  intros Hh Happ.
  destruct (joinHelper_append_inv h l Hh) as (Hh' & _ & Hk & Hl & Hpre & Hagain).
  rewrite Happ in *. cbn [fst snd] in *.
  destruct Hh' as (Hn & Hrest). rewrite Hn in Hk.
  repeat split; try assumption; try lia. apply Hrest. apply Hrest. apply Hrest.
Qed.

(** After [initJoinTables] no two output series have the same hash,
    every ID stored in the output map is an index of the series table,
    and so is every ID that [outputSeriesID] returns when the table is
    not empty. *)
Theorem output_ids_index_series {L R : Type} (hc lc : list Labels) (o o' : vectorOperator L R) :
  initJoinTables hc lc o = Some o' ->
  NoDup (map Hash (series o')) /\
  (forall key id, outputMap o' !! key = Some id -> 0 <= id < Z.of_nat (length (series o'))) /\
  (series o' <> [] ->
   forall a b, 0 <= outputSeriesID o' a b < Z.of_nat (length (series o'))).
Proof.
  unfold initJoinTables. intros Hinit.
  destruct (initSeries _ _ _ _ _ _ _) as [[h om]|] eqn:Hser; [|discriminate].
  injection Hinit as <-. cbn [series outputMap].
  destruct (initSeries_inv _ _ _ _ _ _ _ _ Hser) as [(Hn & _ & _ & Hnd) Hmap].
  cbn [fst snd] in *. rewrite Hn in Hmap.
  split; [exact Hnd|]. split; [exact Hmap|].
  intros Hne a b. unfold outputSeriesID. cbn [outputMap].
  destruct (om !! cantorPairing a b) as [id|] eqn:Hid; cbn.
  - eapply Hmap. exact Hid.
  - destruct (ls h); [contradiction|]. cbn. lia.
Qed.
End OutputSeries.

Lemma joinHelper_append_deduplicates_witness :
  exists k h',
    Binary.joinHelper_append {| Binary.seen := ∅; Binary.ls := []; Binary.n := 0 |}
      {[ "a" := "1" ]} = (k, h') /\
    Binary.joinHelper_append h' {[ "a" := "1" ]} = (k, h').
Proof.
  eexists _, _. split; [reflexivity|].
  eapply (joinHelper_append_deduplicates {| Binary.seen := ∅; Binary.ls := []; Binary.n := 0 |}).
  - apply helperInv_empty.
  - reflexivity.
Defined.

Lemma output_ids_index_series_witness :
  exists o',
    Binary.initJoinTables aSeries bSeries (vectorOver (onX CardManyToOne) Binary.ADD [] [])
    = Some o' /\
    NoDup (map Hash (Binary.series o')) /\
    length (Binary.series o') = 1%nat.
Proof.
  set (o := vectorOver (onX CardManyToOne) Binary.ADD [] []).
  destruct (Binary.initJoinTables aSeries bSeries o) as [o'|] eqn:Hinit;
    [|vm_compute in Hinit; discriminate Hinit].
  exists o'. split; [reflexivity|].
  split; [exact (proj1 (output_ids_index_series aSeries bSeries o o' Hinit))|].
  assert (Hlen : length (Binary.series (default o (Binary.initJoinTables aSeries bSeries o))) = 1%nat)
    by (vm_compute; reflexivity).
  rewrite Hinit in Hlen. exact Hlen.
Defined.

(** * Initialisation of the vector-vector operator *)

Section InitOnce.
Import Binary.
Context {L R : Type} `{VectorOperator L} `{VectorOperator R}.
Context `{LabelsLib} `{HistogramLib} `{MathLib}.

Abbreviation Op := (vectorOperator L R).

Lemma init_sets_once (ctx : Context) (o : Op) :
  once o = true -> once (snd (init ctx o)) = true.
Proof.
  intros Honce. unfold init.
  destruct (Series ctx (lhs o)) as [rl l1], (Series ctx (rhs o)) as [rr r1].
  destruct rr as [lowS|e|], rl as [highS|e'|]; cbn; try exact Honce.
  destruct (Card (matching o));
    match goal with
    | |- context [initJoinTables ?a ?b ?c] =>
        unfold initJoinTables;
        destruct (initSeries _ _ _ a b _ _) as [[h om]|]; cbn; exact Honce
    end.
Qed.

(** [Series] initialises at most once.  After a first call, whether it
    succeeded or failed, the operator is marked as initialised, and every
    later call returns the series table as it is, without an error and
    without calling the children again: an error of the first call is
    reported once only. *)
Theorem series_initialises_once (ctx ctx' : Context) (o : Op) :
  let o1 := snd (vectorOperator_Series ctx o) in
  once o1 = true /\
  vectorOperator_Series ctx' o1 = (Ok (series o1), o1).
Proof.
  cbv zeta.
  assert (Honce : once (snd (vectorOperator_Series ctx o)) = true).
  { unfold vectorOperator_Series, bind, initOnce. destruct (once o) eqn:Ho.
    - cbn. exact Ho.
    - pose proof (init_sets_once ctx (setOnce o) eq_refl) as Hinit.
      destruct (init ctx (setOnce o)) as [[[]|e|] o1]; exact Hinit. }
  split; [exact Honce|].
  unfold vectorOperator_Series at 1. unfold bind, initOnce. rewrite Honce. reflexivity.
Qed.

(** After the first, successful initialisation the two tables of join
    buckets have one entry per series of their side, two series of
    either side have the same bucket exactly when they have the same
    join signature, and every bucket is new ([ats] and [bts] are -1). *)
Theorem join_buckets_by_signature (ctx : Context) (o o' : Op) :
  once o = false ->
  initOnce ctx o = (Ok tt, o') ->
  fst (Series ctx (lhs o)) = Ok (lhsSampleIDs o') /\
  fst (Series ctx (rhs o)) = Ok (rhsSampleIDs o') /\
  length (lcJoinBuckets o') = length (lowCardSide o') /\
  length (hcJoinBuckets o') = length (highCardSide o') /\
  (forall l1 p1 l2 p2,
     (l1, p1) ∈ zip (lowCardSide o' ++ highCardSide o') (lcJoinBuckets o' ++ hcJoinBuckets o') ->
     (l2, p2) ∈ zip (lowCardSide o' ++ highCardSide o') (lcJoinBuckets o' ++ hcJoinBuckets o') ->
     (p1 = p2 <-> sigFunc o' l1 = sigFunc o' l2)) /\
  (forall ptr jp, buckets o' !! ptr = Some jp -> ats jp = -1 /\ bts jp = -1).
Proof.
  intros Honce Hinit.
  destruct (initOnce_joined ctx o o' Honce Hinit) as (Hj & Hnew & _).
  assert (Hsides : fst (Series ctx (lhs o)) = Ok (lhsSampleIDs o') /\
                   fst (Series ctx (rhs o)) = Ok (rhsSampleIDs o')).
  { revert Hinit. unfold initOnce. rewrite Honce. unfold init.
    change (lhs (setOnce o)) with (lhs o). change (rhs (setOnce o)) with (rhs o).
    destruct (Series ctx (lhs o)) as [rl l1], (Series ctx (rhs o)) as [rr r1].
    destruct rr as [lowS|e|], rl as [highS|e'|]; try discriminate.
    destruct (Card (matching (setOnce o)));
      match goal with
      | |- context [initJoinTables ?a ?b ?c] =>
          unfold initJoinTables;
          destruct (initSeries _ _ _ a b _ _) as [[h om]|]; [|discriminate];
          intros [= <-]; cbn; auto
      end. }
  destruct Hsides as [Hl Hr]. split; [exact Hl|]. split; [exact Hr|].
  destruct Hj as (byHash & Hinj & _ & Hlc & Hhc).
  split; [symmetry; eapply Forall2_length; exact Hlc|].
  split; [symmetry; eapply Forall2_length; exact Hhc|].
  split.
  - pose proof (Forall2_app Hlc Hhc) as Hall.
    assert (Hin : forall l p,
               (l, p) ∈ zip (lowCardSide o' ++ highCardSide o')
                            (lcJoinBuckets o' ++ hcJoinBuckets o') ->
               byHash !! sigFunc o' l = Some p).
    { intros l p Hlp. apply list_elem_of_lookup in Hlp as (i & Hi).
      apply lookup_zip_with_Some in Hi as (l0 & p0 & [= <- <-] & Hl0 & Hp0).
      destruct (Forall2_lookup_l _ _ _ _ _ Hall Hl0) as (p' & Hp' & Hb). congruence. }
    intros l1 p1 l2 p2 H1' H2' . apply Hin in H1', H2'. split.
    + intros <-. eapply Hinj; eassumption.
    + intros Hsig. rewrite Hsig in H1'. congruence.
  - intros ptr jp Hjp. rewrite (Hnew ptr jp Hjp). split; reflexivity.
Qed.
End InitOnce.

Lemma join_buckets_by_signature_witness :
  let o := vectorOver (onX CardOneToOne) Binary.ADD [] [] in
  Binary.once o = false /\
  exists o', Binary.initOnce background o = (Ok tt, o') /\
             length (Binary.lcJoinBuckets o') = length (lowCardSide o').
Proof.
  intros o. split; [reflexivity|].
  exists (snd (Binary.initOnce background o)).
  assert (Hinit : Binary.initOnce background o = (Ok tt, snd (Binary.initOnce background o)))
    by (vm_compute; reflexivity).
  split; [exact Hinit|].
  exact (proj1 (proj2 (proj2 (join_buckets_by_signature background o _ eq_refl Hinit)))).
Defined.

Import StepSpec.

(** * What every step of the vector-vector operator keeps *)

Section StepFrame.
Import Binary.
Context {L R : Type} `{VectorOperator L} `{VectorOperator R}.
Context `{LabelsLib} `{HistogramLib} `{MathLib}.

Abbreviation Op := (vectorOperator L R).

Lemma framed_refl (o : Op) : framed o o.
Proof. unfold framed, sameTables. repeat split; reflexivity. Qed.

Lemma framed_store (o s : Op) (ptr : nat) (jp : joinBucket) :
  framed o s -> framed o (setBuckets (<[ptr := jp]> (buckets s)) s).
Proof.
  intros (Ht & Hl & Hr & Hs & Ho & Hw).
  split; [apply sameTables_store; exact Ht|]. cbn. repeat split; assumption.
Qed.

Lemma framed_warn (o s : Op) (e : error) :
  framed o s -> framed o (setWarnings (warnings s ++ [e]) s).
Proof.
  intros (Ht & Hl & Hr & Hs & Ho & Hw).
  split; [apply sameTables_warn; exact Ht|]. cbn. repeat split; try assumption.
  etransitivity; [exact Hw|]. apply prefix_app_r. reflexivity.
Qed.

Section Frames.
Variable F : Op -> Prop.

Lemma frames_ret {A : Type} (x : A) : frames F (ret x).
Proof. intros s r s' HF [= <- <-]. exact HF. Qed.

Lemma frames_fail {A : Type} (e : error) : frames F (@fail Op A e).
Proof. intros s r s' HF [= <- <-]. exact HF. Qed.

Lemma frames_panic {A : Type} : frames F (@panic Op A).
Proof. intros s r s' HF [= <- <-]. exact HF. Qed.

Lemma frames_get : frames F get.
Proof. intros s r s' HF [= <- <-]. exact HF. Qed.

Lemma frames_orPanic {A : Type} (x : option A) : frames F (orPanic x).
Proof. destruct x; [apply frames_ret|apply frames_panic]. Qed.

Lemma frames_bind {A B : Type} (m : M Op A) (k : A -> M Op B) :
  frames F m -> (forall x, frames F (k x)) -> frames F (bind m k).
Proof.
  intros Hm Hk s r s' HF. unfold bind.
  destruct (m s) as [[x|e|] s1] eqn:Hms.
  - intros Hrun. exact (Hk x s1 r s' (Hm s _ s1 HF Hms) Hrun).
  - intros [= <- <-]. exact (Hm s _ s1 HF Hms).
  - intros [= <- <-]. exact (Hm s _ s1 HF Hms).
Qed.

Lemma frames_forRange {A B : Type} (body : Z -> A -> B -> M Op B) (l : list A) :
  (forall i x acc, frames F (body i x acc)) ->
  forall i acc, frames F (forRange body i l acc).
Proof.
  intros Hbody. induction l as [|x rest IH]; intros i acc; cbn [forRange].
  - apply frames_ret.
  - apply frames_bind; [apply Hbody|]. intros acc1. apply IH.
Qed.

Lemma frames_lcJoinBucket (id : uint64) : frames F (lcJoinBucket id).
Proof.
  intros s r s' HF. unfold lcJoinBucket.
  destruct (index (lcJoinBuckets s) id) as [ptr|]; [|intros [= <- <-]; exact HF].
  destruct (buckets s !! ptr); intros [= <- <-]; exact HF.
Qed.

Lemma frames_hcJoinBucket (id : uint64) : frames F (hcJoinBucket id).
Proof.
  intros s r s' HF. unfold hcJoinBucket.
  destruct (index (hcJoinBuckets s) id) as [ptr|]; [|intros [= <- <-]; exact HF].
  destruct (buckets s !! ptr); intros [= <- <-]; exact HF.
Qed.
End Frames.

Section Framed.
Variable o : Op.

Lemma frames_storeBucket (ptr : nat) (jp : joinBucket) : frames (framed o) (storeBucket ptr jp).
Proof. intros s r s' HF [= <- <-]. apply framed_store. exact HF. Qed.

Lemma frames_addToContext (err : option error) : frames (framed o) (addToContext err).
Proof.
  destruct err as [e|]; [|apply frames_ret].
  intros s r s' HF [= <- <-]. apply framed_warn. exact HF.
Qed.

Lemma frames_newManyToMany (orig dup : uint64) :
  frames (framed o) (newManyToManyMatchErrorOnLowCardSide orig dup).
Proof.
  unfold newManyToManyMatchErrorOnLowCardSide.
  apply frames_bind; [apply frames_get|]. intros s0.
  destruct (Card (matching s0));
    (apply frames_bind; [apply frames_orPanic|]; intros d;
     apply frames_bind; [apply frames_orPanic|]; intros g; apply frames_ret).
Qed.

End Framed.
End StepFrame.

Ltac frame_step :=
  first
    [ apply frames_ret | apply frames_fail | apply frames_panic | apply frames_get
    | apply frames_orPanic | apply frames_lcJoinBucket | apply frames_hcJoinBucket
    | apply frames_storeBucket | apply frames_addToContext | apply frames_newManyToMany
    | apply frames_forRange; intros
    | apply frames_bind; [|intros]
    | match goal with
      | |- frames _ (let '(_, _) := ?p in _) => destruct p
      | |- frames _ (if ?c then _ else _) => destruct c
      | |- frames _ (match ?x with _ => _ end) => destruct x
      end ].

Section StepShape.
Import Binary.
Context {L R : Type} `{VectorOperator L} `{VectorOperator R}.
Context `{LabelsLib} `{HistogramLib} `{MathLib}.

Abbreviation Op := (vectorOperator L R).

Section FramedLoops.
Variable o : Op.

Lemma frames_populateSamples (ts : int64) (lcs : StepVector) :
  frames (framed o) (populateSamples ts lcs).
Proof. unfold populateSamples. repeat frame_step. Qed.

Lemma frames_populateHistograms (ts : int64) (lcs : StepVector) :
  frames (framed o) (populateHistograms ts lcs).
Proof. unfold populateHistograms. repeat frame_step. Qed.

Lemma frames_joinSamples (ts : int64) (hcs step : StepVector) :
  frames (framed o) (joinSamples ts hcs step).
Proof. unfold joinSamples. repeat frame_step. Qed.

Lemma frames_joinHistograms (ts : int64) (hcs step : StepVector) :
  frames (framed o) (joinHistograms ts hcs step).
Proof. unfold joinHistograms. repeat frame_step. Qed.

Lemma frames_logical (lhs rhs : StepVector) :
  frames (framed o) (execBinaryAnd lhs rhs) /\
  frames (framed o) (execBinaryOr lhs rhs) /\
  frames (framed o) (execBinaryUnless lhs rhs).
Proof.
  unfold execBinaryAnd, execBinaryOr, execBinaryUnless.
  split; [|split]; repeat frame_step.
Qed.

Lemma frames_execBinaryOperation (ctx : Context) (lhs rhs : StepVector) :
  frames (framed o) (execBinaryOperation ctx lhs rhs).
Proof.
  destruct (frames_logical lhs rhs) as (Hand & Hor & Hunless).
  unfold execBinaryOperation, execBinaryArithmetic.
  apply frames_bind; [apply frames_get|]. intros s0.
  destruct (opType s0); try assumption;
    (apply frames_bind; [apply frames_get|]; intros s1;
     destruct (Card (matching s1));
     try apply frames_fail;
     match goal with
     | |- frames _ (if ?c then _ else _) => destruct c; [apply frames_ret|]
     end;
     (apply frames_bind; [apply frames_populateSamples|]; intros;
      apply frames_bind; [apply frames_populateHistograms|]; intros;
      apply frames_bind; [apply frames_joinSamples|]; intros;
      apply frames_joinHistograms)).
Qed.
End FramedLoops.

(** A step changes nothing of the operator but the contents of the join
    buckets and the warnings, to which it only appends, whether it
    returns a step, fails or panics: the two pointer tables, the output
    map, the series tables, the matching, the operator type and the
    children are as before, and there are as many buckets as before. *)
Theorem step_keeps_tables (ctx : Context) (lhs rhs : StepVector) (o : Op) :
  let o' := snd (execBinaryOperation ctx lhs rhs o) in
  lcJoinBuckets o' = lcJoinBuckets o /\ hcJoinBuckets o' = hcJoinBuckets o /\
  outputMap o' = outputMap o /\ series o' = series o /\
  lhsSampleIDs o' = lhsSampleIDs o /\ rhsSampleIDs o' = rhsSampleIDs o /\
  matching o' = matching o /\ opType o' = opType o /\ returnBool o' = returnBool o /\
  Binary.lhs o' = Binary.lhs o /\ Binary.rhs o' = Binary.rhs o /\ once o' = once o /\
  length (buckets o') = length (buckets o) /\
  prefix (warnings o) (warnings o').
Proof.
  cbv zeta.
  destruct (execBinaryOperation ctx lhs rhs o) as [r o'] eqn:Hrun. cbn [snd].
  destruct (frames_execBinaryOperation o ctx lhs rhs o r o' (framed_refl o) Hrun)
    as ((?&?&?&?&?&?&?&?&?) & ? & ? & ? & ? & ?).
  repeat split; assumption.
Qed.

(** ** The shape of the step returned *)

Lemma grows_shape (step step' : StepVector) :
  grows step step' ->
  T step' = T step /\ (parallel step -> parallel step') /\
  (entries step' <= entries step + 1)%nat.
Proof.
  unfold parallel, entries.
  intros [-> | [(id & v & ->) | (id & h & ->)]]; cbn; rewrite ?length_app; cbn;
    (split; [reflexivity|]); (split; [|try lia]); try (intros [Hs Hh]; split; lia).
Qed.

Lemma forRange_appends {A : Type} (body : Z -> A -> StepVector -> M Op StepVector)
    (l : list A) :
  (forall i x, appends (body i x)) ->
  forall i step s step' s',
    forRange body i l step s = (Ok step', s') ->
    T step' = T step /\ (parallel step -> parallel step') /\
    (entries step' <= entries step + length l)%nat.
Proof.
  intros Hbody. induction l as [|x rest IH]; intros i step s step' s' Hrun.
  - injection Hrun as <- <-. cbn. split; [reflexivity|]. split; [auto|lia].
  - cbn [forRange] in Hrun. apply bind_inv_Ok in Hrun as (step1 & s1 & Hb & Hrest).
    destruct (grows_shape _ _ (Hbody i x step s step1 s1 Hb)) as (Ht1 & Hp1 & He1).
    destruct (IH _ _ _ _ _ Hrest) as (Ht & Hp & He).
    split; [congruence|]. split; [auto|]. cbn [length]. lia.
Qed.

Ltac run_inv H :=
  repeat
    (cbv beta in H;
     match type of H with
     | bind _ _ _ = (Ok _, _) => apply bind_inv_Ok in H as (? & ? & _ & H)
     | ret _ _ = (Ok _, _) => injection H as <- <-
     | fail _ _ = (Ok _, _) => discriminate H
     | panic _ = (Ok _, _) => discriminate H
     | (if ?c then _ else _) _ = (Ok _, _) => destruct c
     | (match ?x with _ => _ end) _ = (Ok _, _) => destruct x
     end).

Ltac grows_done :=
  first
    [ left; reflexivity
    | right; left; eexists _, _; reflexivity
    | right; right; eexists _, _; reflexivity ].

Lemma step_shape_and (lhs rhs : StepVector) (o o' : Op) (step : StepVector) :
  execBinaryAnd lhs rhs o = (Ok step, o') ->
  T step = T lhs /\ parallel step /\ (entries step <= length (SampleIDs lhs))%nat.
Proof.
  unfold execBinaryAnd. intros Hrun.
  apply bind_inv_Ok in Hrun as (_ & o1 & _ & Hrun).
  apply forRange_appends in Hrun as (Ht & Hp & He).
  - split; [exact Ht|]. split; [apply Hp; split; reflexivity|exact He].
  - intros i x acc s acc' s' Hb. run_inv Hb; grows_done.
Qed.

Lemma step_shape_unless (lhs rhs : StepVector) (o o' : Op) (step : StepVector) :
  execBinaryUnless lhs rhs o = (Ok step, o') ->
  T step = T lhs /\ parallel step /\ (entries step <= length (SampleIDs lhs))%nat.
Proof.
  unfold execBinaryUnless. intros Hrun.
  apply bind_inv_Ok in Hrun as (_ & o1 & _ & Hrun).
  apply forRange_appends in Hrun as (Ht & Hp & He).
  - split; [exact Ht|]. split; [apply Hp; split; reflexivity|exact He].
  - intros i x acc s acc' s' Hb. run_inv Hb; grows_done.
Qed.

Lemma step_shape_or (lhs rhs : StepVector) (o o' : Op) (step : StepVector) :
  execBinaryOr lhs rhs o = (Ok step, o') ->
  T step = T lhs /\ parallel step /\
  (entries step <= length (SampleIDs lhs) + length (SampleIDs rhs))%nat.
Proof.
  unfold execBinaryOr. intros Hrun.
  apply bind_inv_Ok in Hrun as (step1 & o1 & Hfirst & Hrun).
  apply forRange_appends in Hfirst as (Ht1 & Hp1 & He1).
  2:{ intros i x acc s acc' s' Hb. run_inv Hb; grows_done. }
  apply forRange_appends in Hrun as (Ht & Hp & He).
  2:{ intros i x acc s acc' s' Hb. run_inv Hb; grows_done. }
  cbn in Ht1. split; [congruence|]. split; [apply Hp, Hp1; split; reflexivity|].
  cbn in He1. lia.
Qed.

Lemma step_shape_arithmetic (ctx : Context) (lhs rhs : StepVector) (o o' : Op) (step : StepVector) :
  execBinaryArithmetic ctx lhs rhs o = (Ok step, o') ->
  T step = T lhs /\ parallel step /\
  (entries step <= entries lhs + entries rhs)%nat.
Proof.
  unfold execBinaryArithmetic. rewrite bind_get.
  assert (Hempty : T (GetStepVector (T lhs)) = T lhs /\ parallel (GetStepVector (T lhs)) /\
                   (entries (GetStepVector (T lhs)) <= entries lhs + entries rhs)%nat).
  { split; [reflexivity|]. split; [split; reflexivity|]. cbn. lia. }
  assert (Hjoin : forall hcs s,
             (entries hcs <= entries lhs + entries rhs)%nat ->
             (run _ <- populateSamples (T lhs) s;
              run _ <- populateHistograms (T lhs) s;
              run step <- joinSamples (T lhs) hcs (GetStepVector (T lhs));
              joinHistograms (T lhs) hcs step) o = (Ok step, o') ->
             T step = T lhs /\ parallel step /\ (entries step <= entries lhs + entries rhs)%nat).
  { intros hcs lcs Hle Hrun.
    apply bind_inv_Ok in Hrun as (_ & s1 & _ & Hrun).
    apply bind_inv_Ok in Hrun as (_ & s2 & _ & Hrun).
    apply bind_inv_Ok in Hrun as (step1 & s3 & Hj1 & Hj2).
    unfold joinSamples in Hj1. unfold joinHistograms in Hj2.
    apply forRange_appends in Hj1 as (Ht1 & Hp1 & He1).
    2:{ intros i x acc s acc' s' Hb. run_inv Hb; grows_done. }
    apply forRange_appends in Hj2 as (Ht & Hp & He).
    2:{ intros i x acc s acc' s' Hb. run_inv Hb; grows_done. }
    cbn in Ht1. split; [congruence|]. split; [apply Hp, Hp1; split; reflexivity|].
    unfold entries in *. cbn in He1. lia. }
  destruct (Card (matching o)).
  - destruct (Nat.eqb (length (Samples lhs)) 0); [intros [= <- <-]; exact Hempty|].
    apply Hjoin. lia.
  - destruct (Nat.eqb (length (Samples lhs)) 0); [intros [= <- <-]; exact Hempty|].
    apply Hjoin. lia.
  - destruct (Nat.eqb (length (Samples rhs)) 0); [intros [= <- <-]; exact Hempty|].
    apply Hjoin. lia.
  - discriminate.
Qed.

(** Every step that the operator returns carries the timestamp of the
    left input step, has as many sample values as sample IDs and as many
    histograms as histogram IDs, and has no more entries than the two
    input steps together. *)
Theorem step_is_well_formed (ctx : Context) (lhs rhs step : StepVector) (o o' : Op) :
  execBinaryOperation ctx lhs rhs o = (Ok step, o') ->
  T step = T lhs /\ parallel step /\ (entries step <= entries lhs + entries rhs)%nat.
Proof.
  unfold execBinaryOperation. rewrite bind_get.
  destruct (opType o); try apply step_shape_arithmetic; intros Hrun.
  - apply step_shape_and in Hrun as (Ht & Hp & He). unfold entries in *. repeat split; try apply Hp; auto; lia.
  - apply step_shape_or in Hrun as (Ht & Hp & He). unfold entries in *. repeat split; try apply Hp; auto; lia.
  - apply step_shape_unless in Hrun as (Ht & Hp & He). unfold entries in *. repeat split; try apply Hp; auto; lia.
Qed.

(** ** The [bool] modifier *)

Lemma addToContext_returnBool (err : option error) (s s' : Op) :
  addToContext err s = (Ok tt, s') -> returnBool s' = returnBool s.
Proof. destruct err; intros [= <-]; reflexivity. Qed.

Lemma joinSamples_bool (ts : int64) (hcs step step' : StepVector) (s s' : Op) :
  returnBool s = true ->
  Forall (fun v => v = f64_one \/ v = f64_zero) (Samples step) ->
  joinSamples ts hcs step s = (Ok step', s') ->
  Forall (fun v => v = f64_one \/ v = f64_zero) (Samples step').
Proof.
  intros Hrb Hstep Hrun.
  cut (returnBool s' = true /\ Forall (fun v => v = f64_one \/ v = f64_zero) (Samples step')).
  { intros [_ Hres]. exact Hres. }
  revert Hrun. unfold joinSamples.
  apply (forRange_invariant
           (fun acc st => returnBool st = true /\
                          Forall (fun v => v = f64_one \/ v = f64_zero) (Samples acc))).
  2:{ split; assumption. }
  intros i id acc st acc' st' _ [Hst Hacc] Hrun.
  apply bind_inv_Ok in Hrun as ([ptr jp] & st0 & Hb & Hrun).
  apply hcJoinBucket_inv in Hb as (-> & Hptr & Hjp).
  destruct (negb (ats jp =? ts)).
  { injection Hrun as <- <-. auto. }
  rewrite bind_get in Hrun.
  destruct ((bts jp =? ts) && isCardOneToOne (Card (matching st))); [discriminate|].
  apply bind_inv_Ok in Hrun as ([] & st1 & Hstore & Hrun). injection Hstore as <-.
  apply bind_inv_Ok in Hrun as (v & st2 & Hv & Hrun).
  destruct (index (Samples hcs) i) as [v0|]; [|discriminate]. injection Hv as <- <-.
  apply bind_inv_Ok in Hrun as ([[[f h] keep] err] & st3 & Hres & Hrun).
  match type of Hres with orPanic ?c _ = _ => destruct c as [res|]; [|discriminate] end.
  injection Hres as -> <-.
  apply bind_inv_Ok in Hrun as ([] & st4 & Hwarn & Hrun).
  apply addToContext_returnBool in Hwarn. cbn in Hwarn.
  rewrite Hst in Hrun. injection Hrun as <- <-.
  split; [congruence|]. cbn [Samples AppendSample]. apply Forall_app. split; [exact Hacc|].
  constructor; [|constructor]. destruct keep; auto.
Qed.

(** With the [bool] modifier every float sample of an arithmetic or
    comparison step is 1 or 0. *)
Theorem bool_modifier_gives_zero_or_one (ctx : Context) (lhs rhs step : StepVector) (o o' : Op) :
  returnBool o = true ->
  isLogical (opType o) = false ->
  execBinaryOperation ctx lhs rhs o = (Ok step, o') ->
  Forall (fun v => v = f64_one \/ v = f64_zero) (Samples step).
Proof.
  intros Hrb Hop. unfold execBinaryOperation. rewrite bind_get.
  assert (execBinaryArithmetic ctx lhs rhs o = (Ok step, o') ->
          Forall (fun v => v = f64_one \/ v = f64_zero) (Samples step)) as Harith.
  { unfold execBinaryArithmetic. rewrite bind_get.
    assert (Hjoin : forall hcs lcs,
               (run _ <- populateSamples (T lhs) lcs;
                run _ <- populateHistograms (T lhs) lcs;
                run step <- joinSamples (T lhs) hcs (GetStepVector (T lhs));
                joinHistograms (T lhs) hcs step) o = (Ok step, o') ->
               Forall (fun v => v = f64_one \/ v = f64_zero) (Samples step)).
    { intros hcs lcs Hrun.
      apply bind_inv_Ok in Hrun as ([] & s1 & Hp1 & Hrun).
      apply bind_inv_Ok in Hrun as ([] & s2 & Hp2 & Hrun).
      apply bind_inv_Ok in Hrun as (step1 & s3 & Hj1 & Hj2).
      pose proof (frames_populateSamples o _ _ _ _ _ (framed_refl o) Hp1) as Hf1.
      pose proof (frames_populateHistograms o _ _ _ _ _ Hf1 Hp2) as ((_&_&_&_&_&Hrb2&_) & _).
      apply joinSamples_bool in Hj1; [|congruence|constructor].
      assert (Samples step = Samples step1) as ->; [|exact Hj1].
      revert Hj2. unfold joinHistograms.
      apply (forRange_invariant (fun acc (_ : Op) => Samples acc = Samples step1));
        [|reflexivity].
      intros i x acc s acc' s' _ Hacc Hb. run_inv Hb; exact Hacc. }
    destruct (Card (matching o)); try discriminate;
      match goal with
      | |- context [Nat.eqb ?n 0] =>
          destruct (Nat.eqb n 0); [intros [= <- <-]; constructor|apply Hjoin]
      end. }
  destruct (opType o); try discriminate; exact Harith.
Qed.
End StepShape.

Lemma step_is_well_formed_witness :
  let lhsV := floatStep 0 [0; 1] [f64_two; f64_two] in
  let rhsV := floatStep 0 [0] [f64_three] in
  let o := snd (Binary.initOnce background
                  (vectorOver (onX CardOneToOne) Binary.ADD [lhsV] [rhsV])) in
  exists step o',
    Binary.execBinaryOperation background lhsV rhsV o = (Ok step, o') /\
    T step = 0 /\ parallel step.
Proof.
  intros lhsV rhsV o.
  assert (Hok : exists step o', Binary.execBinaryOperation background lhsV rhsV o = (Ok step, o'))
    by (vm_compute; eexists _, _; reflexivity).
  destruct Hok as (step & o' & Hrun).
  destruct (step_is_well_formed background lhsV rhsV step o o' Hrun) as (Ht & Hp & _).
  exists step, o'. auto.
Defined.

Lemma bool_modifier_gives_zero_or_one_witness :
  let lhsV := floatStep 0 [0; 1] [f64_two; f64_three] in
  let rhsV := floatStep 0 [0] [f64_three] in
  let o := snd (Binary.initOnce background
                  (Binary.NewVectorOperator
                     {| src_series := aSeries; src_batches := [] |}
                     {| src_series := bSeries; src_batches := [] |}
                     (onX CardOneToOne) Binary.EQLC true)) in
  Binary.returnBool o = true /\
  exists step o',
    Binary.execBinaryOperation background lhsV rhsV o = (Ok step, o') /\
    length (Samples step) = 1%nat /\
    Forall (fun v => v = f64_one \/ v = f64_zero) (Samples step).
Proof.
  intros lhsV rhsV o.
  assert (Hrb : Binary.returnBool o = true) by (vm_compute; reflexivity).
  assert (Hop : isLogical (Binary.opType o) = false) by (vm_compute; reflexivity).
  split; [exact Hrb|].
  assert (Hok : exists step o',
             Binary.execBinaryOperation background lhsV rhsV o = (Ok step, o') /\
             length (Samples step) = 1%nat)
    by (vm_compute; eexists _, _; split; reflexivity).
  destruct Hok as (step & o' & Hrun & Hlen).
  exists step, o'. split; [exact Hrun|]. split; [exact Hlen|].
  exact (bool_modifier_gives_zero_or_one background lhsV rhsV step o o' Hrb Hop Hrun).
Defined.

(** * The set operators [and], [or] and [unless] *)

Section SetOperators.
Import Binary StepSpec.
Context {L R : Type} `{VectorOperator L} `{VectorOperator R}.
Context `{LabelsLib} `{HistogramLib} `{MathLib}.

Abbreviation Op := (vectorOperator L R).

(** The buckets after a loop that marks, with [ats = ts], the buckets
    that the pointer table [tbl] gives for a list of series. *)
Lemma mark_round (bs : list joinBucket) (tbl : list nat) (ts : int64) (ptr q : nat)
    (jp jp1 : joinBucket) (id : uint64) (rest : list uint64) :
  index tbl id = Some ptr -> bs !! ptr = Some jp -> ats jp1 = ts ->
  option_map (fun j => bool_decide (q ∈ omap (index tbl) rest) || (ats j =? ts))
    (<[ptr := jp1]> bs !! q)
  = option_map (fun j => bool_decide (q ∈ omap (index tbl) (id :: rest)) || (ats j =? ts))
      (bs !! q).
Proof.
  intros Hid Hjp Hats. cbn [omap list_omap]. rewrite Hid.
  destruct (decide (q = ptr)) as [->|Hne].
  - rewrite list_lookup_insert_eq by (eapply lookup_lt_Some; exact Hjp).
    rewrite Hjp. cbn. rewrite Hats, Z.eqb_refl, orb_true_r.
    rewrite bool_decide_eq_true_2 by left. reflexivity.
  - rewrite list_lookup_insert_ne by congruence.
    destruct (bs !! q) as [j|]; [|reflexivity]. cbn. f_equal. f_equal.
    apply bool_decide_ext. rewrite elem_of_cons. split; [auto|]. intros [Hq|Hq]; [contradiction|exact Hq].
Qed.

Lemma mark_loop_lc (ts : int64) (g : uint64 -> joinBucket -> joinBucket) (ids : list uint64) :
  (forall id jp, ats (g id jp) = ts) ->
  forall (i : Z) (s s1 : Op),
    forRange (fun _ sampleID (_ : unit) =>
                run (ptr, jp) <- lcJoinBucket sampleID;
                storeBucket ptr (g sampleID jp)) i ids tt s = (Ok tt, s1) ->
    lcJoinBuckets s1 = lcJoinBuckets s /\ hcJoinBuckets s1 = hcJoinBuckets s /\
    outputMap s1 = outputMap s /\
    forall q,
      option_map (fun j => ats j =? ts) (buckets s1 !! q)
      = option_map (fun j => bool_decide (q ∈ omap (index (lcJoinBuckets s)) ids)
                               || (ats j =? ts)) (buckets s !! q).
Proof.
  intros Hg. induction ids as [|id rest IH]; intros i s s1 Hrun.
  - injection Hrun as <-. do 3 (split; [reflexivity|]). intros q.
    destruct (buckets s !! q); reflexivity.
  - cbn [forRange] in Hrun. apply bind_inv_Ok in Hrun as ([] & s0 & Hb & Hrest).
    apply bind_inv_Ok in Hb as ([ptr jp] & s' & Hget & Hstore).
    apply lcJoinBucket_inv in Hget as (-> & Hptr & Hjp). injection Hstore as <-.
    destruct (IH _ _ _ Hrest) as (Hlc & Hhc & Hout & Hbs). cbn in Hlc, Hhc, Hout, Hbs.
    do 3 (split; [assumption|]). intros q. rewrite Hbs.
    exact (mark_round _ _ ts ptr q jp (g id jp) id rest Hptr Hjp (Hg id jp)).
Qed.

Lemma select_skip {A : Type} (keep : list bool) (samples : list A) (k0 : nat) :
  select (false :: keep) (drop k0 samples) = select keep (drop (Datatypes.S k0) samples).
Proof.
  destruct (drop k0 samples) as [|v vs] eqn:Hd.
  - assert (drop (Datatypes.S k0) samples = []) as ->.
    { apply drop_ge. apply drop_nil_inv in Hd. lia. }
    destruct keep; reflexivity.
  - assert (drop (Datatypes.S k0) samples = vs) as ->.
    { rewrite <- (Nat.add_1_r k0), <- drop_drop, Hd. reflexivity. }
    reflexivity.
Qed.

(** The loop that emits the samples of the step [samples] whose bucket,
    read with [getB] from the pointer table [tbl], passes [test]. *)
Lemma emit_loop (tbl : Op -> list nat) (getB : uint64 -> M Op (nat * joinBucket))
    (test : joinBucket -> bool) (mkid : Op -> uint64 -> joinBucket -> uint64)
    (samples : list float64) (ids : list uint64) :
  (forall id o o' ptr jp, getB id o = (Ok (ptr, jp), o') ->
     o' = o /\ index (tbl o) id = Some ptr /\ buckets o !! ptr = Some jp) ->
  forall (k0 : nat) (step step' : StepVector) (s s' : Op),
    forRange
      (fun i sampleID step =>
         run (_, jp) <- getB sampleID;
         if test jp then
           run o <- get;
           run v <- orPanic (index samples i);
           ret (AppendSample step (mkid o sampleID jp) v)
         else ret step)
      (Z.of_nat k0) ids step s = (Ok step', s') ->
    s' = s /\
    SampleIDs step'
    = SampleIDs step
      ++ omap (fun id =>
                 match index (tbl s) id with
                 | None => None
                 | Some ptr =>
                     match buckets s !! ptr with
                     | None => None
                     | Some jp => if test jp then Some (mkid s id jp) else None
                     end
                 end) ids /\
    Samples step'
    = Samples step
      ++ select (map (fun id =>
                        match index (tbl s) id with
                        | None => false
                        | Some ptr =>
                            match buckets s !! ptr with
                            | None => false
                            | Some jp => test jp
                            end
                        end) ids) (drop k0 samples) /\
    HistogramIDs step' = HistogramIDs step /\ Histograms step' = Histograms step /\
    Forall (fun id => exists ptr jp, index (tbl s) id = Some ptr /\ buckets s !! ptr = Some jp)
      ids.
Proof.
  intros HgetB.
  induction ids as [|id rest IH]; intros k0 step step' s s' Hrun.
  - injection Hrun as <- <-. cbn. rewrite !app_nil_r. repeat split; auto.
  - cbn [forRange] in Hrun. apply bind_inv_Ok in Hrun as (step1 & s1 & Hb & Hrest).
    replace (Z.of_nat k0 + 1) with (Z.of_nat (Datatypes.S k0)) in Hrest by lia.
    apply bind_inv_Ok in Hb as ([ptr jp] & s0 & Hget & Hb).
    apply HgetB in Hget as (-> & Hptr & Hjp).
    cbn [omap list_omap map]. rewrite Hptr, Hjp.
    destruct (test jp) eqn:Htest.
    + rewrite bind_get in Hb. apply bind_inv_Ok in Hb as (v & s2 & Hv & Hb).
      destruct (index samples (Z.of_nat k0)) as [v0|] eqn:Hidx; [|discriminate].
      injection Hv as <- <-. injection Hb as <- <-.
      destruct (IH _ _ _ _ _ Hrest) as (-> & Hids & Hs & Hhi & Hh & Hall).
      split; [reflexivity|]. cbn [SampleIDs Samples HistogramIDs Histograms AppendSample] in *.
      rewrite Hids, Hs, <- !app_assoc. split; [reflexivity|].
      split; [|split; [exact Hhi|split; [exact Hh|constructor; eauto]]].
      f_equal. apply index_Some in Hidx as [_ Hidx]. rewrite Nat2Z.id in Hidx.
      rewrite (drop_S _ _ _ Hidx). reflexivity.
    + injection Hb as <- <-.
      destruct (IH _ _ _ _ _ Hrest) as (-> & Hids & Hs & Hhi & Hh & Hall).
      split; [reflexivity|]. rewrite Hids, Hs. split; [reflexivity|].
      split; [|split; [exact Hhi|split; [exact Hh|constructor; eauto]]].
      f_equal. symmetry. apply select_skip.
Qed.

Lemma omap_filter {A B : Type} (f : A -> option B) (p : A -> bool) (g : A -> B) (l : list A) :
  Forall (fun x => f x = if p x then Some (g x) else None) l ->
  omap f l = map g (List.filter p l).
Proof.
  induction 1 as [|x rest Hx _ IH]; [reflexivity|].
  cbn [omap list_omap List.filter]. rewrite Hx, IH. destruct (p x); reflexivity.
Qed.

Lemma matched_after_marking (o o1 : Op) (ts : int64) (rids : list uint64) (id : uint64) :
  hcJoinBuckets o1 = hcJoinBuckets o ->
  (forall q,
     option_map (fun j => ats j =? ts) (buckets o1 !! q)
     = option_map (fun j => bool_decide (q ∈ omap (index (lcJoinBuckets o)) rids)
                              || (ats j =? ts)) (buckets o !! q)) ->
  match index (hcJoinBuckets o1) id with
  | None => false
  | Some ptr =>
      match buckets o1 !! ptr with
      | None => false
      | Some jp => ats jp =? ts
      end
  end = matched (hcJoinBuckets o) (lcJoinBuckets o) (buckets o) ts rids id.
Proof.
  intros Hhc Hbs. unfold matched. rewrite Hhc.
  destruct (index (hcJoinBuckets o) id) as [ptr|]; [|reflexivity].
  specialize (Hbs ptr).
  destruct (buckets o1 !! ptr), (buckets o !! ptr); cbn in Hbs; congruence.
Qed.

(** [and] returns, in the order of the left step, the samples whose
    series is matched: its bucket is the bucket of a series that has a
    sample in the right step (or carries the timestamp of the step
    already); [unless] returns exactly the others, each under the output
    series of its own series.  Together the two split the samples of the
    left step. *)
Theorem and_unless_split_left_step (lhs rhs : StepVector) (o : Op) :
  let m := matched (hcJoinBuckets o) (lcJoinBuckets o) (buckets o) (T lhs) (SampleIDs rhs) in
  (forall step o', execBinaryAnd lhs rhs o = (Ok step, o') ->
     Samples step = select (map m (SampleIDs lhs)) (Samples lhs)) /\
  (forall step o', execBinaryUnless lhs rhs o = (Ok step, o') ->
     Samples step = select (map (fun id => negb (m id)) (SampleIDs lhs)) (Samples lhs) /\
     SampleIDs step
     = map (fun id => outputSeriesID o (wrap64 (id + 1)) 0)
         (List.filter (fun id => negb (m id)) (SampleIDs lhs))).
Proof.
  cbv zeta. split.
  - intros step o' Hrun. unfold execBinaryAnd in Hrun.
    apply bind_inv_Ok in Hrun as ([] & o1 & Hmark & Hemit).
    apply (mark_loop_lc (T lhs) (fun id jp => setAts (T lhs) (setSid id jp))) in Hmark
      as (_ & Hhc & _ & Hbs); [|reflexivity].
    apply (emit_loop hcJoinBuckets hcJoinBucket (fun jp => ats jp =? T lhs)
             (fun o id jp => outputSeriesID o (wrap64 (id + 1)) (wrap64 (sid jp + 1)))
             (Samples lhs) (SampleIDs lhs) hcJoinBucket_inv 0%nat) in Hemit
      as (_ & _ & Hs & _).
    rewrite Hs. cbn. f_equal. apply map_ext. intros id.
    apply matched_after_marking; assumption.
  - intros step o' Hrun. unfold execBinaryUnless in Hrun.
    apply bind_inv_Ok in Hrun as ([] & o1 & Hmark & Hemit).
    apply (mark_loop_lc (T lhs) (fun id jp => setAts (T lhs) jp)) in Hmark
      as (_ & Hhc & Hout & Hbs); [|reflexivity].
    apply (emit_loop hcJoinBuckets hcJoinBucket (fun jp => negb (ats jp =? T lhs))
             (fun o id jp => outputSeriesID o (wrap64 (id + 1)) 0)
             (Samples lhs) (SampleIDs lhs) hcJoinBucket_inv 0%nat) in Hemit
      as (_ & Hids & Hs & _ & _ & Hall).
    assert (Hm : Forall (fun id =>
                   exists ptr jp, index (hcJoinBuckets o1) id = Some ptr /\
                                  buckets o1 !! ptr = Some jp /\
                                  negb (ats jp =? T lhs)
                                  = negb (matched (hcJoinBuckets o) (lcJoinBuckets o) (buckets o)
                                            (T lhs) (SampleIDs rhs) id)) (SampleIDs lhs)).
    { eapply Forall_impl; [exact Hall|]. intros id (ptr & jp & Hptr & Hjp).
      exists ptr, jp. split; [exact Hptr|]. split; [exact Hjp|]. f_equal.
      rewrite <- (matched_after_marking o o1 (T lhs) (SampleIDs rhs) id Hhc Hbs).
      rewrite Hptr, Hjp. reflexivity. }
    split.
    + rewrite Hs. cbn. f_equal. apply Forall_fmap_ext_1.
      eapply Forall_impl; [exact Hm|]. intros id (ptr & jp & -> & -> & Heq). exact Heq.
    + rewrite Hids. cbn. apply omap_filter.
      eapply Forall_impl; [exact Hm|]. intros id (ptr & jp & -> & -> & <-).
      unfold outputSeriesID. rewrite Hout. reflexivity.
Qed.

(** The first loop of [or]: every sample of the left step is emitted and
    its bucket is marked. *)
Lemma mark_emit_loop (ts : int64) (samples : list float64) (ids : list uint64) :
  forall (k0 : nat) (step step1 : StepVector) (s s1 : Op),
    forRange
      (fun i sampleID step =>
         run (ptr, jp) <- hcJoinBucket sampleID;
         run _ <- storeBucket ptr (setAts ts jp);
         run o <- get;
         run v <- orPanic (index samples i);
         ret (AppendSample step (outputSeriesID o (wrap64 (sampleID + 1)) 0) v))
      (Z.of_nat k0) ids step s = (Ok step1, s1) ->
    lcJoinBuckets s1 = lcJoinBuckets s /\ hcJoinBuckets s1 = hcJoinBuckets s /\
    outputMap s1 = outputMap s /\
    (forall q,
       option_map (fun j => ats j =? ts) (buckets s1 !! q)
       = option_map (fun j => bool_decide (q ∈ omap (index (hcJoinBuckets s)) ids)
                                || (ats j =? ts)) (buckets s !! q)) /\
    SampleIDs step1
    = SampleIDs step ++ map (fun id => outputSeriesID s (wrap64 (id + 1)) 0) ids /\
    Samples step1 = Samples step ++ take (length ids) (drop k0 samples) /\
    HistogramIDs step1 = HistogramIDs step /\ Histograms step1 = Histograms step.
Proof.
  induction ids as [|id rest IH]; intros k0 step step1 s s1 Hrun.
  - injection Hrun as <- <-. cbn. rewrite !app_nil_r. do 3 (split; [reflexivity|]).
    split; [|auto]. intros q. destruct (buckets s !! q); reflexivity.
  - cbn [forRange] in Hrun. apply bind_inv_Ok in Hrun as (step0 & s0 & Hb & Hrest).
    replace (Z.of_nat k0 + 1) with (Z.of_nat (Datatypes.S k0)) in Hrest by lia.
    apply bind_inv_Ok in Hb as ([ptr jp] & s' & Hget & Hb).
    apply hcJoinBucket_inv in Hget as (-> & Hptr & Hjp).
    apply bind_inv_Ok in Hb as ([] & s2 & Hstore & Hb). injection Hstore as <-.
    rewrite bind_get in Hb. apply bind_inv_Ok in Hb as (v & s3 & Hv & Hb).
    destruct (index samples (Z.of_nat k0)) as [v0|] eqn:Hidx; [|discriminate].
    injection Hv as <- <-. injection Hb as <- <-.
    destruct (IH _ _ _ _ _ Hrest) as (Hlc & Hhc & Hout & Hbs & Hids & Hs & Hhi & Hh).
    cbn in Hlc, Hhc, Hout, Hbs, Hids, Hs, Hhi, Hh.
    do 3 (split; [assumption|]). split; [|split; [|split; [|auto]]].
    + intros q. rewrite Hbs.
      exact (mark_round _ _ ts ptr q jp (setAts ts jp) id rest Hptr Hjp eq_refl).
    + rewrite Hids, <- app_assoc. unfold outputSeriesID. cbn. reflexivity.
    + rewrite Hs, <- app_assoc. f_equal.
      apply index_Some in Hidx as [_ Hidx]. rewrite Nat2Z.id in Hidx.
      rewrite (drop_S _ _ _ Hidx). reflexivity.
Qed.

(** [or] returns the samples of the left step, each under the output
    series of its own series, followed by the samples of the right step
    whose series is not matched: its bucket is the bucket of no series
    that has a sample in the left step. *)
Theorem or_keeps_left_adds_unmatched_right (lhs rhs step : StepVector) (o o' : Op) :
  execBinaryOr lhs rhs o = (Ok step, o') ->
  let m := matched (lcJoinBuckets o) (hcJoinBuckets o) (buckets o) (T lhs) (SampleIDs lhs) in
  Samples step
  = take (length (SampleIDs lhs)) (Samples lhs)
    ++ select (map (fun id => negb (m id)) (SampleIDs rhs)) (Samples rhs) /\
  SampleIDs step
  = map (fun id => outputSeriesID o (wrap64 (id + 1)) 0) (SampleIDs lhs)
    ++ map (fun id => outputSeriesID o 0 (wrap64 (id + 1)))
         (List.filter (fun id => negb (m id)) (SampleIDs rhs)).
Proof.
  intros Hrun. cbv zeta. unfold execBinaryOr in Hrun.
  apply bind_inv_Ok in Hrun as (step1 & o1 & Hfirst & Hemit).
  apply (mark_emit_loop (T lhs) (Samples lhs) (SampleIDs lhs) 0%nat) in Hfirst
    as (Hlc & Hhc & Hout & Hbs & Hids1 & Hs1 & _).
  apply (emit_loop lcJoinBuckets lcJoinBucket (fun jp => negb (ats jp =? T lhs))
           (fun o id jp => outputSeriesID o 0 (wrap64 (id + 1)))
           (Samples rhs) (SampleIDs rhs) lcJoinBucket_inv 0%nat) in Hemit
    as (_ & Hids & Hs & _ & _ & Hall).
  cbn in Hids1, Hs1.
  assert (Hm : Forall (fun id =>
                 exists ptr jp, index (lcJoinBuckets o1) id = Some ptr /\
                                buckets o1 !! ptr = Some jp /\
                                negb (ats jp =? T lhs)
                                = negb (matched (lcJoinBuckets o) (hcJoinBuckets o) (buckets o)
                                          (T lhs) (SampleIDs lhs) id)) (SampleIDs rhs)).
  { eapply Forall_impl; [exact Hall|]. intros id (ptr & jp & Hptr & Hjp).
    exists ptr, jp. split; [exact Hptr|]. split; [exact Hjp|]. f_equal.
    unfold matched. rewrite <- Hlc, Hptr. specialize (Hbs ptr). rewrite Hjp in Hbs.
    destruct (buckets o !! ptr); cbn in Hbs; congruence. }
  split.
  - rewrite Hs, Hs1. cbn. f_equal. f_equal. apply Forall_fmap_ext_1.
    eapply Forall_impl; [exact Hm|]. intros id (ptr & jp & -> & -> & Heq). exact Heq.
  - rewrite Hids, Hids1. cbn. f_equal. apply omap_filter.
    eapply Forall_impl; [exact Hm|]. intros id (ptr & jp & -> & -> & <-).
    unfold outputSeriesID. rewrite Hout. reflexivity.
Qed.
End SetOperators.

Lemma and_unless_split_left_step_witness :
  let lhsV := floatStep 0 [0; 1] [f64_two; f64_three] in
  let rhsV := floatStep 0 [0] [f64_three] in
  let o := snd (Binary.initOnce background
                  (vectorOver (onX CardManyToMany) Binary.LAND [lhsV] [rhsV])) in
  (exists step o', Binary.execBinaryAnd lhsV rhsV o = (Ok step, o') /\ Samples step = [f64_two]) /\
  (exists step o', Binary.execBinaryUnless lhsV rhsV o = (Ok step, o') /\
                   Samples step = [f64_three]).
Proof.
  intros lhsV rhsV o.
  destruct (and_unless_split_left_step lhsV rhsV o) as [Hand Hunless].
  split.
  - assert (Hok : exists step o', Binary.execBinaryAnd lhsV rhsV o = (Ok step, o'))
      by (vm_compute; eexists _, _; reflexivity).
    destruct Hok as (step & o' & Hrun). exists step, o'. split; [exact Hrun|].
    rewrite (Hand step o' Hrun). vm_compute. reflexivity.
  - assert (Hok : exists step o', Binary.execBinaryUnless lhsV rhsV o = (Ok step, o'))
      by (vm_compute; eexists _, _; reflexivity).
    destruct Hok as (step & o' & Hrun). exists step, o'. split; [exact Hrun|].
    rewrite (proj1 (Hunless step o' Hrun)). vm_compute. reflexivity.
Defined.

Lemma or_keeps_left_adds_unmatched_right_witness :
  let lhsV := floatStep 0 [1] [f64_two] in
  let rhsV := floatStep 0 [0] [f64_three] in
  let o := snd (Binary.initOnce background
                  (vectorOver (onX CardManyToMany) Binary.LOR [lhsV] [rhsV])) in
  exists step o', Binary.execBinaryOr lhsV rhsV o = (Ok step, o') /\
                  Samples step = [f64_two; f64_three].
Proof.
  intros lhsV rhsV o.
  assert (Hok : exists step o', Binary.execBinaryOr lhsV rhsV o = (Ok step, o'))
    by (vm_compute; eexists _, _; reflexivity).
  destruct Hok as (step & o' & Hrun). exists step, o'. split; [exact Hrun|].
  rewrite (proj1 (or_keeps_left_adds_unmatched_right lhsV rhsV step o o' Hrun)).
  vm_compute. reflexivity.
Defined.

(** * The instant function [sgn] *)

Section Sgn.
Import InstantVectorFuncs.

(** On a float sample [sgn] answers with one of the four values 1, -1,
    0 and NaN: NaN exactly for NaN, 1 exactly for a sample above zero,
    -1 exactly for one below; applying it twice changes nothing; and a
    histogram sample is dropped. *)
Theorem sgn_is_a_sign (v : float64) (vargs : list float64) :
  sgn v None vargs = (sgn_of v, true) /\
  (sgn_of v = f64_one \/ sgn_of v = f64_neg_one \/ sgn_of v = f64_zero \/ sgn_of v = NaN) /\
  (sgn_of v = NaN <-> v = NaN) /\
  (sgn_of v = f64_one <-> f64_ltb f64_zero v = true) /\
  (sgn_of v = f64_neg_one <-> f64_ltb v f64_zero = true) /\
  sgn_of (sgn_of v) = sgn_of v /\
  (forall h, sgn v (Some h) vargs = (f64_zero, false)).
Proof.
  split; [reflexivity|].
  assert (Hcases : (v = NaN /\ sgn_of v = NaN) \/
                   (f64_ltb f64_zero v = true /\ f64_ltb v f64_zero = false /\ sgn_of v = f64_one) \/
                   (f64_ltb f64_zero v = false /\ f64_ltb v f64_zero = true /\
                    sgn_of v = f64_neg_one) \/
                   (f64_ltb f64_zero v = false /\ f64_ltb v f64_zero = false /\
                    v <> NaN /\ sgn_of v = f64_zero)).
  { unfold sgn_of, IsNaN, f64_eqb, f64_ltb, SFeqb, SFltb, NaN.
    destruct v as [s|s| |s m e]; cbn.
    - right; right; right. repeat split; discriminate.
    - destruct s; cbn; [right; right; left|right; left]; auto.
    - left; auto.
    - rewrite Z.compare_refl, Pos.compare_cont_refl.
      destruct s; cbn; [right; right; left|right; left]; auto. }
  assert (Hfix : sgn_of f64_one = f64_one /\ sgn_of f64_neg_one = f64_neg_one /\
                 sgn_of f64_zero = f64_zero /\ sgn_of NaN = NaN)
    by (repeat split; reflexivity).
  destruct Hfix as (H1 & Hm1 & H0 & Hnan).
  destruct Hcases as [[-> Hs] | [(Hp & Hn & Hs) | [(Hp & Hn & Hs) | (Hp & Hn & Hv & Hs)]]];
    rewrite ?Hs, ?Hp, ?Hn, ?H1, ?Hm1, ?H0, ?Hnan.
  - repeat split; auto; try discriminate.
  - repeat split; auto; try discriminate.
    intros ->. discriminate.
  - repeat split; auto; try discriminate. intros ->. discriminate.
  - repeat split; auto; try discriminate. intros Hx. contradiction.
Qed.
End Sgn.

(** * The kernel [vectorElemBinop] *)

Section ElemBinopProperties.
Import Binary.
Context `{HistogramLib} `{MathLib}.

(** [vectorElemBinop] reaches its final [panic] exactly for the
    operators outside the thirteen arithmetic and comparison operators,
    whatever the operands are. *)
Theorem vectorElemBinop_panics_iff (op : ItemType) (lhs rhs : float64)
    (hlhs hrhs : option FloatHistogram) :
  vectorElemBinop op lhs rhs hlhs hrhs = None <-> isArithmeticOrComparison op = false.
Proof.
  unfold vectorElemBinop.
  destruct op, hlhs as [hl|], hrhs as [hr|]; cbn; split; intros Hx;
    try discriminate; try reflexivity;
    match type of Hx with
    | context [Add ?a ?b] => destruct (Add a b); discriminate
    | context [Sub ?a ?b] => destruct (Sub a b); discriminate
    end.
Qed.

(** When [vectorElemBinop] returns an annotation or an error, it
    returns the float 0, no histogram and [keep = false], and one of
    the operands is a histogram: two floats never give one.  The error
    is the one of [Add] or [Sub] of two histograms, or else the
    incompatible-types annotation that names the operator. *)
Theorem vectorElemBinop_error_keeps_nothing (op : ItemType) (lhs rhs f : float64)
    (hlhs hrhs h : option FloatHistogram) (keep : bool) (err : error) :
  vectorElemBinop op lhs rhs hlhs hrhs = Some (f, h, keep, Some err) ->
  f = f64_zero /\ h = None /\ keep = false /\
  (hlhs <> None \/ hrhs <> None) /\
  ((exists l r, err = IncompatibleTypesInBinOpInfo l (ItemTypeStr op) r) \/
   (exists hl hr, hlhs = Some hl /\ hrhs = Some hr /\
                  (op = ADD /\ Add (Copy hl) hr = inr err \/
                   op = SUB /\ Sub (Copy hl) hr = inr err))).
Proof.
  unfold vectorElemBinop.
  destruct op, hlhs as [hl|], hrhs as [hr|]; cbn; intros Hx; try discriminate;
    try (injection Hx as <- <- <- <-;
         repeat split; try (left; discriminate); try (right; discriminate);
         left; eauto).
  - destruct (Add (Copy hl) hr) as [res|e] eqn:Hadd; [discriminate|].
    injection Hx as <- <- <- <-.
    repeat split; try (left; discriminate). right. exists hl, hr. auto.
  - destruct (Sub (Copy hl) hr) as [res|e] eqn:Hsub; [discriminate|].
    injection Hx as <- <- <- <-.
    repeat split; try (left; discriminate). right. exists hl, hr. auto.
Qed.
End ElemBinopProperties.

Lemma vectorElemBinop_error_keeps_nothing_witness :
  Binary.vectorElemBinop Binary.ADD f64_two f64_zero None (Some compactHistogram)
  = Some (f64_zero, None, false, Some (IncompatibleTypesInBinOpInfo "float" "+" "histogram"))
  /\ (@None FloatHistogram <> None \/ Some compactHistogram <> None).
Proof.
  assert (Hrun : Binary.vectorElemBinop Binary.ADD f64_two f64_zero None (Some compactHistogram)
                 = Some (f64_zero, None, false,
                         Some (IncompatibleTypesInBinOpInfo "float" "+" "histogram")))
    by reflexivity.
  split; [exact Hrun|].
  exact (proj1 (proj2 (proj2 (proj2
           (vectorElemBinop_error_keeps_nothing _ _ _ _ _ _ _ _ _ Hrun))))).
Defined.

(** * The labels of an output series: [resultMetric] *)

Section ResultMetric.
Import Binary.

Lemma lookup_Builder_Del (b : Labels) (names : list string) (k : string) :
  Builder_Del b names !! k = if decide (k ∈ names) then None else b !! k.
Proof.
  unfold Builder_Del. induction names as [|x rest IH]; cbn [foldr].
  - destruct (decide (k ∈ [])) as [Hin|_]; [inversion Hin|reflexivity].
  - destruct (decide (k = x)) as [->|Hne].
    + rewrite lookup_delete_eq. destruct (decide (x ∈ x :: rest)) as [_|Hn]; [reflexivity|].
      exfalso. apply Hn. left.
    + rewrite lookup_delete_ne by congruence. rewrite IH.
      destruct (decide (k ∈ rest)) as [Hin|Hn], (decide (k ∈ x :: rest)) as [Hin'|Hn'];
        try reflexivity.
      * exfalso. apply Hn'. right. exact Hin.
      * exfalso. apply elem_of_cons in Hin' as [->|Hin']; [congruence|contradiction].
Qed.

Lemma lookup_Builder_Keep (b : Labels) (names : list string) (k : string) :
  Builder_Keep b names !! k = if decide (k ∈ names) then b !! k else None.
Proof.
  unfold Builder_Keep. destruct (decide (k ∈ names)) as [Hin|Hn].
  - destruct (b !! k) as [v|] eqn:Hb.
    + apply map_lookup_filter_Some. split; [exact Hb|exact Hin].
    + apply map_lookup_filter_None. left. exact Hb.
  - apply map_lookup_filter_None. right. intros v _. exact Hn.
Qed.

Lemma lookup_Builder_Set (b : Labels) (name v k : string) :
  Builder_Set b name v !! k
  = if decide (k = name) then (if decide (v = "") then None else Some v) else b !! k.
Proof.
  unfold Builder_Set. destruct (decide (v = "")), (decide (k = name)) as [->|Hne].
  - apply lookup_delete_eq.
  - apply lookup_delete_ne. congruence.
  - apply lookup_insert_eq.
  - apply lookup_insert_ne. congruence.
Qed.

(** The value that the loop over [Include] leaves for a label. *)
Lemma lookup_include (lowCard : Labels) (names : list string) (k : string) :
  forall b : Labels,
    fold_left
      (fun b ln =>
         let v := Labels_Get lowCard ln in
         if decide (v = "") then Builder_Del b [ln] else Builder_Set b ln v)
      names b !! k
    = if decide (k ∈ names)
      then (if decide (Labels_Get lowCard k = "") then None else Some (Labels_Get lowCard k))
      else b !! k.
Proof.
  induction names as [|x rest IH]; intros b; cbn [fold_left].
  - destruct (decide (k ∈ [])) as [Hin|_]; [inversion Hin|reflexivity].
  - rewrite IH. cbv zeta.
    destruct (decide (k ∈ rest)) as [Hin|Hn].
    + destruct (decide (k ∈ x :: rest)) as [_|Hn']; [reflexivity|].
      exfalso. apply Hn'. right. exact Hin.
    + destruct (decide (k = x)) as [->|Hne].
      * destruct (decide (x ∈ x :: rest)) as [_|Hn']; [|exfalso; apply Hn'; left].
        destruct (decide (Labels_Get lowCard x = "")) as [Hv|Hv].
        -- rewrite lookup_Builder_Del. destruct (decide (x ∈ [x])) as [_|Hx]; [reflexivity|].
           exfalso. apply Hx. left.
        -- rewrite lookup_Builder_Set. destruct (decide (x = x)); [|congruence].
           destruct (decide (Labels_Get lowCard x = "")); [contradiction|reflexivity].
      * destruct (decide (k ∈ x :: rest)) as [Hin'|_].
        { exfalso. apply elem_of_cons in Hin' as [->|Hin']; [congruence|contradiction]. }
        destruct (decide (Labels_Get lowCard x = "")) as [Hv|Hv].
        -- rewrite lookup_Builder_Del. destruct (decide (k ∈ [x])) as [Hx|_]; [|reflexivity].
           apply list_elem_of_singleton in Hx. congruence.
        -- rewrite lookup_Builder_Set. destruct (decide (k = x)); [congruence|reflexivity].
Qed.

(** The labels named in [Include] (the labels of [group_left] and
    [group_right]) come from the low-cardinality series: each has the
    value it has there, and is absent when it is absent or empty there.
    With [returnBool] the result never has a metric name, even when
    [Include] names it. *)
Theorem resultMetric_include_from_low_card (m : VectorMatching) (op : ItemType)
    (returnBool : bool) (highCard lowCard : Labels) (ln : string) :
  ln ∈ Include m ->
  (returnBool = true ->
   resultMetric m op returnBool highCard lowCard !! MetricName = None) /\
  (returnBool = false \/ ln <> MetricName ->
   resultMetric m op returnBool highCard lowCard !! ln
   = if decide (Labels_Get lowCard ln = "") then None else Some (Labels_Get lowCard ln)).
Proof.
  intros Hin. unfold resultMetric. split.
  - intros ->. rewrite lookup_Builder_Del.
    destruct (decide (MetricName ∈ [MetricName])) as [_|Hn]; [reflexivity|].
    exfalso. apply Hn. left.
  - intros Hcase. destruct returnBool.
    + destruct Hcase as [|Hne]; [discriminate|].
      rewrite lookup_Builder_Del.
      destruct (decide (ln ∈ [MetricName])) as [Hx|_].
      { apply list_elem_of_singleton in Hx. contradiction. }
      rewrite lookup_include. destruct (decide (ln ∈ Include m)); [reflexivity|contradiction].
    + rewrite lookup_include. destruct (decide (ln ∈ Include m)); [reflexivity|contradiction].
Qed.

(** The labels that [Include] does not name come from the
    high-cardinality series.  For one-to-many and many-to-one matching
    each of them other than the metric name is kept with its value.  For
    one-to-one matching with [on] exactly the matching labels are kept,
    with [ignoring] exactly the others; in both cases the metric name is
    kept only if neither [shouldDropMetricName] nor [returnBool] drops
    it. *)
Theorem resultMetric_keeps_high_card (m : VectorMatching) (op : ItemType)
    (returnBool : bool) (highCard lowCard : Labels) (k : string) :
  k ∉ Include m ->
  (Card m <> CardOneToOne -> k <> MetricName ->
   resultMetric m op returnBool highCard lowCard !! k = highCard !! k) /\
  (Card m = CardOneToOne -> On m = true -> k ∉ MatchingLabels m ->
   resultMetric m op returnBool highCard lowCard !! k = None) /\
  (Card m = CardOneToOne -> On m = false -> k ∈ MatchingLabels m ->
   resultMetric m op returnBool highCard lowCard !! k = None) /\
  (Card m = CardOneToOne -> k <> MetricName ->
   (On m = true /\ k ∈ MatchingLabels m) \/ (On m = false /\ k ∉ MatchingLabels m) ->
   resultMetric m op returnBool highCard lowCard !! k = highCard !! k) /\
  (k = MetricName -> shouldDropMetricName op returnBool = true \/ returnBool = true ->
   resultMetric m op returnBool highCard lowCard !! k = None).
Proof.
  intros Hnin.
  assert (Hbody : forall b : Labels,
             (if returnBool
              then Builder_Del
                     (fold_left
                        (fun b ln =>
                           let v := Labels_Get lowCard ln in
                           if decide (v = "") then Builder_Del b [ln] else Builder_Set b ln v)
                        (Include m) b) [MetricName]
              else fold_left
                     (fun b ln =>
                        let v := Labels_Get lowCard ln in
                        if decide (v = "") then Builder_Del b [ln] else Builder_Set b ln v)
                     (Include m) b) !! k
             = if returnBool && bool_decide (k = MetricName) then None else b !! k).
  { intros b. destruct returnBool; cbn [andb].
    - rewrite lookup_Builder_Del, lookup_include.
      destruct (decide (k ∈ Include m)); [contradiction|].
      destruct (decide (k ∈ [MetricName])) as [Hx|Hx].
      + apply list_elem_of_singleton in Hx. rewrite bool_decide_eq_true_2 by exact Hx. reflexivity.
      + rewrite bool_decide_eq_false_2; [reflexivity|]. intros ->. apply Hx. left.
    - rewrite lookup_include. destruct (decide (k ∈ Include m)); [contradiction|reflexivity]. }
  unfold resultMetric. rewrite Hbody. clear Hbody.
  assert (Hdrop : forall b : Labels,
             (if shouldDropMetricName op returnBool then Builder_Del b [MetricName] else b) !! k
             = if shouldDropMetricName op returnBool && bool_decide (k = MetricName)
               then None else b !! k).
  { intros b. destruct (shouldDropMetricName op returnBool); cbn [andb]; [|reflexivity].
    rewrite lookup_Builder_Del. destruct (decide (k ∈ [MetricName])) as [Hx|Hx].
    - apply list_elem_of_singleton in Hx. rewrite bool_decide_eq_true_2 by exact Hx. reflexivity.
    - rewrite bool_decide_eq_false_2; [reflexivity|]. intros ->. apply Hx. left. }
  repeat split.
  - intros Hcard Hk. rewrite andb_comm, bool_decide_eq_false_2 by exact Hk. cbn [andb].
    destruct (Card m); try contradiction; rewrite Hdrop;
      rewrite andb_comm, bool_decide_eq_false_2 by exact Hk; reflexivity.
  - intros -> -> Hk. destruct (returnBool && bool_decide (k = MetricName)); [reflexivity|].
    rewrite lookup_Builder_Keep. destruct (decide (k ∈ MatchingLabels m)); [contradiction|reflexivity].
  - intros -> -> Hk. destruct (returnBool && bool_decide (k = MetricName)); [reflexivity|].
    rewrite lookup_Builder_Del. destruct (decide (k ∈ MatchingLabels m)); [reflexivity|contradiction].
  - intros -> Hk Hcase. rewrite andb_comm, bool_decide_eq_false_2 by exact Hk. cbn [andb].
    destruct Hcase as [[-> Hin]|[-> Hn]].
    + rewrite lookup_Builder_Keep. destruct (decide (k ∈ MatchingLabels m)); [|contradiction].
      rewrite Hdrop, andb_comm, bool_decide_eq_false_2 by exact Hk. reflexivity.
    + rewrite lookup_Builder_Del. destruct (decide (k ∈ MatchingLabels m)); [contradiction|].
      rewrite Hdrop, andb_comm, bool_decide_eq_false_2 by exact Hk. reflexivity.
  - intros -> Hcase. rewrite bool_decide_eq_true_2 by reflexivity.
    destruct returnBool; [reflexivity|]. cbn [andb].
    destruct Hcase as [Hd|]; [|discriminate].
    destruct (Card m); [destruct (On m)|..];
      rewrite ?lookup_Builder_Keep, ?lookup_Builder_Del;
      repeat match goal with |- context [decide ?P] => destruct (decide P) end;
      try reflexivity; rewrite Hdrop, Hd, bool_decide_eq_true_2 by reflexivity; reflexivity.
Qed.
End ResultMetric.

Lemma resultMetric_include_from_low_card_witness :
  Binary.resultMetric {| Card := CardManyToOne; MatchingLabels := ["x"]; On := true;
                         Include := ["y"] |}
    Binary.ADD false {[ MetricName := "a"; "x" := "1" ]} {[ MetricName := "b"; "x" := "1"; "y" := "Y" ]}
    !! "y" = Some "Y".
Proof.
  rewrite (proj2 (resultMetric_include_from_low_card
                    {| Card := CardManyToOne; MatchingLabels := ["x"]; On := true;
                       Include := ["y"] |}
                    Binary.ADD false {[ MetricName := "a"; "x" := "1" ]}
                    {[ MetricName := "b"; "x" := "1"; "y" := "Y" ]} "y"
                    ltac:(apply list_elem_of_singleton; reflexivity))
                 (or_introl eq_refl)).
  vm_compute. reflexivity.
Defined.

Lemma resultMetric_keeps_high_card_witness :
  Binary.resultMetric (onX CardOneToOne) Binary.EQLC false
    {[ MetricName := "a"; "x" := "1"; "z" := "Z" ]} {[ MetricName := "b"; "x" := "1" ]}
    !! "z" = None.
Proof.
  assert (Hnin : "z" ∉ Include (onX CardOneToOne)) by (cbn; intros Hin; inversion Hin).
  assert (Hk : "z" ∉ MatchingLabels (onX CardOneToOne)).
  { cbn. intros Hin. apply list_elem_of_singleton in Hin. discriminate. }
  exact (proj1 (proj2 (resultMetric_keeps_high_card (onX CardOneToOne) Binary.EQLC false
                         {[ MetricName := "a"; "x" := "1"; "z" := "Z" ]}
                         {[ MetricName := "b"; "x" := "1" ]} "z" Hnin))
               eq_refl eq_refl Hk).
Defined.

(** * The duplicate-label check on series of distinct hashes *)

Section DuplicateFree.
Import Exchange.
Context {S : Type} `{VectorOperator S} `{LabelsLib}.

Lemma init_loop_unique (series : list Labels) :
  forall (i : Z) (m : gmap Z Z) (p0 : list pair),
    (forall l, l ∈ series -> m !! Hash l = None) ->
    NoDup (map Hash series) ->
    init_loop series i m p0 = p0.
Proof.
  induction series as [|l rest IH]; intros i m p0 Hm Hnd; [reflexivity|].
  cbn [init_loop]. rewrite (Hm l) by left.
  cbn in Hnd. apply NoDup_cons in Hnd as [Hl Hnd].
  apply IH; [|exact Hnd].
  intros l' Hin. rewrite lookup_insert_ne.
  - apply Hm. right. exact Hin.
  - intros Heq. apply Hl. rewrite Heq. apply list_elem_of_fmap. eauto.
Qed.

Lemma init_loop_mono (series : list Labels) :
  forall (i : Z) (m : gmap Z Z) (p0 : list pair),
    (length p0 <= length (init_loop series i m p0))%nat.
Proof.
  induction series as [|l rest IH]; intros i m p0; [cbn; lia|].
  cbn [init_loop]. destruct (m !! Hash l).
  - etransitivity; [|apply IH]. rewrite length_app. cbn. lia.
  - apply IH.
Qed.

Lemma init_loop_clash (series : list Labels) :
  forall (i : Z) (m : gmap Z Z) (p0 : list pair),
    (exists l, l ∈ series /\ is_Some (m !! Hash l)) \/ ~ NoDup (map Hash series) ->
    (length p0 < length (init_loop series i m p0))%nat.
Proof.
  induction series as [|l rest IH]; intros i m p0 Hclash.
  - destruct Hclash as [(l & Hin & _)|Hnd]; [inversion Hin|]. exfalso. apply Hnd. constructor.
  - cbn [init_loop]. destruct (m !! Hash l) as [j|] eqn:Hj.
    + pose proof (init_loop_mono rest (i + 1) m (p0 ++ [{| a := i; b := j |}])) as Hle.
      rewrite length_app in Hle. cbn in Hle. lia.
    + apply IH.
      destruct (decide (Hash l ∈ map Hash rest)) as [Hin|Hnin].
      * left. apply list_elem_of_fmap in Hin as (l' & Heq & Hin).
        exists l'. split; [exact Hin|]. rewrite <- Heq, lookup_insert_eq. eauto.
      * destruct Hclash as [(l' & Hin & Hsome)|Hnd].
        -- apply elem_of_cons in Hin as [->|Hin]; [rewrite Hj in Hsome; destruct Hsome; discriminate|].
           left. exists l'. split; [exact Hin|].
           destruct (decide (Hash l = Hash l')) as [Heq|Hne].
           ++ rewrite <- Heq, lookup_insert_eq. eauto.
           ++ rewrite lookup_insert_ne by exact Hne. exact Hsome.
        -- right. intros Hnd'. apply Hnd. cbn. apply NoDup_cons. split; assumption.
Qed.

(** [init] records no pair exactly when the hashes of the child's series
    are pairwise different; then [Next] hands on whatever the child's
    [Next] returns, a batch, the end of the stream or an error, and
    never fails by itself. *)
Theorem duplicate_check_transparent (ctx : Context) (d d1 : duplicateLabelCheckOperator S)
    (series : list Labels) :
  ctxErr ctx = None ->
  init ctx d = (Ok tt, d1) ->
  initialised series d1 ->
  (p d1 = [] <-> NoDup (map Hash series)) /\
  (NoDup (map Hash series) ->
   fst (duplicateLabelCheckOperator_Next ctx d) = fst (Next ctx (next d1))).
Proof.
  intros Hctx Hinit [Hp Hlen].
  assert (Hiff : p d1 = [] <-> NoDup (map Hash series)).
  { rewrite Hp. split.
    - intros Hnil. destruct (decide (NoDup (map Hash series))) as [Hnd|Hnd]; [exact Hnd|].
      pose proof (init_loop_clash series 0 ∅ [] (or_intror Hnd)) as Hlt.
      rewrite Hnil in Hlt. cbn in Hlt. lia.
    - intros Hnd. apply init_loop_unique; [|exact Hnd].
      intros l _. apply lookup_empty. }
  split; [exact Hiff|]. intros Hnd. apply Hiff in Hnd.
  unfold duplicateLabelCheckOperator_Next. rewrite Hctx, Hinit.
  destruct (Next ctx (next d1)) as [[[inb|]|e|] n1]; cbn [fst]; try reflexivity.
  cbn [p c]. rewrite Hnd. reflexivity.
Qed.
End DuplicateFree.

Lemma duplicate_check_transparent_witness :
  let d := Exchange.NewDuplicateLabelCheck
             {| src_series := aSeries; src_batches := [Some alternating] |} in
  NoDup (map Hash aSeries) /\
  fst (Exchange.duplicateLabelCheckOperator_Next background d) = Ok (Some alternating).
Proof.
  intros d.
  pose (d1 := {| Exchange.once := true;
                 Exchange.next := {| src_series := aSeries; src_batches := [Some alternating] |};
                 Exchange.p := [];
                 Exchange.c := [0; 0] |}).
  assert (Hinit : Exchange.init background d = (Ok tt, d1)) by (vm_compute; reflexivity).
  assert (Hd1 : initialised aSeries d1) by (split; vm_compute; reflexivity).
  destruct (duplicate_check_transparent background d d1 aSeries eq_refl Hinit Hd1)
    as [Hiff Hfwd].
  assert (Hnd : NoDup (map Hash aSeries)) by (apply Hiff; reflexivity).
  split; [exact Hnd|].
  rewrite (Hfwd Hnd). vm_compute. reflexivity.
Defined.

(** * The series of [absent] *)

Section AbsentSeries.
Import Function.

Lemma absent_matchers_no_name (lm : list Matcher) :
  forall (has : gset string) (b : Labels),
    b !! MetricName = None -> absent_matchers lm has b !! MetricName = None.
Proof.
  induction lm as [|l rest IH]; intros has b Hb; [exact Hb|].
  cbn [absent_matchers]. destruct (decide (mName l = MetricName)) as [Hn|Hn]; [auto|].
  destruct (mType l); try destruct (decide (mName l ∈ has)); apply IH;
    rewrite ?lookup_Builder_Del, ?lookup_Builder_Set;
    repeat match goal with |- context [decide ?P] => destruct (decide P) end;
    congruence.
Qed.

Lemma absent_matchers_source (lm : list Matcher) :
  forall (has : gset string) (b : Labels) (nm v : string),
    absent_matchers lm has b !! nm = Some v ->
    b !! nm = Some v \/
    (v <> "" /\ exists mt, mt ∈ lm /\ mName mt = nm /\ mType mt = MatchEqual /\ mValue mt = v).
Proof.
  induction lm as [|l rest IH]; intros has b nm v Hres; [left; exact Hres|].
  cbn [absent_matchers] in Hres.
  assert (Hlater : forall has' b',
             absent_matchers rest has' b' !! nm = Some v ->
             (b' !! nm = Some v -> b !! nm = Some v \/
                (v <> "" /\ mName l = nm /\ mType l = MatchEqual /\ mValue l = v)) ->
             b !! nm = Some v \/
             (v <> "" /\ exists mt, mt ∈ l :: rest /\ mName mt = nm /\
                                    mType mt = MatchEqual /\ mValue mt = v)).
  { intros has' b' Hr Hstep. destruct (IH _ _ _ _ Hr) as [Hb'|(Hv & mt & Hin & Hmt)].
    - destruct (Hstep Hb') as [Hb|(Hv & Hl)]; [left; exact Hb|].
      right. split; [exact Hv|]. exists l. split; [left|exact Hl].
    - right. split; [exact Hv|]. exists mt. split; [right; exact Hin|exact Hmt]. }
  destruct (decide (mName l = MetricName)) as [Hn|Hn].
  { apply (Hlater _ _ Hres). auto. }
  destruct (mType l) eqn:Hty; try destruct (decide (mName l ∈ has)); apply (Hlater _ _ Hres);
    rewrite ?lookup_Builder_Del, ?lookup_Builder_Set;
    repeat match goal with |- context [decide ?P] => destruct (decide P) end;
    intros Hx; try discriminate; auto.
  injection Hx as <-. right. auto.
Qed.

Lemma absent_matchers_other (lm : list Matcher) (nm : string) :
  forall (has : gset string) (b : Labels),
    (forall x, x ∈ lm -> mName x <> nm) ->
    absent_matchers lm has b !! nm = b !! nm.
Proof.
  induction lm as [|l rest IH]; intros has b Hno; [reflexivity|].
  assert (Hl : mName l <> nm) by (apply Hno; left).
  assert (Hrest : forall x, x ∈ rest -> mName x <> nm) by (intros x Hx; apply Hno; right; exact Hx).
  cbn [absent_matchers]. destruct (decide (mName l = MetricName)); [auto|].
  destruct (mType l); try destruct (decide (mName l ∈ has)); rewrite IH by exact Hrest;
    rewrite ?lookup_Builder_Del, ?lookup_Builder_Set;
    repeat match goal with |- context [decide ?P] => destruct (decide P) end;
    try reflexivity; try congruence;
    match goal with Hx : nm ∈ [_] |- _ => apply list_elem_of_singleton in Hx; congruence end.
Qed.

Lemma absent_matchers_app (pre rest : list Matcher) (nm : string) :
  (forall x, x ∈ pre -> mName x <> nm) ->
  forall (has : gset string) (b : Labels),
    exists has' b',
      absent_matchers (pre ++ rest) has b = absent_matchers rest has' b' /\
      (nm ∈ has' <-> nm ∈ has) /\ b' !! nm = b !! nm.
Proof.
  induction pre as [|l pre IH]; intros Hno has b.
  - exists has, b. auto.
  - assert (Hl : mName l <> nm) by (apply Hno; left).
    assert (Hpre : forall x, x ∈ pre -> mName x <> nm)
      by (intros x Hx; apply Hno; right; exact Hx).
    cbn [app absent_matchers].
    assert (Hdel : Builder_Del b [mName l] !! nm = b !! nm).
    { rewrite lookup_Builder_Del. destruct (decide (nm ∈ [mName l])) as [Hx|_]; [|reflexivity].
      apply list_elem_of_singleton in Hx. congruence. }
    destruct (decide (mName l = MetricName)); [apply IH; exact Hpre|].
    destruct (mType l); try destruct (decide (mName l ∈ has));
      match goal with
      | |- context [absent_matchers (pre ++ rest) ?h ?bb] =>
          destruct (IH Hpre h bb) as (has' & b' & Heq & Hhas & Hb');
          exists has', b'; split; [exact Heq|]; split
      end;
      first
        [ exact Hhas
        | rewrite Hb'; exact Hdel
        | rewrite Hb', lookup_Builder_Set;
          destruct (decide (nm = mName l)); [congruence|reflexivity]
        | etransitivity; [exact Hhas|]; split;
          [ intros Hx; apply elem_of_union in Hx as [Hx|Hx];
            [apply elem_of_singleton in Hx; congruence|exact Hx]
          | intros Hx; apply elem_of_union; right; exact Hx ] ].
Qed.

(** The label set that [absent] computes from the matchers of its
    selector never has a metric name; each of its labels is the name and
    the non-empty value of an equality matcher; and a label name other
    than the metric name that has one matcher only, an equality matcher,
    has the value of that matcher (and is absent when that value is
    empty). *)
Theorem absent_series_from_equality_matchers (lm : list Matcher) :
  let s := absent_matchers lm ∅ EmptyLabels in
  s !! MetricName = None /\
  (forall nm v, s !! nm = Some v ->
     v <> "" /\
     exists mt, mt ∈ lm /\ mName mt = nm /\ mType mt = MatchEqual /\ mValue mt = v) /\
  (forall pre mt post,
     lm = pre ++ mt :: post ->
     mName mt <> MetricName -> mType mt = MatchEqual ->
     (forall x, x ∈ pre ++ post -> mName x <> mName mt) ->
     s !! mName mt = if decide (mValue mt = "") then None else Some (mValue mt)).
Proof.
  cbv zeta. split; [apply absent_matchers_no_name, lookup_empty|]. split.
  - intros nm v Hres. apply absent_matchers_source in Hres as [Hb|Hres]; [|exact Hres].
    unfold EmptyLabels in Hb. rewrite lookup_empty in Hb. discriminate.
  - intros pre mt post -> Hname Hty Hno.
    destruct (absent_matchers_app pre (mt :: post) (mName mt)) with (has := (∅ : gset string))
      (b := EmptyLabels) as (has' & b' & Heq & Hhas & Hb').
    { intros x Hx. apply Hno. apply elem_of_app. left. exact Hx. }
    rewrite Heq. cbn [absent_matchers].
    destruct (decide (mName mt = MetricName)); [contradiction|]. rewrite Hty.
    destruct (decide (mName mt ∈ has')) as [Hin|_].
    { apply Hhas in Hin. apply elem_of_empty in Hin. contradiction. }
    rewrite absent_matchers_other.
    + rewrite lookup_Builder_Set. destruct (decide (mName mt = mName mt)); [reflexivity|congruence].
    + intros x Hx. apply Hno. apply elem_of_app. right. exact Hx.
Qed.

(** [Series] of a new [absent] operator over a vector selector gives
    that one label set, under any context, and over an argument that is
    no selector the empty label set. *)
Theorem absent_series_is_one_label_set {S : Type} `{VectorOperator S}
    (ctx : Context) (n : VectorSelector) (rest : list Node) (next : S) :
  fst (absentOperator_Series ctx (newAbsentOperator {| Args := NodeVectorSelector n :: rest |} next))
  = Ok [absent_matchers (LabelMatchers n ++ Filters n) ∅ EmptyLabels] /\
  fst (absentOperator_Series ctx (newAbsentOperator {| Args := NodeOther :: rest |} next))
  = Ok [EmptyLabels] /\
  fst (absentOperator_Series ctx (newAbsentOperator {| Args := [] |} next)) = Panic.
Proof. repeat split. Qed.
End AbsentSeries.

Lemma absent_series_from_equality_matchers_witness :
  Function.absent_matchers
    [ {| Function.mType := Function.MatchEqual; Function.mName := "__name__";
         Function.mValue := "up" |};
      {| Function.mType := Function.MatchEqual; Function.mName := "job";
         Function.mValue := "x" |};
      {| Function.mType := Function.MatchRegexp; Function.mName := "env";
         Function.mValue := "p.*" |} ] ∅ EmptyLabels !! "job" = Some "x".
Proof.
  exact (proj2 (proj2 (absent_series_from_equality_matchers _))
           [ {| Function.mType := Function.MatchEqual; Function.mName := "__name__";
                Function.mValue := "up" |} ]
           {| Function.mType := Function.MatchEqual; Function.mName := "job";
              Function.mValue := "x" |}
           [ {| Function.mType := Function.MatchRegexp; Function.mName := "env";
                Function.mValue := "p.*" |} ]
           eq_refl ltac:(discriminate) eq_refl
           ltac:(intros x Hx; repeat (apply elem_of_cons in Hx as [->|Hx]); try discriminate;
                 inversion Hx)).
Defined.

(** * The vector-scalar operator *)

Section VectorScalar.
Import Binary StepSpec ScalarSpec.
Context {S1 S2 : Type} `{VectorOperator S1} `{VectorOperator S2}.

Abbreviation SOp := (scalarOperator S1 S2).

(** The loop of [Next] over the float samples of one step. *)
Lemma scalar_float_loop (o : SOp) (vector : StepVector) (scalarVal : float64)
    (l : list float64) :
  forall (k0 : nat) (step step' : StepVector) (s s' : SOp),
    forRange
      (fun i (_ : float64) step =>
         run operands <- orPanic (getOperands o vector i scalarVal);
         let '(val, keep) := floatOp o operands (operandValIdx o) in
         if sreturnBool o then
           let val :=
             if negb (bothScalars o) then (if keep then f64_one else f64_zero) else val in
           run id <- orPanic (index (SampleIDs vector) i);
           ret (AppendSample step id val)
         else if negb keep then ret step
         else
           run id <- orPanic (index (SampleIDs vector) i);
           ret (AppendSample step id val))
      (Z.of_nat k0) l step s = (Ok step', s') ->
    s' = s /\ T step' = T step /\
    HistogramIDs step' = HistogramIDs step /\ Histograms step' = Histograms step /\
    exists sub vals,
      SampleIDs step' = SampleIDs step ++ sub /\ Samples step' = Samples step ++ vals /\
      length sub = length vals /\
      sublist sub (drop k0 (SampleIDs vector)) /\
      (sreturnBool o = true ->
       sub = take (length l) (drop k0 (SampleIDs vector)) /\
       (bothScalars o = false -> Forall (fun v => v = f64_one \/ v = f64_zero) vals)).
Proof.
  induction l as [|x rest IH]; intros k0 step step' s s' Hrun.
  - injection Hrun as <- <-. do 4 (split; [reflexivity|]). exists [], [].
    rewrite !app_nil_r. repeat split; auto. apply sublist_nil_l.
  - cbn [forRange] in Hrun. apply bind_inv_Ok in Hrun as (step1 & s1 & Hb & Hrest).
    replace (Z.of_nat k0 + 1) with (Z.of_nat (Datatypes.S k0)) in Hrest by lia.
    destruct (IH _ _ _ _ _ Hrest) as (-> & Ht & Hhi & Hh & sub & vals & Hids & Hs & Hlen & Hsub & Hbool).
    apply bind_inv_Ok in Hb as (operands & s0 & Hops & Hb).
    destruct (getOperands o vector (Z.of_nat k0) scalarVal) as [ops|]; [|discriminate].
    injection Hops as <- <-.
    destruct (floatOp o ops (operandValIdx o)) as [val keep].
    assert (Hskip : sublist sub (drop k0 (SampleIDs vector))).
    { destruct (drop k0 (SampleIDs vector)) as [|y r] eqn:Hd.
      - assert (drop (Datatypes.S k0) (SampleIDs vector) = []) as Hd'.
        { apply drop_ge. apply drop_nil_inv in Hd. lia. }
        rewrite Hd' in Hsub. exact Hsub.
      - assert (drop (Datatypes.S k0) (SampleIDs vector) = r) as Hd'.
        { rewrite <- (Nat.add_1_r k0), <- drop_drop, Hd. reflexivity. }
        rewrite Hd' in Hsub. apply sublist_cons. exact Hsub. }
    assert (Hemit : forall v id (st : SOp),
               orPanic (index (SampleIDs vector) (Z.of_nat k0)) s
               = (Ok id, st) ->
               step1 = AppendSample step id v ->
               st = s /\
               SampleIDs step' = SampleIDs step ++ id :: sub /\
               Samples step' = Samples step ++ v :: vals /\
               sublist (id :: sub) (drop k0 (SampleIDs vector)) /\
               take (Datatypes.S (length rest)) (drop k0 (SampleIDs vector))
               = id :: take (length rest) (drop (Datatypes.S k0) (SampleIDs vector))).
    { intros v id st Hid ->.
      destruct (index (SampleIDs vector) (Z.of_nat k0)) as [id0|] eqn:Hidx; [|discriminate].
      injection Hid as <- <-. split; [reflexivity|].
      apply index_Some in Hidx as [_ Hidx]. rewrite Nat2Z.id in Hidx.
      rewrite Hids, Hs. cbn [SampleIDs Samples AppendSample]. rewrite <- !app_assoc.
      split; [reflexivity|]. split; [reflexivity|].
      rewrite (drop_S _ _ _ Hidx). split; [apply sublist_skip; exact Hsub|reflexivity]. }
    destruct (sreturnBool o) eqn:Hrb.
    + apply bind_inv_Ok in Hb as (id & st & Hid & Hb). injection Hb as <- <-.
      destruct (Hemit _ _ _ Hid eq_refl) as (-> & Hids' & Hs' & Hsub' & Htake).
      split; [reflexivity|]. cbn in Ht, Hhi, Hh. do 3 (split; [assumption|]).
      eexists _, _. split; [exact Hids'|]. split; [exact Hs'|]. split; [cbn; lia|].
      split; [exact Hsub'|]. intros _. destruct (Hbool eq_refl) as [Hsubeq Hvals].
      cbn [length]. rewrite Htake, <- Hsubeq. split; [reflexivity|].
      intros Hboth. rewrite Hboth. cbn [negb]. constructor; [destruct keep; auto|auto].
    + destruct (negb keep).
      * injection Hb as <- <-. split; [reflexivity|]. do 3 (split; [assumption|]).
        exists sub, vals. do 3 (split; [assumption|]). split; [exact Hskip|discriminate].
      * apply bind_inv_Ok in Hb as (id & st & Hid & Hb). injection Hb as <- <-.
        destruct (Hemit _ _ _ Hid eq_refl) as (-> & Hids' & Hs' & Hsub' & Htake).
        split; [reflexivity|]. cbn in Ht, Hhi, Hh. do 3 (split; [assumption|]).
        eexists _, _. split; [exact Hids'|]. split; [exact Hs'|]. split; [cbn; lia|].
        split; [exact Hsub'|discriminate].
Qed.

(** The loop of [Next] over the histograms of one step. *)
Lemma scalar_histogram_loop (o : SOp) (vector : StepVector) (scalarVal : float64)
    (l : list uint64) :
  forall (k0 : nat) (step step' : StepVector) (s s' : SOp),
    forRange
      (fun i (_ : uint64) step =>
         run h <- orPanic (index (Histograms vector) i);
         match histOp o h scalarVal with
         | Some val =>
             run id <- orPanic (index (HistogramIDs vector) i);
             ret (AppendHistogram step id (Some val))
         | None => ret step
         end)
      (Z.of_nat k0) l step s = (Ok step', s') ->
    s' = s /\ T step' = T step /\
    SampleIDs step' = SampleIDs step /\ Samples step' = Samples step /\
    exists sub hs,
      HistogramIDs step' = HistogramIDs step ++ sub /\ Histograms step' = Histograms step ++ hs /\
      length sub = length hs /\
      sublist sub (drop k0 (HistogramIDs vector)) /\
      Forall (fun h => h <> None) hs.
Proof.
  induction l as [|x rest IH]; intros k0 step step' s s' Hrun.
  - injection Hrun as <- <-. do 4 (split; [reflexivity|]). exists [], [].
    rewrite !app_nil_r. repeat split; auto. apply sublist_nil_l.
  - cbn [forRange] in Hrun. apply bind_inv_Ok in Hrun as (step1 & s1 & Hb & Hrest).
    replace (Z.of_nat k0 + 1) with (Z.of_nat (Datatypes.S k0)) in Hrest by lia.
    destruct (IH _ _ _ _ _ Hrest) as (-> & Ht & Hsi & Hs & sub & hs & Hids & Hhs & Hlen & Hsub & Hsome).
    apply bind_inv_Ok in Hb as (h & s0 & Hh & Hb).
    destruct (index (Histograms vector) (Z.of_nat k0)) as [h0|]; [|discriminate].
    injection Hh as <- <-.
    destruct (histOp o h0 scalarVal) as [val|].
    + apply bind_inv_Ok in Hb as (id & st & Hid & Hb). injection Hb as <- <-.
      destruct (index (HistogramIDs vector) (Z.of_nat k0)) as [id0|] eqn:Hidx; [|discriminate].
      injection Hid as <- <-. split; [reflexivity|].
      apply index_Some in Hidx as [_ Hidx]. rewrite Nat2Z.id in Hidx.
      cbn in Ht, Hsi, Hs. do 3 (split; [assumption|]).
      exists (id0 :: sub), (Some val :: hs). rewrite Hids, Hhs.
      cbn [HistogramIDs Histograms AppendHistogram]. rewrite <- !app_assoc.
      split; [reflexivity|]. split; [reflexivity|]. split; [cbn; lia|].
      rewrite (drop_S _ _ _ Hidx). split; [apply sublist_skip; exact Hsub|].
      constructor; [discriminate|exact Hsome].
    + injection Hb as <- <-. split; [reflexivity|]. do 3 (split; [assumption|]).
      exists sub, hs. do 3 (split; [assumption|]). split; [|exact Hsome].
      destruct (drop k0 (HistogramIDs vector)) as [|y r] eqn:Hd.
      * assert (drop (Datatypes.S k0) (HistogramIDs vector) = []) as Hd'.
        { apply drop_ge. apply drop_nil_inv in Hd. lia. }
        rewrite Hd' in Hsub. exact Hsub.
      * assert (drop (Datatypes.S k0) (HistogramIDs vector) = r) as Hd'.
        { rewrite <- (Nat.add_1_r k0), <- drop_drop, Hd. reflexivity. }
        rewrite Hd' in Hsub. apply sublist_cons. exact Hsub.
Qed.
(** One step of [Next]: the operator is not changed, and the step is a
    filtered copy of the step of the vector operand. *)
Lemma scalar_step_filters (o : SOp) (vector step : StepVector) (scalarVal : float64)
    (s s' : SOp) :
  scalarOperator_step o vector scalarVal s = (Ok step, s') ->
  s' = s /\ filtered (sreturnBool o) (bothScalars o) vector step.
Proof.
  unfold scalarOperator_step. intros Hrun.
  apply bind_inv_Ok in Hrun as (step1 & s1 & Hf & Hh).
  apply (scalar_float_loop o vector scalarVal (Samples vector) 0%nat) in Hf
    as (-> & Ht & Hhi & Hhs & sub & vals & Hids & Hs & Hlen & Hsub & Hbool).
  apply (scalar_histogram_loop o vector scalarVal (HistogramIDs vector) 0%nat) in Hh
    as (-> & Ht' & Hsi' & Hs' & hsub & hs & Hhids & Hhists & Hhlen & Hhsub & Hsome).
  cbn in Ht, Hhi, Hhs, Hids, Hs. rewrite drop_0 in Hsub, Hhsub, Hbool.
  rewrite Hhi in Hhids. rewrite Hhs in Hhists. cbn in Hhids, Hhists.
  split; [reflexivity|]. unfold filtered.
  rewrite Ht', Ht, Hsi', Hs', Hids, Hs, Hhids, Hhists.
  split; [reflexivity|]. split; [exact Hsub|]. split; [exact Hhsub|].
  split; [symmetry; exact Hlen|]. split; [symmetry; exact Hhlen|]. split; [exact Hsome|].
  exact Hbool.
Qed.

(** The loop of [Next] over the steps of the batch. *)
Lemma scalar_batch_loop (o : SOp) (scalarIn : list StepVector) (inb : list StepVector) :
  forall (k : Z) (acc out : list StepVector) (s s' : SOp),
    forRange
      (fun v vector out =>
         let scalarVal :=
           match index scalarIn v with
           | Some sv => match Samples sv with x :: _ => x | [] => NaN end
           | None => NaN
           end in
         run step <- scalarOperator_step o vector scalarVal;
         ret (out ++ [step]))
      k inb acc s = (Ok out, s') ->
    s' = s /\
    exists new, out = acc ++ new /\ Forall2 (filtered (sreturnBool o) (bothScalars o)) inb new.
Proof.
  induction inb as [|vector rest IH]; intros k acc out s s' Hrun.
  - injection Hrun as <- <-. split; [reflexivity|]. exists []. rewrite app_nil_r.
    split; [reflexivity|constructor].
  - cbn [forRange] in Hrun. apply bind_inv_Ok in Hrun as (acc1 & s1 & Hb & Hrest).
    destruct (IH _ _ _ _ _ Hrest) as (-> & new & -> & Hall).
    apply bind_inv_Ok in Hb as (step & s0 & Hstep & Hb). injection Hb as <- <-.
    apply scalar_step_filters in Hstep as [-> Hf].
    split; [reflexivity|]. exists (step :: new). rewrite <- app_assoc.
    split; [reflexivity|]. constructor; assumption.
Qed.

(** Loading the series changes neither of the two flags. *)
Lemma loadSeriesOnce_flags (ctx : Context) (o o' : SOp) (r : result unit) :
  loadSeriesOnce ctx o = (r, o') ->
  sreturnBool o' = sreturnBool o /\ bothScalars o' = bothScalars o.
Proof.
  unfold loadSeriesOnce, loadSeries. destruct (seriesOnce o).
  - intros [= <- <-]. split; reflexivity.
  - cbn. destruct (Series ctx (snext o)) as [[vs|e|] nx]; intros [= <- <-]; split; reflexivity.
Qed.

(** vector-scalar operator, [Next]: a batch that [Next] returns has one
    step for each step of the batch of the vector operand, in order;
    each is a selection of the samples of that step under their IDs, and
    with [returnBool] it has every float sample, with the value 1 or 0
    unless both sides are scalars. *)
Theorem vector_scalar_next_filters (ctx : Context) (o o' : SOp) (out : list StepVector) :
  scalarOperator_Next ctx o = (Ok (Some out), o') ->
  exists inb,
    fst (Next ctx (snext o)) = Ok (Some inb) /\
    Forall2 (filtered (sreturnBool o) (bothScalars o)) inb out.
Proof.
  unfold scalarOperator_Next. destruct (ctxErr ctx); [discriminate|]. intros Hrun.
  apply bind_inv_Ok in Hrun as (inb & o1 & Hin & Hrun).
  destruct (Next ctx (snext o)) as [r nx] eqn:Hnext. injection Hin as -> <-.
  destruct inb as [inb|]; [|discriminate]. exists inb. split; [reflexivity|].
  apply bind_inv_Ok in Hrun as ([] & o2 & Hload & Hrun).
  apply loadSeriesOnce_flags in Hload as [Hrb Hbs]. cbn in Hrb, Hbs.
  apply bind_inv_Ok in Hrun as (scalarIn & o3 & Hsc & Hrun).
  destruct (Next ctx (scalar o2)) as [r sc] eqn:Hscalar. injection Hsc as -> <-.
  apply bind_inv_Ok in Hrun as (o4 & o5 & Hget & Hrun). injection Hget as <- <-.
  apply bind_inv_Ok in Hrun as (out' & o6 & Hloop & Hret). injection Hret as <- <-.
  apply scalar_batch_loop in Hloop as (_ & new & -> & Hall).
  cbn in Hall. rewrite Hrb, Hbs in Hall. exact Hall.
Qed.

(** vector-scalar operator, [Series]: the series table is the one of the
    vector operand, position by position; only the metric name is
    removed from a label set, and that exactly when
    [shouldDropMetricName] says so. *)
Theorem vector_scalar_series_drop_name (ctx : Context) (o : SOp) (vs : list Labels) :
  seriesOnce o = false ->
  fst (Series ctx (snext o)) = Ok vs ->
  exists series,
    fst (scalarOperator_Series ctx o) = Ok series /\
    length series = length vs /\
    forall (i : nat) (l : Labels), vs !! i = Some l ->
      exists l', series !! i = Some l' /\
        (forall k, k <> MetricName -> l' !! k = l !! k) /\
        l' !! MetricName =
          if shouldDropMetricName (sopType o) (sreturnBool o) then None else l !! MetricName.
Proof.
  intros Honce Hs. unfold scalarOperator_Series, loadSeriesOnce, loadSeries, bind, get, ret.
  rewrite Honce. cbn. destruct (Series ctx (snext o)) as [r nx]. cbn in Hs. subst r. cbn.
  eexists. split; [reflexivity|]. split; [rewrite length_map; reflexivity|].
  intros i l Hi.
  match goal with |- context [map ?f vs] => change (map f vs) with (f <$> vs) end.
  rewrite list_lookup_fmap, Hi. cbn. eexists. split; [reflexivity|].
  unfold DropMetricName.
  destruct (shouldDropMetricName (sopType o) (sreturnBool o));
    destruct (bool_decide (l = EmptyLabels)) eqn:He; cbn [negb].
  - apply bool_decide_eq_true in He. subst l. split; [reflexivity|]. apply lookup_empty.
  - split; [intros k Hk; apply lookup_delete_ne; intros Heq; apply Hk; symmetry; exact Heq|apply lookup_delete_eq].
  - split; reflexivity.
  - split; reflexivity.
Qed.

(** vector-scalar operator, [Series]: the series are loaded at the first
    call only.  When the vector operand fails then, [Series] returns its
    error, and every later call returns the table that the operator had
    before, without an error and without asking the operand again. *)
Theorem vector_scalar_series_error_not_retried (ctx : Context) (o : SOp) (e : error) :
  seriesOnce o = false ->
  fst (Series ctx (snext o)) = Error e ->
  fst (scalarOperator_Series ctx o) = Error e /\
  forall ctx', let o1 := snd (scalarOperator_Series ctx o) in
    scalarOperator_Series ctx' o1 = (Ok (sseries o), o1).
Proof.
  intros Honce Hs. unfold scalarOperator_Series, loadSeriesOnce, loadSeries, bind, get, ret.
  rewrite Honce. cbn. destruct (Series ctx (snext o)) as [r nx]. cbn in Hs. subst r. cbn.
  split; [reflexivity|]. intros ctx'. reflexivity.
Qed.
End VectorScalar.

Lemma vector_scalar_next_filters_witness :
  exists inb,
    fst (Next background (Binary.snext (ScalarExamples.greaterThanTwo true)))
    = Ok (Some inb) /\
    Forall2 (ScalarSpec.filtered true false) inb
      [ floatStep 0 [4] [f64_zero]; floatStep 1000 [] [];
        floatStep 2000 [1; 2] [f64_zero; f64_one] ].
Proof.
  assert (Hrun : exists o',
             Binary.scalarOperator_Next background (ScalarExamples.greaterThanTwo true)
             = (Ok (Some [ floatStep 0 [4] [f64_zero]; floatStep 1000 [] [];
                           floatStep 2000 [1; 2] [f64_zero; f64_one] ]), o'))
    by (vm_compute; eexists; reflexivity).
  destruct Hrun as [o' Hrun].
  exact (vector_scalar_next_filters background _ o' _ Hrun).
Defined.

Lemma vector_scalar_series_drop_name_witness :
  Binary.seriesOnce (ScalarExamples.greaterThanTwo false) = false /\
  fst (Series background (Binary.snext (ScalarExamples.greaterThanTwo false))) = Ok aSeries /\
  exists series,
    fst (Binary.scalarOperator_Series background (ScalarExamples.greaterThanTwo false))
    = Ok series /\
    length series = length aSeries /\
    forall (i : nat) (l : Labels), aSeries !! i = Some l ->
      exists l', series !! i = Some l' /\
        (forall k, k <> MetricName -> l' !! k = l !! k) /\
        l' !! MetricName =
          if Binary.shouldDropMetricName Binary.GTR false then None else l !! MetricName.
Proof.
  split; [reflexivity|]. split; [reflexivity|].
  exact (vector_scalar_series_drop_name background (ScalarExamples.greaterThanTwo false)
           aSeries eq_refl eq_refl).
Defined.

Lemma vector_scalar_series_error_not_retried_witness :
  Binary.seriesOnce (ScalarExamples.greaterThanTwo false) = false /\
  fst (Series cancelled (Binary.snext (ScalarExamples.greaterThanTwo false))) = Error Canceled /\
  fst (Binary.scalarOperator_Series cancelled (ScalarExamples.greaterThanTwo false))
  = Error Canceled /\
  forall ctx',
    let o1 := snd (Binary.scalarOperator_Series cancelled (ScalarExamples.greaterThanTwo false)) in
    Binary.scalarOperator_Series ctx' o1 = (Ok [], o1).
Proof.
  split; [reflexivity|]. split; [reflexivity|].
  exact (vector_scalar_series_error_not_retried cancelled (ScalarExamples.greaterThanTwo false)
           Canceled eq_refl eq_refl).
Defined.

(** * Telemetry *)

Section TelemetryProperties.
Import Telemetry TelemetrySpec.
Context {Q : Type} `{StatsLib Q}.

Lemma wrapInt64_add_l (a b : Z) : wrapInt64 (wrapInt64 a + b) = wrapInt64 (a + b).
Proof.
  unfold wrapInt64. f_equal.
  replace ((a + 2 ^ 63) mod 2 ^ 64 - 2 ^ 63 + b + 2 ^ 63) with ((a + 2 ^ 63) mod 2 ^ 64 + b) by lia.
  rewrite Zplus_mod_idemp_l. f_equal. lia.
Qed.

Lemma wrapInt64_sum3 (a b c : Z) :
  wrapInt64 (wrapInt64 a + wrapInt64 b + c) = wrapInt64 (a + b + c).
Proof.
  rewrite <- Z.add_assoc, wrapInt64_add_l.
  replace (a + (wrapInt64 b + c)) with (wrapInt64 b + (a + c)) by lia.
  rewrite wrapInt64_add_l. f_equal. lia.
Qed.

Lemma wrapInt64_small (z : Z) : - 2 ^ 63 <= z < 2 ^ 63 -> wrapInt64 z = z.
Proof. intros Hz. unfold wrapInt64. rewrite Z.mod_small; lia. Qed.

Lemma wrapInt64_range (z : Z) : - 2 ^ 63 <= wrapInt64 z < 2 ^ 63.
Proof. unfold wrapInt64. pose proof (Z.mod_pos_bound (z + 2 ^ 63) (2 ^ 64) eq_refl). lia. Qed.

(** What a list of calls leaves in a tracked telemetry whose three
    times are [int64] values. *)
Lemma tracked_times (cs : list call) :
  forall ti : TrackedTelemetry Q,
    - 2 ^ 63 <= ExecutionTime ti < 2 ^ 63 ->
    - 2 ^ 63 <= SeriesTime ti < 2 ^ 63 ->
    - 2 ^ 63 <= NextTime ti < 2 ^ 63 ->
    exists ti',
      apply_calls (Tracked ti) cs = Tracked ti' /\
      ExecutionTime ti'
      = wrapInt64 (ExecutionTime ti
                   + (sumOf seriesTimeOf cs + sumOf nextTimeOf cs + sumOf otherTimeOf cs)) /\
      SeriesTime ti' = wrapInt64 (SeriesTime ti + sumOf seriesTimeOf cs) /\
      NextTime ti' = wrapInt64 (NextTime ti + sumOf nextTimeOf cs) /\
      logicalNode ti' = logicalNode ti.
Proof.
  induction cs as [|c rest IH]; intros ti He Hs Hn.
  - exists ti. cbn. rewrite !Z.add_0_r, !wrapInt64_small by assumption. auto.
  - unfold sumOf in IH. destruct c as [t|t|t|samples t|count]; cbn [apply_calls fold_left apply_call
      AddExecutionTimeTaken AddSeriesExecutionTime AddNextExecutionTime
      IncrementSamplesAtTimestamp SetMaxSeriesCount].
    + destruct (IH (Tracked_AddExecutionTimeTaken ti t)) as (ti' & Hrun & He' & Hs' & Hn' & Hl');
        cbn; try apply wrapInt64_range; try assumption.
      exists ti'. split; [exact Hrun|]. cbn in He', Hs', Hn', Hl' |- *.
      rewrite He', Hs', Hn', Hl', wrapInt64_add_l. unfold sumOf. repeat split; f_equal; lia.
    + destruct (IH (Tracked_AddSeriesExecutionTime ti t)) as (ti' & Hrun & He' & Hs' & Hn' & Hl');
        cbn; try apply wrapInt64_range; try assumption.
      exists ti'. split; [exact Hrun|]. cbn in He', Hs', Hn', Hl' |- *.
      rewrite He', Hs', Hn', Hl', !wrapInt64_add_l. unfold sumOf. repeat split; f_equal; lia.
    + destruct (IH (Tracked_AddNextExecutionTime ti t)) as (ti' & Hrun & He' & Hs' & Hn' & Hl');
        cbn; try apply wrapInt64_range; try assumption.
      exists ti'. split; [exact Hrun|]. cbn in He', Hs', Hn', Hl' |- *.
      rewrite He', Hs', Hn', Hl', !wrapInt64_add_l. unfold sumOf. repeat split; f_equal; lia.
    + destruct (IH (Tracked_IncrementSamplesAtTimestamp ti samples t))
        as (ti' & Hrun & He' & Hs' & Hn' & Hl'); cbn; try assumption.
      exists ti'. split; [exact Hrun|]. cbn in He', Hs', Hn', Hl' |- *.
      rewrite He', Hs', Hn', Hl'. unfold sumOf. repeat split; f_equal; lia.
    + destruct (IH (Tracked_SetMaxSeriesCount ti count))
        as (ti' & Hrun & He' & Hs' & Hn' & Hl'); cbn; try assumption.
      exists ti'. split; [exact Hrun|]. cbn in He', Hs', Hn', Hl' |- *.
      rewrite He', Hs', Hn', Hl'. unfold sumOf. repeat split; f_equal; lia.
Qed.

Lemma noop_stays (cs : list call) : apply_calls (@NoopTelemetry Q) cs = NoopTelemetry.
Proof.
  induction cs as [|c rest IH]; [reflexivity|].
  destruct c; cbn in *; exact IH.
Qed.

(** Whatever calls a telemetry made by [NewTelemetry] receives: with
    [EnableAnalysis] the series time and the batch time are the sums of
    the durations reported for them and the execution time is the sum of
    the two and of the durations added directly, all on [int64], and the
    telemetry has no logical node; without it every reading is zero or
    nil. *)
Theorem telemetry_accounts_time (opts : Options) (cs : list call) :
  let tm := apply_calls (NewTelemetry opts) cs in
  if EnableAnalysis opts then
    SeriesExecutionTime tm = wrapInt64 (sumOf seriesTimeOf cs) /\
    NextExecutionTime tm = wrapInt64 (sumOf nextTimeOf cs) /\
    ExecutionTimeTaken tm
    = wrapInt64 (SeriesExecutionTime tm + NextExecutionTime tm + sumOf otherTimeOf cs) /\
    LogicalNode tm = None
  else
    SeriesExecutionTime tm = 0 /\ NextExecutionTime tm = 0 /\ ExecutionTimeTaken tm = 0 /\
    MaxSeriesCount tm = 0 /\ Samples tm = None /\ LogicalNode tm = None.
Proof.
  unfold NewTelemetry. destruct (EnableAnalysis opts); cbv zeta.
  - destruct (tracked_times cs (NewTrackedTelemetry opts None))
      as (ti' & -> & He & Hs & Hn & Hl); cbn; try lia.
    cbn in He, Hs, Hn, Hl. rewrite He, Hs, Hn, Hl.
    split; [reflexivity|]. split; [reflexivity|]. split; [|reflexivity].
    rewrite wrapInt64_sum3. f_equal; lia.
  - rewrite noop_stays. repeat split; reflexivity.
Qed.

(** [StepTrackingInterval] is 1 for the step 0; for a positive step it
    is the number of whole milliseconds of the step, which is 0 for a
    step below one millisecond. *)
Theorem step_tracking_interval_milliseconds (step : int64) :
  StepTrackingInterval 0 = 1 /\
  (0 < step ->
   0 <= StepTrackingInterval step /\
   StepTrackingInterval step * 1000000 <= step < (StepTrackingInterval step + 1) * 1000000 /\
   (StepTrackingInterval step = 0 <-> step < 1000000)).
Proof.
  split; [reflexivity|]. intros Hpos. unfold StepTrackingInterval.
  destruct (Z.eqb_spec step 0) as [->|_]; [lia|].
  change (1000000 ÷ 1) with 1000000.
  rewrite Z.quot_div_nonneg by lia.
  pose proof (Z.div_mod step 1000000 ltac:(lia)).
  pose proof (Z.mod_pos_bound step 1000000 ltac:(lia)).
  assert (0 <= step / 1000000) by (apply Z.div_pos; lia).
  split; [assumption|]. split; [lia|]. split; intros; nia.
Qed.
End TelemetryProperties.

Lemma step_tracking_interval_milliseconds_witness :
  Telemetry.StepTrackingInterval 1500000 = 1 /\ Telemetry.StepTrackingInterval 999999 = 0.
Proof.
  split.
  - destruct (step_tracking_interval_milliseconds 1500000) as [_ Hms].
    destruct Hms as (H0 & Hb & _); lia.
  - destruct (step_tracking_interval_milliseconds 999999) as [_ Hms].
    destruct Hms as (_ & _ & Hz); [lia|]. apply Hz. lia.
Defined.
